(** * strapi-cache: cache keys, cache providers and the GraphQL middleware

    A shallow embedding of
      - [server/src/utils/key.ts]           (generateCacheKey, generateGraphqlCacheKey),
      - [server/src/services/memory/provider.ts] (InMemoryCacheProvider),
      - [server/src/services/redis/provider.ts]  (RedisCacheProvider),
      - [server/src/middlewares/graphql.ts]      (the GraphQL cache middleware),
      - [test-cache-improvements.js]             (validateConfig),
    followed by the properties of the specification that concern them.

    Conventions.  A JavaScript string is the list of its UTF-16 code units
    ([N]); [lit] turns an ASCII literal into such a list.  A promise is
    represented by its outcome ([Ok v] when it resolves with [v], [Throw e]
    when it rejects with [e]); effects on the stores, the log and the
    downstream pipeline are threaded through an explicit world. *)

From Stdlib Require Import NArith ZArith List Bool Ascii String DecimalString Lia.
From stdpp Require Import base option list gmap.
Import ListNotations.

Local Open Scope N_scope.

(* ===================================================================== *)
(** ** JavaScript strings *)
(* ===================================================================== *)

Module JsString.

(** One UTF-16 code unit. *)
Definition jschar := N.
Definition jsstring := list jschar.

Definition lit (s : string) : jsstring :=
  List.map (fun a => N_of_ascii a) (list_ascii_of_string s).

Definition jschar_eqb (a b : jschar) : bool := N.eqb a b.

Fixpoint eqb (s t : jsstring) : bool :=
  match s, t with
  | [], [] => true
  | a :: s', b :: t' => jschar_eqb a b && eqb s' t'
  | _, _ => false
  end.

(** [s.startsWith(p)] *)
Fixpoint startsWith (p s : jsstring) : bool :=
  match p with
  | [] => true
  | a :: p' =>
      match s with
      | [] => false
      | b :: s' => jschar_eqb a b && startsWith p' s'
      end
  end.

(** [s.includes(p)]: [p] occurs at some position of [s]. *)
Fixpoint includes (p s : jsstring) : bool :=
  startsWith p s ||
  match s with
  | [] => false
  | _ :: s' => includes p s'
  end.

(** An ASCII literal between double quotes. *)
Definition quoted (s : string) : jsstring := [34] ++ lit s ++ [34].

(** [l.join(sep)] *)
Fixpoint join (sep : jsstring) (l : list jsstring) : jsstring :=
  match l with
  | [] => []
  | [x] => x
  | x :: l' => x ++ sep ++ join sep l'
  end.

Definition hexdigit (d : N) : jschar :=
  if d <? 10 then 48 + d else 87 + d.

(** The four lowercase hexadecimal digits of a code unit. *)
Definition hex4 (c : jschar) : jsstring :=
  [ hexdigit (N.land (N.shiftr c 12) 15); hexdigit (N.land (N.shiftr c 8) 15);
    hexdigit (N.land (N.shiftr c 4) 15);  hexdigit (N.land c 15) ].

Definition is_high_surrogate (c : jschar) : bool := (0xD800 <=? c) && (c <=? 0xDBFF).
Definition is_low_surrogate (c : jschar) : bool := (0xDC00 <=? c) && (c <=? 0xDFFF).

(** UTF-8 bytes of one code point. *)
Definition utf8_of_codepoint (cp : N) : list N :=
  if cp <? 0x80 then [cp]
  else if cp <? 0x800 then
    [ N.lor 0xC0 (N.shiftr cp 6); N.lor 0x80 (N.land cp 0x3F) ]
  else if cp <? 0x10000 then
    [ N.lor 0xE0 (N.shiftr cp 12); N.lor 0x80 (N.land (N.shiftr cp 6) 0x3F);
      N.lor 0x80 (N.land cp 0x3F) ]
  else
    [ N.lor 0xF0 (N.shiftr cp 18); N.lor 0x80 (N.land (N.shiftr cp 12) 0x3F);
      N.lor 0x80 (N.land (N.shiftr cp 6) 0x3F); N.lor 0x80 (N.land cp 0x3F) ].

(** The bytes a string contributes to a hash ([hash.update(str)] encodes
    as UTF-8): surrogate pairs are combined, a lone surrogate becomes
    U+FFFD. *)
Fixpoint utf8_encode (s : jsstring) : list N :=
  match s with
  | [] => []
  | c :: s' =>
      if is_high_surrogate c then
        match s' with
        | d :: s'' =>
            if is_low_surrogate d then
              utf8_of_codepoint (0x10000 + N.shiftl (c - 0xD800) 10 + (d - 0xDC00))
                ++ utf8_encode s''
            else utf8_of_codepoint 0xFFFD ++ utf8_encode s'
        | [] => utf8_of_codepoint 0xFFFD
        end
      else if is_low_surrogate c then utf8_of_codepoint 0xFFFD ++ utf8_encode s'
      else utf8_of_codepoint c ++ utf8_encode s'
  end.

End JsString.
Import JsString.

(* ===================================================================== *)
(** ** SHA-256 and base64url: [createHash('sha256').update(s).digest('base64url')] *)
(* ===================================================================== *)

Module Sha256.

Definition w32 (x : N) : N := N.land x 0xFFFFFFFF.
Definition add32 (a b : N) : N := w32 (a + b).
Definition not32 (x : N) : N := N.lxor (w32 x) 0xFFFFFFFF.
Definition rotr (n x : N) : N := N.lor (N.shiftr x n) (w32 (N.shiftl x (32 - n))).

Definition Ch (x y z : N) : N := N.lxor (N.land x y) (N.land (not32 x) z).
Definition Maj (x y z : N) : N :=
  N.lxor (N.lxor (N.land x y) (N.land x z)) (N.land y z).
Definition Sigma0 (x : N) : N := N.lxor (N.lxor (rotr 2 x) (rotr 13 x)) (rotr 22 x).
Definition Sigma1 (x : N) : N := N.lxor (N.lxor (rotr 6 x) (rotr 11 x)) (rotr 25 x).
Definition sigma0 (x : N) : N := N.lxor (N.lxor (rotr 7 x) (rotr 18 x)) (N.shiftr x 3).
Definition sigma1 (x : N) : N := N.lxor (N.lxor (rotr 17 x) (rotr 19 x)) (N.shiftr x 10).

(** The first 64 primes. *)
Definition primes : list N :=
  [ 2; 3; 5; 7; 11; 13; 17; 19; 23; 29; 31; 37; 41; 43; 47; 53;
    59; 61; 67; 71; 73; 79; 83; 89; 97; 101; 103; 107; 109; 113; 127; 131;
    137; 139; 149; 151; 157; 163; 167; 173; 179; 181; 191; 193; 197; 199; 211; 223;
    227; 229; 233; 239; 241; 251; 257; 263; 269; 271; 277; 281; 283; 293; 307; 311 ].

(** The integer cube root of [n], built from bit [bit - 1] downwards. *)
Fixpoint cube_root (bit : nat) (n r : N) : N :=
  match bit with
  | O => r
  | S b =>
      let r' := N.lor r (N.shiftl 1 (N.of_nat b)) in
      cube_root b n (if r' * r' * r' <=? n then r' else r)
  end.

(** Round constants: the first 32 bits of the fractional parts of the
    cube roots of the first 64 primes. *)
Definition K : list N :=
  List.map (fun p => w32 (cube_root 36 (N.shiftl p 96) 0)) primes.

(** Initial hash value: the first 32 bits of the fractional parts of the
    square roots of the first 8 primes. *)
Definition H0 : list N :=
  List.map (fun p => w32 (N.sqrt (N.shiftl p 64))) (List.firstn 8 primes).

(** Big-endian bytes of the low [8 * n] bits of [x]. *)
Fixpoint be_bytes (n : nat) (x : N) : list N :=
  match n with
  | O => []
  | S n' => N.land (N.shiftr x (8 * N.of_nat n')) 0xFF :: be_bytes n' x
  end.

(** Message, then 0x80, then zeros up to 56 modulo 64, then the bit length. *)
Definition pad (msg : list N) : list N :=
  let len := N.of_nat (List.length msg) in
  let zeros := N.to_nat ((64 + 55 - len mod 64) mod 64) in
  msg ++ [0x80] ++ List.repeat 0 zeros ++ be_bytes 8 (8 * len).

Fixpoint words_of_bytes (n : nat) (bs : list N) : list N :=
  match n with
  | O => []
  | S n' =>
      match bs with
      | a :: b :: c :: d :: bs' =>
          (N.shiftl a 24 + N.shiftl b 16 + N.shiftl c 8 + d) :: words_of_bytes n' bs'
      | _ => []
      end
  end.

(** Extends the schedule [w] (most recent word last) by [n] words. *)
Fixpoint schedule (n : nat) (w : list N) : list N :=
  match n with
  | O => w
  | S n' =>
      let t := List.length w in
      let at_ (k : nat) := List.nth (t - k) w 0 in
      schedule n'
        (w ++ [ add32 (add32 (sigma1 (at_ 2%nat)) (at_ 7%nat))
                      (add32 (sigma0 (at_ 15%nat)) (at_ 16%nat)) ])
  end.

Record regs := Regs { ra : N; rb : N; rc : N; rd : N; re : N; rf : N; rg : N; rh : N }.

Definition round (r : regs) (kw : N * N) : regs :=
  let t1 := add32 (add32 (add32 (rh r) (Sigma1 (re r))) (Ch (re r) (rf r) (rg r)))
                  (add32 (fst kw) (snd kw)) in
  let t2 := add32 (Sigma0 (ra r)) (Maj (ra r) (rb r) (rc r)) in
  Regs (add32 t1 t2) (ra r) (rb r) (rc r) (add32 (rd r) t1) (re r) (rf r) (rg r).

Definition regs_of (h : list N) : regs :=
  Regs (List.nth 0 h 0) (List.nth 1 h 0) (List.nth 2 h 0) (List.nth 3 h 0)
       (List.nth 4 h 0) (List.nth 5 h 0) (List.nth 6 h 0) (List.nth 7 h 0).

Definition compress (h : list N) (block : list N) : list N :=
  let w := schedule 48 (words_of_bytes 16 block) in
  let r0 := regs_of h in
  let r := List.fold_left round (List.combine K w) r0 in
  [ add32 (ra r0) (ra r); add32 (rb r0) (rb r); add32 (rc r0) (rc r); add32 (rd r0) (rd r);
    add32 (re r0) (re r); add32 (rf r0) (rf r); add32 (rg r0) (rg r); add32 (rh r0) (rh r) ].

(** Folds [compress] over the 64-byte blocks of [bs]; [n] bounds the
    number of blocks. *)
Fixpoint blocks (n : nat) (h : list N) (bs : list N) : list N :=
  match n with
  | O => h
  | S n' =>
      match bs with
      | [] => h
      | _ => blocks n' (compress h (List.firstn 64 bs)) (List.skipn 64 bs)
      end
  end.

(** The 32 bytes of the digest. *)
Definition digest (msg : list N) : list N :=
  let p := pad msg in
  List.concat (List.map (be_bytes 4) (blocks (List.length p) H0 p)).

Definition b64url_char (i : N) : jschar :=
  if i <? 26 then 65 + i
  else if i <? 52 then 97 + (i - 26)
  else if i <? 62 then 48 + (i - 52)
  else if i =? 62 then 45 (* - *) else 95 (* _ *).

(** base64url without padding. *)
Fixpoint base64url (bs : list N) : jsstring :=
  match bs with
  | a :: b :: c :: bs' =>
      [ b64url_char (N.shiftr a 2);
        b64url_char (N.lor (N.shiftl (N.land a 3) 4) (N.shiftr b 4));
        b64url_char (N.lor (N.shiftl (N.land b 15) 2) (N.shiftr c 6));
        b64url_char (N.land c 63) ] ++ base64url bs'
  | [a; b] =>
      [ b64url_char (N.shiftr a 2);
        b64url_char (N.lor (N.shiftl (N.land a 3) 4) (N.shiftr b 4));
        b64url_char (N.shiftl (N.land b 15) 2) ]
  | [a] =>
      [ b64url_char (N.shiftr a 2); b64url_char (N.shiftl (N.land a 3) 4) ]
  | [] => []
  end.

(** [createHash('sha256').update(s).digest('base64url')] *)
Definition sha256_base64url (s : jsstring) : jsstring :=
  base64url (digest (utf8_encode s)).

End Sha256.

(* ===================================================================== *)
(** ** JavaScript values, objects and [JSON.stringify] *)
(* ===================================================================== *)

Module Js.

(** The values that occur in requests, cache entries and configuration
    objects.  Numbers are the integers (exact for JavaScript's safe
    integers); a [Buffer] is the list of its bytes; an object is the list
    of its own enumerable properties in the order [Object.keys] reports
    them. *)
#[warnings="-register-all"]
Inductive jsval :=
| JUndefined
| JNull
| JBool (b : bool)
| JNum (z : Z)
| JStr (s : jsstring)
| JBuffer (bytes : list N)
| JArr (l : list jsval)
| JObj (props : list (jsstring * jsval)).

Definition jsobj := list (jsstring * jsval).

Inductive jstype := TUndefined | TObject | TBoolean | TNumber | TString.

Definition typeof (v : jsval) : jstype :=
  match v with
  | JUndefined => TUndefined
  | JNull | JBuffer _ | JArr _ | JObj _ => TObject
  | JBool _ => TBoolean
  | JNum _ => TNumber
  | JStr _ => TString
  end.

Definition jstype_eqb (a b : jstype) : bool :=
  match a, b with
  | TUndefined, TUndefined | TObject, TObject | TBoolean, TBoolean
  | TNumber, TNumber | TString, TString => true
  | _, _ => false
  end.

(** ToBoolean *)
Definition truthy (v : jsval) : bool :=
  match v with
  | JUndefined | JNull => false
  | JBool b => b
  | JNum z => negb (Z.eqb z 0)
  | JStr s => match s with [] => false | _ => true end
  | JBuffer _ | JArr _ | JObj _ => true
  end.

(** [o[k]] *)
Fixpoint obj_get (o : jsobj) (k : jsstring) : jsval :=
  match o with
  | [] => JUndefined
  | (k', v) :: o' => if JsString.eqb k' k then v else obj_get o' k
  end.

Definition obj_keys (o : jsobj) : list jsstring := List.map fst o.

Definition is_digit (c : jschar) : bool := (48 <=? c) && (c <=? 57).

Definition decimal_value (s : jsstring) : N :=
  List.fold_left (fun acc c => 10 * acc + (c - 48)) s 0.

(** A property name is an array index when it is the canonical decimal
    numeral of an integer below 2^32 - 1. *)
Definition array_index (k : jsstring) : option N :=
  match k with
  | [] => None
  | c :: k' =>
      if List.forallb is_digit k
         && (negb (c =? 48) || match k' with [] => true | _ => false end)
         && (Nat.leb (List.length k) 10)
         && (decimal_value k <? 4294967295)
      then Some (decimal_value k) else None
  end.

Definition has_key (k : jsstring) (o : jsobj) : bool :=
  List.existsb (fun p => JsString.eqb (fst p) k) o.

Fixpoint obj_update (k : jsstring) (v : jsval) (o : jsobj) : jsobj :=
  match o with
  | [] => []
  | (k', v') :: o' =>
      if JsString.eqb k' k then (k', v) :: o' else (k', v') :: obj_update k v o'
  end.

Fixpoint obj_insert_index (i : N) (k : jsstring) (v : jsval) (o : jsobj) : jsobj :=
  match o with
  | [] => [(k, v)]
  | (k', v') :: o' =>
      match array_index k' with
      | Some j => if j <? i then (k', v') :: obj_insert_index i k v o' else (k, v) :: o
      | None => (k, v) :: o
      end
  end.

(** [o[k] = v]: an existing property keeps its place; a new array index
    is enumerated among the indices in ascending order, before all other
    names; any other new name is enumerated last. *)
Definition obj_set (k : jsstring) (v : jsval) (o : jsobj) : jsobj :=
  if has_key k o then obj_update k v o
  else match array_index k with
       | Some i => obj_insert_index i k v o
       | None => o ++ [(k, v)]
       end.

(** The object obtained by assigning the given properties, in that
    order, to an empty object (an object literal, or the result of
    parsing a query string). *)
Definition obj_of_insertions (l : list (jsstring * jsval)) : jsobj :=
  List.fold_left (fun o p => obj_set (fst p) (snd p) o) l [].

Definition number_to_string (z : Z) : jsstring :=
  lit (NilZero.string_of_int (Z.to_int z)).

(** QuoteJSONString, one code unit at a time. *)
Definition quote_char (c : jschar) : jsstring :=
  if c =? 8 then lit "\b"
  else if c =? 9 then lit "\t"
  else if c =? 10 then lit "\n"
  else if c =? 12 then lit "\f"
  else if c =? 13 then lit "\r"
  else if c =? 34 then [92; 34]
  else if c =? 92 then [92; 92]
  else if c <? 32 then lit "\u" ++ hex4 c
  else [c].

(** Surrogate pairs are copied, lone surrogates are escaped. *)
Fixpoint quote_body (s : jsstring) : jsstring :=
  match s with
  | [] => []
  | c :: s' =>
      if is_high_surrogate c then
        match s' with
        | d :: s'' =>
            if is_low_surrogate d then c :: d :: quote_body s''
            else lit "\u" ++ hex4 c ++ quote_body s'
        | [] => lit "\u" ++ hex4 c
        end
      else if is_low_surrogate c then lit "\u" ++ hex4 c ++ quote_body s'
      else quote_char c ++ quote_body s'
  end.

Definition quote (s : jsstring) : jsstring := [34] ++ quote_body s ++ [34].

(** [JSON.stringify(v)]; [None] is [undefined]. *)
Fixpoint JSON_stringify (v : jsval) : option jsstring :=
  match v with
  | JUndefined => None
  | JNull => Some (lit "null")
  | JBool b => Some (if b then lit "true" else lit "false")
  | JNum z => Some (number_to_string z)
  | JStr s => Some (quote s)
  | JBuffer bs =>
      (* Buffer.prototype.toJSON *)
      Some (lit "{" ++ quote (lit "type") ++ lit ":" ++ quote (lit "Buffer") ++ lit ","
            ++ quote (lit "data") ++ lit ":["
            ++ join (lit ",") (List.map (fun b => number_to_string (Z.of_N b)) bs)
            ++ lit "]}")
  | JArr l =>
      Some (lit "[" ++
            join (lit ",")
                 (List.map (fun x => match JSON_stringify x with
                                     | Some t => t
                                     | None => lit "null"
                                     end) l) ++
            lit "]")
  | JObj ps =>
      Some (lit "{" ++
            join (lit ",")
                 ((fix members (ps : list (jsstring * jsval)) : list jsstring :=
                     match ps with
                     | [] => []
                     | (k, x) :: ps' =>
                         match JSON_stringify x with
                         | Some t => (quote k ++ lit ":" ++ t) :: members ps'
                         | None => members ps'
                         end
                     end) ps) ++
            lit "}")
  end.

(** A value interpolated in a template literal. *)
Definition template (o : option jsstring) : jsstring :=
  match o with
  | Some s => s
  | None => lit "undefined"
  end.

End Js.
Import Js.

(* ===================================================================== *)
(** ** Regular expressions and [String.prototype.replace] *)
(* ===================================================================== *)

Module Regex.

(** The fragment used by the plugin: a sequence of single-character
    tests, each possibly under a greedy star. *)
Inductive atom :=
| Chr (p : jschar -> bool)
| Star (p : jschar -> bool).

Definition regex := list atom.

Definition literal (s : jsstring) : regex := List.map (fun c => Chr (jschar_eqb c)) s.

(** Backtracking matcher: the length of the match of [r] at the start
    of the string, a starred atom trying the longest repetition first. *)
Fixpoint matchLen (r : regex) : jsstring -> option nat :=
  match r with
  | [] => fun _ => Some O
  | Chr p :: r' => fun s =>
      match s with
      | c :: s' => if p c then S <$> matchLen r' s' else None
      | [] => None
      end
  | Star p :: r' =>
      fix star (s : jsstring) : option nat :=
        match s with
        | c :: s' =>
            if p c then
              match star s' with
              | Some n => Some (S n)
              | None => matchLen r' s
              end
            else matchLen r' s
        | [] => matchLen r' []
        end
  end.

(** [s.replace(/r/g, repl)] for a replacement text without [$]: scans
    from the left; at a match emits [repl] and resumes after the match
    (one code unit further when the match is empty); [skip] counts the
    code units of the current match still to be passed over. *)
Fixpoint replace_go (r : regex) (repl : jsstring) (skip : nat) (s : jsstring) : jsstring :=
  match s with
  | [] =>
      match skip with
      | O => match matchLen r [] with Some _ => repl | None => [] end
      | S _ => []
      end
  | c :: s' =>
      match skip with
      | S k => replace_go r repl k s'
      | O =>
          match matchLen r s with
          | Some (S k) => repl ++ replace_go r repl k s'
          | Some O => repl ++ c :: replace_go r repl O s'
          | None => c :: replace_go r repl O s'
          end
      end
  end.

Definition replace_global (r : regex) (repl : jsstring) (s : jsstring) : jsstring :=
  replace_go r repl O s.

(** [\s] *)
Definition is_space (c : jschar) : bool :=
  ((9 <=? c) && (c <=? 13)) || (c =? 32) || (c =? 0xA0) || (c =? 0x1680)
  || ((0x2000 <=? c) && (c <=? 0x200A)) || (c =? 0x2028) || (c =? 0x2029)
  || (c =? 0x202F) || (c =? 0x205F) || (c =? 0x3000) || (c =? 0xFEFF).

(** The leftmost match of [r] in [s]: where it starts and its length. *)
Fixpoint search (r : regex) (s : jsstring) : option (nat * nat) :=
  match matchLen r s with
  | Some n => Some (O, n)
  | None =>
      match s with
      | [] => None
      | _ :: s' => (fun '(i, n) => (S i, n)) <$> search r s'
      end
  end.

(** [r] matches somewhere in [s]. *)
Definition matches (r : regex) (s : jsstring) : bool :=
  match search r s with
  | Some _ => true
  | None => false
  end.

(** A [RegExp] object: its pattern, the [g] and [y] flags, and
    [lastIndex], which [test] reads and writes under either flag. *)
Record RegExp := mkRegExp {
  source : regex;
  global : bool;
  sticky : bool;
  lastIndex : nat
}.

Definition set_lastIndex (n : nat) (re : RegExp) : RegExp :=
  mkRegExp (source re) (global re) (sticky re) n.

(** [re.test(s)].  Without the [g] and [y] flags the search starts at
    the beginning of [s] and [lastIndex] is left alone.  Under a flag it
    starts at [lastIndex] (under [y] the match has to start there); a
    match moves [lastIndex] to its end, a failure resets it to 0. *)
Definition test (re : RegExp) (s : jsstring) : bool * RegExp :=
  if global re || sticky re then
    if Nat.ltb (List.length s) (lastIndex re) then (false, set_lastIndex 0 re)
    else
      let rest := List.skipn (lastIndex re) s in
      let found := if sticky re then (fun n => (O, n)) <$> matchLen (source re) rest
                   else search (source re) rest in
      match found with
      | Some (i, n) => (true, set_lastIndex (lastIndex re + i + n) re)
      | None => (false, set_lastIndex 0 re)
      end
  else (matches (source re) s, re).

(** [regExps.some((re) => re.test(key))]: the patterns are tested in
    order up to the first that matches; the array holds distinct
    objects. *)
Fixpoint some_test (regExps : list RegExp) (key : jsstring) : bool * list RegExp :=
  match regExps with
  | [] => (false, [])
  | re :: rest =>
      let '(found, re') := test re key in
      if found then (true, re' :: rest)
      else let '(found', rest') := some_test rest key in (found', re' :: rest')
  end.

(** [keys.filter((key) => regExps.some((re) => re.test(key)))] *)
Fixpoint filter_some_test (regExps : list RegExp) (keys : list jsstring) : list jsstring :=
  match keys with
  | [] => []
  | key :: keys' =>
      let '(found, regExps') := some_test regExps key in
      if found then key :: filter_some_test regExps' keys'
      else filter_some_test regExps' keys'
  end.

Definition is_quote (c : jschar) : bool := c =? 34.
Definition not_quote (c : jschar) : bool := negb (c =? 34).

End Regex.

(* ===================================================================== *)
(** ** [server/src/utils/key.ts] *)
(* ===================================================================== *)

Module Key.

(** [context.request] *)
Record Request := mkRequest {
  method : jsstring;
  url : jsstring;
  query : jsobj;
  headers : jsobj
}.

Record Context := mkContext { request : Request }.

Definition queryString (context : Context) : jsstring :=
  let query := query (request context) in
  if Nat.ltb 0 (List.length (obj_keys query))
  then template (JSON_stringify (JObj query)) else [].

Definition relevantHeaders (context : Context) : jsobj :=
  let headers := headers (request context) in
  obj_of_insertions
    [ (lit "accept-language", obj_get headers (lit "accept-language"));
      (lit "accept", obj_get headers (lit "accept"));
      (lit "user-agent", obj_get headers (lit "user-agent")) ].

Definition headersString (context : Context) : jsstring :=
  template (JSON_stringify (JObj (relevantHeaders context))).

Definition keyData (context : Context) : jsstring :=
  method (request context) ++ lit ":" ++ url (request context) ++ lit ":"
    ++ queryString context ++ lit ":" ++ headersString context.

Definition generateCacheKey (context : Context) : jsstring :=
  let hash := Sha256.sha256_base64url (keyData context) in
  lit "cache:" ++ hash.

(** The pattern of [generateGraphqlCacheKey]: the text [password] between
    double quotes, a colon, [\s*], a double quote, any run of characters
    other than the double quote, a double quote. *)
Definition password_re : Regex.regex :=
  Regex.literal ([34] ++ lit "password" ++ [34] ++ lit ":")
    ++ [ Regex.Star Regex.is_space; Regex.Chr Regex.is_quote;
         Regex.Star Regex.not_quote; Regex.Chr Regex.is_quote ].

(** The replacement text: [password] between double quotes, a colon and
    three asterisks between double quotes. *)
Definition password_mask : jsstring :=
  [34] ++ lit "password" ++ [34] ++ lit ":" ++ [34] ++ lit "***" ++ [34].

Definition sanitize (payload : jsstring) : jsstring :=
  Regex.replace_global password_re password_mask payload.

Definition generateGraphqlCacheKey (payload : jsstring) : jsstring :=
  let sanitizedPayload := sanitize payload in
  let hash := Sha256.sha256_base64url sanitizedPayload in
  lit "graphql:" ++ hash.

End Key.

(* ===================================================================== *)
(** ** Effects: outcomes of promises, the log, deadlines *)
(* ===================================================================== *)

Module Effects.

(** An [Error] object: its name and its message. *)
Record jserror := JsError { err_name : jsstring; err_message : jsstring }.

Definition Error (msg : jsstring) : jserror := JsError (lit "Error") msg.
Definition TypeError (msg : jsstring) : jserror := JsError (lit "TypeError") msg.

(** An error interpolated in a template literal. *)
Definition error_to_string (e : jserror) : jsstring :=
  match err_name e, err_message e with
  | n, [] => n
  | [], m => m
  | n, m => n ++ lit ": " ++ m
  end.

(** [error?.message || error], interpolated. *)
Definition error_message_or_self (e : jserror) : jsstring :=
  match err_message e with
  | [] => error_to_string e
  | m => m
  end.

Inductive Outcome (A : Type) :=
| Ok (a : A)
| Throw (e : jserror).
Arguments Ok {A} a.
Arguments Throw {A} e.

Inductive level := Info | Warn | Err.
Definition logline := (level * jsstring)%type.

(** A computation over a world [W] that returns or throws. *)
Definition Eff (W A : Type) := W -> Outcome A * W.

Definition ret {W A} (a : A) : Eff W A := fun w => (Ok a, w).
Definition throw {W A} (e : jserror) : Eff W A := fun w => (Throw e, w).
Definition bind {W A B} (m : Eff W A) (k : A -> Eff W B) : Eff W B :=
  fun w => match m w with
           | (Ok a, w') => k a w'
           | (Throw e, w') => (Throw e, w')
           end.
(** [try { m } catch (error) { h error }] *)
Definition try_catch {W A} (m : Eff W A) (h : jserror -> Eff W A) : Eff W A :=
  fun w => match m w with
           | (Ok a, w') => (Ok a, w')
           | (Throw e, w') => h e w'
           end.
Definition gets {W A} (f : W -> A) : Eff W A := fun w => (Ok (f w), w).
Definition modify {W} (f : W -> W) : Eff W unit := fun w => (Ok tt, f w).
Definition lift_outcome {W A} (o : Outcome A) : Eff W A := fun w => (o, w).

(** The completion of an asynchronous read: after [ms] milliseconds with
    an outcome, or never. *)
Inductive Timed (A : Type) :=
| Completes (ms : Z) (r : Outcome A)
| Hangs.
Arguments Completes {A} ms r.
Arguments Hangs {A}.

Definition timeoutError : jserror := Error (lit "Operation timed out").

(** Modelled from the spec: [utils/withTimeout] (section 4.2, TimeoutGuard)
    is not among the sources.  A read that completes before the deadline
    [d] yields its outcome; otherwise the guard rejects with a timeout
    error, which callers treat as a miss. *)
Definition withTimeout {A} (t : Timed A) (d : Z) : Outcome A :=
  match t with
  | Completes ms r => if (ms <? d)%Z then r else Throw timeoutError
  | Hangs => Throw timeoutError
  end.

End Effects.
Import Effects.

(** Sequencing is written with the monad notations of stdpp:
    [x ← m; k] and [m;; k]. *)
#[global] Instance eff_ret {W} : MRet (Eff W) := fun A a => ret a.
#[global] Instance eff_bind {W} : MBind (Eff W) := fun A B k m => bind m k.

(* ===================================================================== *)
(** ** The cache provider interface ([types/cache.types]) *)
(* ===================================================================== *)

Module Provider.

(** A provider object together with the plugin's log. *)
Record Store (P : Type) := mkStore { this : P; log : list logline }.
Arguments mkStore {P} this log.
Arguments this {P} s.
Arguments log {P} s.

Definition loggy {P} (l : level) (msg : jsstring) : Eff (Store P) unit :=
  modify (fun st => mkStore (this st) (log st ++ [(l, msg)])).

Definition set_this {P} (p : P) : Eff (Store P) unit :=
  modify (fun st => mkStore p (log st)).

(** What [set], [del] and [reset] resolve with. *)
Inductive reply :=
| RNull
| RBool (b : bool)
| RValue (v : jsval)
| RCache (* the LRUCache instance, returned by its own [set] *).

(** [!key || typeof key !== 'string'] *)
Definition invalid_key (key : jsval) : bool :=
  negb (truthy key) || negb (jstype_eqb (typeof key) TString).

(** The text of a key that passed the check. *)
Definition key_text (key : jsval) : jsstring :=
  match key with
  | JStr s => s
  | _ => []
  end.

(** The configuration of the plugin as [strapi.plugin('strapi-cache').config]
    reports it: a number or a boolean where one is set, [None] where the
    option is undefined. *)
Record PluginConfig := mkConfig {
  cfg_max : option Z;
  cfg_ttl : option Z;
  cfg_size : option Z;
  cfg_allowStale : option bool;
  cfg_cacheGetTimeoutInMs : option Z;
  cfg_redisConfig : jsval;
  cfg_redisClusterNodes : list jsval;
  cfg_redisClusterOptions : option jsobj
}.

(** [Number(v) || d]: [Number(undefined)] is NaN, and NaN and 0 are falsy. *)
Definition Number_or (v : option Z) (d : Z) : Z :=
  match v with
  | Some z => if (z =? 0)%Z then d else z
  | None => d
  end.

Class CacheProvider (P : Type) := {
  cp_init : Eff (Store P) unit;
  cp_ready : P -> bool;
  cp_get : jsval -> Eff (Store P) jsval;
  cp_set : jsval -> jsval -> Eff (Store P) reply;
  cp_del : jsval -> Eff (Store P) reply;
  cp_keys : Eff (Store P) (option (list jsstring));
  cp_reset : Eff (Store P) reply;
  cp_clearByRegexp : list Regex.RegExp -> Eff (Store P) unit
}.

End Provider.
Import Provider.

(* ===================================================================== *)
(** ** [server/src/services/memory/provider.ts] *)
(* ===================================================================== *)

Module Memory.

(** The options handed to [new LRUCache]. *)
Record LRUOptions := mkLRUOptions {
  opt_max : Z;
  opt_ttl : Z;
  opt_size : Z;
  opt_allowStale : bool;
  opt_updateAgeOnGet : bool;
  opt_noDisposeOnSet : bool
}.

(** The operations of the [lru-cache] package the provider calls, on a
    cache state [S].  [lru_get] yields [JUndefined] on a miss and may
    reorder the cache; every call may throw. *)
Class LRUCache (S : Type) := {
  lru_new : LRUOptions -> Outcome S;
  lru_get : jsstring -> S -> Outcome jsval * S;
  lru_set : jsstring -> jsval -> S -> Outcome unit * S;
  lru_delete : jsstring -> S -> Outcome bool * S;
  lru_keys : S -> Outcome (list jsstring) * S
}.

Section InMemory.
Context {S : Type} `{LRUCache S}.

Record InMemoryCacheProvider := mkMemory {
  strapi : PluginConfig;
  initialized : bool;
  provider : option S;
  cacheGetTimeoutInMs : option Z
}.

(** [new InMemoryCacheProvider(strapi)] *)
Definition new (strapi : PluginConfig) : InMemoryCacheProvider :=
  mkMemory strapi false None None.

Definition M := Eff (Store InMemoryCacheProvider).

(** A method of the LRU cache applied to [this.provider]. *)
Definition on_provider {A} (f : S -> Outcome A * S) : M A :=
  fun st =>
    match provider (this st) with
    | Some c =>
        let '(r, c') := f c in
        (r, mkStore (mkMemory (strapi (this st)) (initialized (this st)) (Some c')
                              (cacheGetTimeoutInMs (this st)))
                    (log st))
    | None => (Throw (TypeError (lit "Cannot read properties of undefined")), st)
    end.

Definition init : M unit :=
  this_ ← gets this;
  if initialized this_ then
    loggy Err (lit "Provider already initialized")
  else
    try_catch
      (let max := Number_or (cfg_max (strapi this_)) 1000 in
       let ttl := Number_or (cfg_ttl (strapi this_)) (1000 * 60 * 60) in
       let size := Number_or (cfg_size (strapi this_)) (1024 * 1024 * 10) in
       let allowStale := default false (cfg_allowStale (strapi this_)) || false in
       if (max <=? 0)%Z then throw (Error (lit "max must be greater than 0"))
       else if (ttl <? 0)%Z then throw (Error (lit "ttl must be non-negative"))
       else if (size <=? 0)%Z then throw (Error (lit "size must be greater than 0"))
       else
         c ← lift_outcome (lru_new (mkLRUOptions max ttl size allowStale true true));
         set_this (mkMemory (strapi this_) (initialized this_) (Some c)
                            (cacheGetTimeoutInMs this_));;
         let t := Number_or (cfg_cacheGetTimeoutInMs (strapi this_)) 1000 in
         let t := if (t <=? 0)%Z then 1000%Z else t in
         set_this (mkMemory (strapi this_) true (Some c) (Some t));;
         loggy Info (lit "Provider initialized"))
      (fun error =>
         loggy Err (lit "Failed to initialize provider: " ++ error_to_string error);;
         throw error).

(** [get ready()] *)
Definition ready (p : InMemoryCacheProvider) : bool :=
  initialized p && match provider p with Some _ => true | None => false end.

Definition get (key : jsval) : M jsval :=
  this_ ← gets this;
  if negb (ready this_) then
    loggy Warn (lit "Provider not ready for get operation");; ret JNull
  else if invalid_key key then
    loggy Warn (lit "Invalid key provided for get operation");; ret JNull
  else
    (* the promise passed to withTimeout resolves at once *)
    result ← try_catch (on_provider (lru_get (key_text key)))
                (fun error =>
                   loggy Err (lit "Error during provider get: " ++ error_to_string error);;
                   ret JNull);
    d ← gets (fun st => default 0%Z (cacheGetTimeoutInMs (this st)));
    try_catch (lift_outcome (withTimeout (Completes 0 (Ok result)) d))
      (fun error =>
         loggy Err (lit "Error during get: " ++ error_message_or_self error);;
         ret JNull).

Definition set (key : jsval) (val : jsval) : M reply :=
  this_ ← gets this;
  if negb (ready this_) then
    loggy Warn (lit "Provider not ready for set operation");; ret RNull
  else if invalid_key key then
    loggy Warn (lit "Invalid key provided for set operation");; ret RNull
  else
    try_catch (on_provider (lru_set (key_text key) val);; ret RCache)
      (fun error =>
         loggy Err (lit "Error during set: " ++ error_to_string error);;
         ret RNull).

Definition del (key : jsval) : M reply :=
  this_ ← gets this;
  if negb (ready this_) then
    loggy Warn (lit "Provider not ready for delete operation");; ret RNull
  else if invalid_key key then
    loggy Warn (lit "Invalid key provided for delete operation");; ret RNull
  else
    try_catch
      (loggy Info (lit "PURGING KEY: " ++ key_text key);;
       b ← on_provider (lru_delete (key_text key));
       ret (RBool b))
      (fun error =>
         loggy Err (lit "Error during delete: " ++ error_to_string error);;
         ret RNull).

Definition keys : M (option (list jsstring)) :=
  this_ ← gets this;
  if negb (ready this_) then
    loggy Warn (lit "Provider not ready for keys operation");; ret None
  else
    try_catch (ks ← on_provider lru_keys; ret (Some ks))
      (fun error =>
         loggy Err (lit "Error fetching keys: " ++ error_to_string error);;
         ret None).

(** [Promise.all(ks.map((key) => this.del(key)))]: the calls run in order. *)
Fixpoint del_all (ks : list jsstring) : M unit :=
  match ks with
  | [] => ret tt
  | k :: ks' => del (JStr k);; del_all ks'
  end.

Definition reset : M reply :=
  this_ ← gets this;
  if negb (ready this_) then
    loggy Warn (lit "Provider not ready for reset operation");; ret RNull
  else
    try_catch
      (allKeys ← keys;
       match allKeys with
       | None => ret RNull
       | Some ks =>
           loggy Info (lit "PURGING ALL KEYS: "
                         ++ number_to_string (Z.of_nat (List.length ks)));;
           del_all ks;;
           ret (RBool true)
       end)
      (fun error =>
         loggy Err (lit "Error during reset: " ++ error_to_string error);;
         ret RNull).

Definition clearByRegexp (regExps : list Regex.RegExp) : M unit :=
  this_ ← gets this;
  if negb (ready this_) then
    loggy Warn (lit "Provider not ready for clearByRegexp operation")
  else
    try_catch
      (ks ← keys;
       let keys_ := default [] ks in
       let matches := Regex.filter_some_test regExps keys_ in
       del_all matches;;
       loggy Info (lit "Cleared " ++ number_to_string (Z.of_nat (List.length matches))
                     ++ lit " keys matching regex patterns"))
      (fun error =>
         loggy Err (lit "Error during clearByRegexp: " ++ error_to_string error)).

#[export] Instance memory_provider : CacheProvider InMemoryCacheProvider := {
  cp_init := init;
  cp_ready := ready;
  cp_get := get;
  cp_set := set;
  cp_del := del;
  cp_keys := keys;
  cp_reset := reset;
  cp_clearByRegexp := clearByRegexp
}.

End InMemory.
Arguments InMemoryCacheProvider S : clear implicits.

End Memory.

(* ===================================================================== *)
(** ** [server/src/services/redis/provider.ts] *)
(* ===================================================================== *)

Module Redis.

(** What the client is constructed from: [new Redis(redisConfig)] or
    [new Redis.Cluster(nodes, options)]. *)
Inductive RedisTarget :=
| Single (redisConfig : jsval)
| Cluster (nodes : list jsval) (options : jsobj).

(** The commands of the [ioredis] client the provider issues, on a client
    state [R]; a missing key reads as [None], a value that serialized to
    [undefined] is passed as [None]. *)
Class RedisClient (R : Type) := {
  redis_new : RedisTarget -> Outcome R;
  redis_get : jsstring -> R -> Timed (option jsstring) * R;
  redis_set : jsstring -> option jsstring -> option Z -> R -> Outcome unit * R;
  redis_del : jsstring -> R -> Outcome unit * R;
  redis_keys : jsstring -> R -> Outcome (list jsstring) * R;
  redis_flushdb : R -> Outcome unit * R
}.

Section RedisProvider.
Context {R : Type} `{RedisClient R}.
(** [JSON.parse], which throws on malformed text. *)
Context (JSON_parse : jsstring -> Outcome jsval).

Record RedisCacheProvider := mkRedis {
  strapi : PluginConfig;
  initialized : bool;
  client : option R;
  cacheGetTimeoutInMs : option Z
}.

Definition new (strapi : PluginConfig) : RedisCacheProvider :=
  mkRedis strapi false None None.

Definition M := Eff (Store RedisCacheProvider).

Definition with_client (p : RedisCacheProvider) (c : R) : RedisCacheProvider :=
  mkRedis (strapi p) (initialized p) (Some c) (cacheGetTimeoutInMs p).

(** A command sent through [this.client]. *)
Definition on_client {A} (f : R -> Outcome A * R) : M A :=
  fun st =>
    match client (this st) with
    | Some c =>
        let '(r, c') := f c in (r, mkStore (with_client (this st) c') (log st))
    | None => (Throw (TypeError (lit "Cannot read properties of undefined")), st)
    end.

(** A read sent through [this.client], bounded by the deadline [d]. *)
Definition on_client_timed {A} (f : R -> Timed A * R) (d : Z) : M A :=
  on_client (fun c => let '(t, c') := f c in (withTimeout t d, c')).

Definition init : M unit :=
  this_ ← gets this;
  if initialized this_ then
    loggy Err (lit "Redis provider already initialized")
  else
    try_catch
      (let redisConfig :=
         if truthy (cfg_redisConfig (strapi this_)) then cfg_redisConfig (strapi this_)
         else JStr (lit "redis://localhost:6379") in
       let redisClusterNodes := cfg_redisClusterNodes (strapi this_) in
       let t := Number_or (cfg_cacheGetTimeoutInMs (strapi this_)) 1000 in
       let t := if (t <=? 0)%Z then 1000%Z else t in
       set_this (mkRedis (strapi this_) (initialized this_) (client this_) (Some t));;
       c ← lift_outcome
             (if Nat.ltb 0 (List.length redisClusterNodes) then
                let redisClusterOptions := default [] (cfg_redisClusterOptions (strapi this_)) in
                let redisClusterOptions :=
                  if negb (truthy (obj_get redisClusterOptions (lit "redisOptions")))
                  then obj_set (lit "redisOptions") redisConfig redisClusterOptions
                  else redisClusterOptions in
                redis_new (Cluster redisClusterNodes redisClusterOptions)
              else redis_new (Single redisConfig));
       (* the error, connect and ready handlers only write to the log
          when the connection signals them *)
       set_this (mkRedis (strapi this_) true (Some c) (Some t));;
       loggy Info (lit "Redis provider initialized"))
      (fun error =>
         loggy Err (lit "Failed to initialize Redis provider: " ++ error_to_string error);;
         throw error).

Definition ready (p : RedisCacheProvider) : bool :=
  initialized p && match client p with Some _ => true | None => false end.

Definition get (key : jsval) : M jsval :=
  this_ ← gets this;
  if negb (ready this_) then
    loggy Warn (lit "Redis provider not ready for get operation");; ret JNull
  else if invalid_key key then
    loggy Warn (lit "Invalid key provided for Redis get operation");; ret JNull
  else
    try_catch
      (data ← on_client_timed (redis_get (key_text key))
                (default 0%Z (cacheGetTimeoutInMs this_));
       match data with
       | None | Some [] => ret JNull
       | Some text =>
           try_catch (lift_outcome (JSON_parse text))
             (fun error =>
                loggy Err (lit "Failed to parse Redis data: " ++ error_to_string error);;
                ret JNull)
       end)
      (fun error =>
         loggy Err (lit "Redis get error: " ++ error_message_or_self error);;
         ret JNull).

Definition set (key : jsval) (val : jsval) : M reply :=
  this_ ← gets this;
  if negb (ready this_) then
    loggy Warn (lit "Redis provider not ready for set operation");; ret RNull
  else if invalid_key key then
    loggy Warn (lit "Invalid key provided for Redis set operation");; ret RNull
  else
    try_catch
      ((* plugin ttl is ms, ioredis ttl is s *)
       let ttlInMs := Number_or (cfg_ttl (strapi this_)) (1000 * 60 * 60) in
       let ttlInS := Z.max 0 (ttlInMs / 1000) in
       (* JSON.stringify does not throw on the values of [jsval] *)
       let serialized := JSON_stringify val in
       (if (0 <? ttlInS)%Z
        then on_client (redis_set (key_text key) serialized (Some ttlInS))
        else on_client (redis_set (key_text key) serialized None));;
       ret (RValue val))
      (fun error =>
         loggy Err (lit "Redis set error: " ++ error_to_string error);;
         ret RNull).

Definition del (key : jsval) : M reply :=
  this_ ← gets this;
  if negb (ready this_) then
    loggy Warn (lit "Redis provider not ready for delete operation");; ret RNull
  else if invalid_key key then
    loggy Warn (lit "Invalid key provided for Redis delete operation");; ret RNull
  else
    try_catch
      (loggy Info (lit "Redis PURGING KEY: " ++ key_text key);;
       on_client (redis_del (key_text key));;
       ret (RBool true))
      (fun error =>
         loggy Err (lit "Redis del error: " ++ error_to_string error);;
         ret RNull).

Definition keys : M (option (list jsstring)) :=
  this_ ← gets this;
  if negb (ready this_) then
    loggy Warn (lit "Redis provider not ready for keys operation");; ret None
  else
    try_catch (ks ← on_client (redis_keys (lit "*")); ret (Some ks))
      (fun error =>
         loggy Err (lit "Redis keys error: " ++ error_to_string error);;
         ret None).

Definition reset : M reply :=
  this_ ← gets this;
  if negb (ready this_) then
    loggy Warn (lit "Redis provider not ready for reset operation");; ret RNull
  else
    try_catch
      (loggy Info (lit "Redis FLUSHING ALL KEYS");;
       on_client redis_flushdb;;
       ret (RBool true))
      (fun error =>
         loggy Err (lit "Redis reset error: " ++ error_to_string error);;
         ret RNull).

(** [for (const key of toDelete) await this.del(key)] *)
Fixpoint del_each (ks : list jsstring) : M unit :=
  match ks with
  | [] => ret tt
  | k :: ks' => del (JStr k);; del_each ks'
  end.

Definition clearByRegexp (regExps : list Regex.RegExp) : M unit :=
  this_ ← gets this;
  if negb (ready this_) then
    loggy Warn (lit "Redis provider not ready for clearByRegexp operation")
  else
    try_catch
      (ks ← keys;
       match ks with
       | None => ret tt
       | Some keys_ =>
           let toDelete := Regex.filter_some_test regExps keys_ in
           del_each toDelete;;
           loggy Info (lit "Cleared " ++ number_to_string (Z.of_nat (List.length toDelete))
                         ++ lit " Redis keys matching regex patterns")
       end)
      (fun error =>
         loggy Err (lit "Error during Redis clearByRegexp: " ++ error_to_string error)).

#[export] Instance redis_provider : CacheProvider RedisCacheProvider := {
  cp_init := init;
  cp_ready := ready;
  cp_get := get;
  cp_set := set;
  cp_del := del;
  cp_keys := keys;
  cp_reset := reset;
  cp_clearByRegexp := clearByRegexp
}.

End RedisProvider.
Arguments RedisCacheProvider R : clear implicits.

End Redis.

(* ===================================================================== *)
(** ** [server/src/middlewares/graphql.ts] *)
(* ===================================================================== *)

Module Graphql.

(** A readable stream: the chunks it will deliver. *)
Definition Stream := list (list N).

(** [ctx.req]: the incoming message. *)
Record RawRequest := mkRaw {
  raw_headers : jsobj;
  raw_method : jsstring;
  raw_url : jsstring;
  raw_httpVersion : jsstring;
  raw_socket : jsval;
  raw_connection : jsval;
  raw_stream : Stream
}.

Record KoaRequest := mkKoaRequest {
  request_url : jsstring;
  request_headers : jsobj;
  request_req : RawRequest
}.

(** A response body is a materialized value or a stream. *)
Inductive Body :=
| Materialized (v : jsval)
| Streamed (s : Stream).

(** The context, typed [any] in the source and a Koa context when the
    middleware runs: property reads and writes are reads and writes of
    the fields of this record, but for the body, whose setter [set_body]
    also moves the status. *)
Record Ctx := mkCtx {
  ctx_req : RawRequest;
  ctx_request : KoaRequest;
  ctx_method : jsstring;
  ctx_status : Z;
  ctx_body : Body;
  ctx_response_headers : jsobj
}.

Definition set_req (r : RawRequest) (c : Ctx) : Ctx :=
  mkCtx r (mkKoaRequest (request_url (ctx_request c)) (request_headers (ctx_request c)) r)
        (ctx_method c) (ctx_status c) (ctx_body c) (ctx_response_headers c).
Definition set_status (n : Z) (c : Ctx) : Ctx :=
  mkCtx (ctx_req c) (ctx_request c) (ctx_method c) n (ctx_body c) (ctx_response_headers c).
(** [v == null] *)
Definition nullish (v : jsval) : bool :=
  match v with
  | JNull | JUndefined => true
  | _ => false
  end.

(** The statuses of a response without a body. *)
Definition empty_status (n : Z) : bool := (n =? 204)%Z || (n =? 205)%Z || (n =? 304)%Z.

(** [ctx.body = b], the setter of the Koa response as far as the body
    and the status go: a null or undefined body makes the response one
    without content, with status 204 unless its status is that of such a
    response already; any other body leaves a status that has been
    assigned. *)
Definition set_body (b : Body) (c : Ctx) : Ctx :=
  let no_content :=
    match b with
    | Materialized v => nullish v && negb (empty_status (ctx_status c))
    | Streamed _ => false
    end in
  mkCtx (ctx_req c) (ctx_request c) (ctx_method c)
        (if no_content then 204%Z else ctx_status c) b (ctx_response_headers c).

(** [ctx.set(obj)]: every property of [obj] becomes a response header. *)
Definition ctx_set (headers : jsval) (c : Ctx) : Ctx :=
  match headers with
  | JObj props =>
      mkCtx (ctx_req c) (ctx_request c) (ctx_method c) (ctx_status c) (ctx_body c)
            (List.fold_left (fun h p => obj_set (fst p) (snd p) h) props
                            (ctx_response_headers c))
  | _ => c
  end.

(** [v.body], [v.headers] on a truthy value. *)
Definition prop_get (v : jsval) (k : jsstring) : jsval :=
  match v with
  | JObj props => obj_get props k
  | _ => JUndefined
  end.

(** [v.includes(needle)]: a string method and an array method; a call on
    any other truthy value is a type error. *)
Definition includes_method (v : jsval) (needle : jsstring) : Outcome bool :=
  match v with
  | JStr s => Ok (JsString.includes needle s)
  | JArr l =>
      Ok (List.existsb (fun x => match x with
                                 | JStr t => JsString.eqb t needle
                                 | _ => false
                                 end) l)
  | _ => Throw (TypeError (lit "cacheControlHeader.includes is not a function"))
  end.

(** What [getCacheHeaderConfig()] returns. *)
Record CacheHeaderConfig := mkHeaderConfig {
  cacheHeaders : bool;
  cacheHeadersDenyList : list jsstring;
  cacheHeadersAllowList : list jsstring;
  cacheAuthorizedRequests : bool
}.

Definition mem (k : jsstring) (l : list jsstring) : bool :=
  List.existsb (JsString.eqb k) l.

(** Modelled from the spec: [utils/header] is not among the sources.
    HeaderPolicy (section 4.6): no headers when header caching is
    disabled; otherwise every response header that is not denied when a
    deny-list is present, kept only if allowed when an allow-list is
    present. *)
Definition getHeadersToStore (c : Ctx) (cacheHeaders : bool)
    (allowList denyList : list jsstring) : jsobj :=
  if cacheHeaders then
    List.filter
      (fun p =>
         (match denyList with [] => true | _ => negb (mem (fst p) denyList) end)
         && (match allowList with [] => true | _ => mem (fst p) allowList end))
      (ctx_response_headers c)
  else [].

(** The functions of the host the middleware calls: [raw-body], the
    decoding of a buffer, and [utils/body]. *)
Class Host := {
  rawBody : RawRequest -> Outcome (list N);
  Buffer_toString : list N -> jsstring;
  streamToBuffer : Stream -> Outcome (list N);
  decompressBuffer : list N -> jsval -> Outcome (list N);
  decodeBufferToText : list N -> jsstring
}.

(** What the middleware was seen to call. *)
Inductive Event :=
| CacheGet (key : jsstring)
| CacheSet (key : jsstring) (entry : jsval)
| Next.

Record World (P : Type) := mkWorld {
  ctx : Ctx;
  cache : Store P;
  trace : list Event
}.
Arguments mkWorld {P} ctx cache trace.
Arguments ctx {P} w.
Arguments cache {P} w.
Arguments trace {P} w.

Section Middleware.
Context {P : Type} `{CacheProvider P} `{Host}.
(** The plugin configuration and the rest of the pipeline. *)
Context (config : CacheHeaderConfig) (next : Ctx -> Outcome unit * Ctx).

Definition MW := Eff (World P).

Definition emit (e : Event) : MW unit :=
  modify (fun w => mkWorld (ctx w) (cache w) (trace w ++ [e])).

(** A call into the cache service or the logger. *)
Definition in_cache {A} (m : Eff (Store P) A) : MW A :=
  fun w => let '(r, st) := m (cache w) in (r, mkWorld (ctx w) st (trace w)).

Definition update_ctx (f : Ctx -> Ctx) : MW unit :=
  modify (fun w => mkWorld (f (ctx w)) (cache w) (trace w)).

Definition run_next : MW unit :=
  fun w => let '(r, c) := next (ctx w) in (r, mkWorld c (cache w) (trace w)).

(** [await next()] *)
Definition call_next : MW unit := emit Next;; run_next.

Definition cacheStore_get (key : jsstring) : MW jsval :=
  emit (CacheGet key);; in_cache (cp_get (JStr key)).

Definition cacheStore_set (key : jsstring) (entry : jsval) : MW reply :=
  emit (CacheSet key entry);; in_cache (cp_set (JStr key) entry).

Definition entry_of (body : jsval) (headersToStore : jsobj) : jsval :=
  JObj (obj_of_insertions [ (lit "body", body); (lit "headers", JObj headersToStore) ]).

Definition middleware : MW unit :=
  let cacheHeaders := cacheHeaders config in
  let cacheHeadersDenyList := cacheHeadersDenyList config in
  let cacheHeadersAllowList := cacheHeadersAllowList config in
  let cacheAuthorizedRequests := cacheAuthorizedRequests config in
  url ← gets (fun w => request_url (ctx_request (ctx w)));
  originalReq ← gets (fun w => ctx_req (ctx w));
  bodyBuffer ← lift_outcome (rawBody originalReq);
  let body := Buffer_toString bodyBuffer in
  let clonedReq :=
    mkRaw (raw_headers originalReq) (raw_method originalReq) (raw_url originalReq)
          (raw_httpVersion originalReq) (raw_socket originalReq)
          (raw_connection originalReq) [bodyBuffer] in
  update_ctx (set_req clonedReq);;
  let isIntrospectionQuery := JsString.includes (lit "IntrospectionQuery") body in
  if isIntrospectionQuery then
    in_cache (loggy Info (lit "Skipping cache for introspection query"));;
    call_next
  else
    let key := Key.generateGraphqlCacheKey body in
    cacheEntry ← cacheStore_get key;
    cacheControlHeader ←
      gets (fun w => obj_get (request_headers (ctx_request (ctx w))) (lit "cache-control"));
    noCache ← (if truthy cacheControlHeader
               then lift_outcome (includes_method cacheControlHeader (lit "no-cache"))
               else ret false);
    authorizationHeader ←
      gets (fun w => obj_get (request_headers (ctx_request (ctx w))) (lit "authorization"));
    if truthy authorizationHeader && negb cacheAuthorizedRequests then
      in_cache (loggy Info (lit "Authorized request bypassing cache: " ++ key));;
      call_next
    else if truthy cacheEntry && negb noCache then
      in_cache (loggy Info (lit "HIT with key: " ++ key));;
      update_ctx (set_status 200);;
      update_ctx (set_body (Materialized (prop_get cacheEntry (lit "body"))));;
      (if cacheHeaders
       then update_ctx (ctx_set (prop_get cacheEntry (lit "headers")))
       else ret tt)
    else
      call_next;;
      c ← gets ctx;
      if JsString.eqb (ctx_method c) (lit "POST")
         && (200 <=? ctx_status c)%Z && (ctx_status c <? 300)%Z
         && JsString.startsWith (lit "/graphql") url
      then
        in_cache (loggy Info (lit "MISS with key: " ++ key));;
        let headers := request_headers (ctx_request c) in
        let authorizationHeader := obj_get headers (lit "authorization") in
        if truthy authorizationHeader && negb cacheAuthorizedRequests then
          in_cache (loggy Info (lit "Authorized request not caching: " ++ key))
        else
          let headersToStore :=
            getHeadersToStore c cacheHeaders cacheHeadersAllowList cacheHeadersDenyList in
          match ctx_body c with
          | Streamed stream =>
              buf ← lift_outcome (streamToBuffer stream);
              let contentEncoding := obj_get (ctx_response_headers c) (lit "content-encoding") in
              decompressed ← lift_outcome (decompressBuffer buf contentEncoding);
              let responseText := decodeBufferToText decompressed in
              cacheStore_set key (entry_of (JStr responseText) headersToStore);;
              update_ctx (set_body (Materialized (JBuffer buf)))
          | Materialized v =>
              cacheStore_set key (entry_of v headersToStore);;
              ret tt
          end
      else ret tt.

End Middleware.

End Graphql.

(* ===================================================================== *)
(** ** [test-cache-improvements.js]: validateConfig *)
(* ===================================================================== *)

Module TestScript.

(** A number: a finite one, [m] times 2 to the power [e], or one of
    the three values that are not finite. *)
Inductive jsnumber :=
| Finite (m e : Z)
| NaN
| PosInfinity
| NegInfinity.

(** What a property of the configuration object may hold.  A missing
    property reads as [Undefined]. *)
Inductive value :=
| Num (x : jsnumber)
| Str (s : jsstring)
| Undefined
| Null
| Bool (b : bool)
| Object (o : jsobj).

(** An integer. *)
Definition int (z : Z) : value := Num (Finite z 0).

(** [x <= 0] and [x < 0]: a comparison with [NaN] is false. *)
Definition le_zero (x : jsnumber) : bool :=
  match x with
  | Finite m _ => (m <=? 0)%Z
  | NegInfinity => true
  | NaN | PosInfinity => false
  end.

Definition lt_zero (x : jsnumber) : bool :=
  match x with
  | Finite m _ => (m <? 0)%Z
  | NegInfinity => true
  | NaN | PosInfinity => false
  end.

Record Config := mkConfig {
  max : value;
  ttl : value;
  size : value;
  provider : value
}.

(** [typeof v !== 'number' || v <= 0] *)
Definition not_positive_number (v : value) : bool :=
  match v with
  | Num x => le_zero x
  | _ => true
  end.

(** [typeof v !== 'number' || v < 0] *)
Definition not_nonnegative_number (v : value) : bool :=
  match v with
  | Num x => lt_zero x
  | _ => true
  end.

(** [typeof v !== 'string' || !['memory', 'redis'].includes(v)] *)
Definition not_a_provider (v : value) : bool :=
  match v with
  | Str s => negb (List.existsb (JsString.eqb s) [lit "memory"; lit "redis"])
  | _ => true
  end.

Definition validateConfig (config : Config) : list jsstring :=
  let errors := [] in
  let errors :=
    if not_positive_number (max config)
    then errors ++ [lit "max must be a positive number"] else errors in
  let errors :=
    if not_nonnegative_number (ttl config)
    then errors ++ [lit "ttl must be a non-negative number"] else errors in
  let errors :=
    if not_positive_number (size config)
    then errors ++ [lit "size must be a positive number"] else errors in
  let errors :=
    if not_a_provider (provider config)
    then errors ++ [lit "provider must be " ++ [34] ++ lit "memory" ++ [34] ++ lit " or "
                      ++ [34] ++ lit "redis" ++ [34]] else errors in
  errors.

(** [invalidConfig] of the test script. *)
Definition invalidConfig : Config :=
  mkConfig (int (-1)) (int (-1000)) (int 0) (Str (lit "invalid")).

(** [validConfig] of the test script. *)
Definition validConfig : Config :=
  mkConfig (int 1000) (int 3600000) (int 10485760) (Str (lit "memory")).

End TestScript.

(** *** [MockCacheProvider] of [testErrorHandling] *)

Module Mock.

(** [this.data] is a [Map]; the checks of the methods let only non-empty
    strings through as keys. *)
Record MockCacheProvider := mkMock {
  initialized : bool;
  data : gmap jsstring jsval
}.

(** [new MockCacheProvider()] *)
Definition new : MockCacheProvider := mkMock false ∅.

Definition M := Eff MockCacheProvider.

Definition init : M unit :=
  this_ ← gets id;
  if initialized this_ then throw (Error (lit "Provider already initialized"))
  else modify (fun p => mkMock true (data p)).

Definition get (key : jsval) : M jsval :=
  this_ ← gets id;
  if negb (initialized this_) then throw (Error (lit "Provider not initialized"))
  else if invalid_key key then throw (Error (lit "Invalid key"))
  else
    let found := default JUndefined (data this_ !! key_text key) in
    ret (if truthy found then found else JNull).

Definition set (key : jsval) (value : jsval) : M jsval :=
  this_ ← gets id;
  if negb (initialized this_) then throw (Error (lit "Provider not initialized"))
  else if invalid_key key then throw (Error (lit "Invalid key"))
  else
    modify (fun p => mkMock (initialized p) (<[key_text key := value]> (data p)));;
    ret value.

Definition del (key : jsval) : M bool :=
  this_ ← gets id;
  if negb (initialized this_) then throw (Error (lit "Provider not initialized"))
  else if invalid_key key then throw (Error (lit "Invalid key"))
  else
    let present := bool_decide (is_Some (data this_ !! key_text key)) in
    modify (fun p => mkMock (initialized p) (delete (key_text key) (data p)));;
    ret present.

End Mock.

(* ===================================================================== *)
(** ** Executable models of the external collaborators *)
(* ===================================================================== *)

(** The providers and the middleware above are parametric in the LRU
    cache, the Redis client, [JSON.parse] and the host functions.  The
    models below instantiate them so that whole runs can be evaluated.
    No clock is modelled: no entry expires during a run. *)
Module Models.

(** *** An LRU cache bounded by its entry count, most recent first *)

Record LruState := mkLru {
  lru_options : Memory.LRUOptions;
  lru_entries : list (jsstring * jsval)
}.

Definition lru_remove (k : jsstring) (l : list (jsstring * jsval)) : list (jsstring * jsval) :=
  List.filter (fun p => negb (JsString.eqb (fst p) k)) l.

Definition lru_find (k : jsstring) (l : list (jsstring * jsval)) : option jsval :=
  snd <$> List.find (fun p => JsString.eqb (fst p) k) l.

#[export] Instance list_lru : Memory.LRUCache LruState := {
  lru_new opts :=
    if (Memory.opt_max opts <=? 0)%Z
    then Throw (TypeError (lit "max must be a positive integer"))
    else Ok (mkLru opts []);
  lru_get k c :=
    match lru_find k (lru_entries c) with
    | Some v => (Ok v, mkLru (lru_options c) ((k, v) :: lru_remove k (lru_entries c)))
    | None => (Ok JUndefined, c)
    end;
  lru_set k v c :=
    match v with
    | JUndefined => (Ok tt, mkLru (lru_options c) (lru_remove k (lru_entries c)))
    | _ =>
        (Ok tt, mkLru (lru_options c)
                      (List.firstn (Z.to_nat (Memory.opt_max (lru_options c)))
                                   ((k, v) :: lru_remove k (lru_entries c))))
    end;
  lru_delete k c :=
    (Ok (Js.has_key k (lru_entries c)), mkLru (lru_options c) (lru_remove k (lru_entries c)));
  lru_keys c := (Ok (List.map fst (lru_entries c)), c)
}.

(** *** A Redis database *)

(** The keys of the database with their values and time to live in
    seconds, and the time the server takes to answer a read. *)
Record RedisState := mkRedisState {
  db : gmap (list N) (list N * option Z);
  latency : Z
}.

(** Glob patterns of the KEYS command: [*], [?] and literal characters. *)
Fixpoint glob (p : jsstring) : jsstring -> bool :=
  match p with
  | [] => fun s => match s with [] => true | _ => false end
  | c :: p' =>
      if c =? 42 then
        fix star (s : jsstring) : bool :=
          glob p' s || match s with [] => false | _ :: s' => star s' end
      else if c =? 63 then
        fun s => match s with [] => false | _ :: s' => glob p' s' end
      else
        fun s => match s with [] => false | d :: s' => (c =? d) && glob p' s' end
  end.

(** A client connected to the server [server]. *)
Definition map_redis (server : RedisState) : Redis.RedisClient RedisState := {|
  Redis.redis_new _ := Ok server;
  Redis.redis_get k r := (Completes (latency r) (Ok (fst <$> db r !! k)), r);
  Redis.redis_set k v ttl r :=
    (Ok tt, mkRedisState (<[k := (default [] v, ttl)]> (db r)) (latency r));
  Redis.redis_del k r := (Ok tt, mkRedisState (delete k (db r)) (latency r));
  Redis.redis_keys pat r := (Ok (List.filter (glob pat) (map_to_list (db r)).*1), r);
  Redis.redis_flushdb r := (Ok tt, mkRedisState ∅ (latency r))
|}.

(** *** [JSON.parse] on the values of [jsval] *)

Definition is_json_space (c : jschar) : bool :=
  (c =? 32) || (c =? 9) || (c =? 10) || (c =? 13).

Fixpoint skip_ws (s : jsstring) : jsstring :=
  match s with
  | c :: s' => if is_json_space c then skip_ws s' else s
  | [] => []
  end.

Definition expect (word : jsstring) (s : jsstring) : option jsstring :=
  if JsString.startsWith word s then Some (List.skipn (List.length word) s) else None.

Definition hex_value (c : jschar) : option N :=
  if (48 <=? c) && (c <=? 57) then Some (c - 48)
  else if (97 <=? c) && (c <=? 102) then Some (c - 87)
  else if (65 <=? c) && (c <=? 70) then Some (c - 55)
  else None.

(** The characters of a string literal after its opening quote. *)
Fixpoint parse_string (s : jsstring) : option (jsstring * jsstring) :=
  match s with
  | [] => None
  | c :: s' =>
      if c =? 34 then Some ([], s')
      else if c <? 32 then None
      else if c =? 92 then
        match s' with
        | e :: s'' =>
            let plain (x : jschar) :=
              match parse_string s'' with
              | Some (t, rest) => Some (x :: t, rest)
              | None => None
              end in
            if e =? 34 then plain 34
            else if e =? 92 then plain 92
            else if e =? 47 then plain 47
            else if e =? 98 then plain 8
            else if e =? 102 then plain 12
            else if e =? 110 then plain 10
            else if e =? 114 then plain 13
            else if e =? 116 then plain 9
            else if e =? 117 then
              match s'' with
              | h1 :: h2 :: h3 :: h4 :: s4 =>
                  match hex_value h1, hex_value h2, hex_value h3, hex_value h4 with
                  | Some a, Some b, Some c', Some d =>
                      match parse_string s4 with
                      | Some (t, rest) => Some ((4096 * a + 256 * b + 16 * c' + d) :: t, rest)
                      | None => None
                      end
                  | _, _, _, _ => None
                  end
              | _ => None
              end
            else None
        | [] => None
        end
      else
        match parse_string s' with
        | Some (t, rest) => Some (c :: t, rest)
        | None => None
        end
  end.

(** The digits at the start of [s] and what follows them. *)
Fixpoint span_digits (s : jsstring) : jsstring * jsstring :=
  match s with
  | c :: s' =>
      if Js.is_digit c then let '(ds, rest) := span_digits s' in (c :: ds, rest)
      else ([], s)
  | [] => ([], [])
  end.

(** An integer literal; a fraction or an exponent is outside the
    numbers of [jsval] and is rejected. *)
Definition parse_number (s : jsstring) : option (Z * jsstring) :=
  let '(neg, s1) := match s with
                    | c :: s' => if c =? 45 then (true, s') else (false, s)
                    | [] => (false, s)
                    end in
  let '(ds, rest) := match s1 with
                     | c :: s' => if c =? 48 then ([c], s') else span_digits s1
                     | [] => ([], [])
                     end in
  match ds, rest with
  | [], _ => None
  | _, c :: _ =>
      if (c =? 46) || (c =? 101) || (c =? 69) then None
      else Some (if neg then (- Z.of_N (Js.decimal_value ds))%Z
                 else Z.of_N (Js.decimal_value ds), rest)
  | _, [] => Some (if neg then (- Z.of_N (Js.decimal_value ds))%Z
                   else Z.of_N (Js.decimal_value ds), rest)
  end.

Fixpoint parse_value (fuel : nat) (s : jsstring) : option (jsval * jsstring) :=
  match fuel with
  | O => None
  | S fuel' =>
      match skip_ws s with
      | [] => None
      | c :: s' =>
          if c =? 110 then (fun r => (JNull, r)) <$> expect (lit "ull") s'
          else if c =? 116 then (fun r => (JBool true, r)) <$> expect (lit "rue") s'
          else if c =? 102 then (fun r => (JBool false, r)) <$> expect (lit "alse") s'
          else if c =? 34 then (fun '(t, r) => (JStr t, r)) <$> parse_string s'
          else if c =? 91 then
            match skip_ws s' with
            | d :: s'' =>
                if d =? 93 then Some (JArr [], s'')
                else (fun '(l, r) => (JArr l, r)) <$> parse_elements fuel' s'
            | [] => None
            end
          else if c =? 123 then
            match skip_ws s' with
            | d :: s'' =>
                if d =? 125 then Some (JObj [], s'')
                else (fun '(o, r) => (JObj o, r)) <$> parse_members fuel' [] s'
            | [] => None
            end
          else (fun '(z, r) => (JNum z, r)) <$> parse_number (c :: s')
      end
  end
with parse_elements (fuel : nat) (s : jsstring) : option (list jsval * jsstring) :=
  match fuel with
  | O => None
  | S fuel' =>
      match parse_value fuel' s with
      | Some (v, rest) =>
          match skip_ws rest with
          | d :: rest' =>
              if d =? 93 then Some ([v], rest')
              else if d =? 44 then
                (fun '(l, r) => (v :: l, r)) <$> parse_elements fuel' rest'
              else None
          | [] => None
          end
      | None => None
      end
  end
with parse_members (fuel : nat) (acc : jsobj) (s : jsstring) : option (jsobj * jsstring) :=
  match fuel with
  | O => None
  | S fuel' =>
      match skip_ws s with
      | q :: s1 =>
          if q =? 34 then
            match parse_string s1 with
            | Some (k, s2) =>
                match skip_ws s2 with
                | colon :: s3 =>
                    if colon =? 58 then
                      match parse_value fuel' s3 with
                      | Some (v, rest) =>
                          match skip_ws rest with
                          | d :: rest' =>
                              if d =? 125 then Some (obj_set k v acc, rest')
                              else if d =? 44 then parse_members fuel' (obj_set k v acc) rest'
                              else None
                          | [] => None
                          end
                      | None => None
                      end
                    else None
                | [] => None
                end
            | None => None
            end
          else None
      | [] => None
      end
  end.

Definition JSON_parse (text : jsstring) : Outcome jsval :=
  match parse_value (2 * List.length text + 2) text with
  | Some (v, rest) =>
      match skip_ws rest with
      | [] => Ok v
      | _ => Throw (JsError (lit "SyntaxError") (lit "Unexpected non-whitespace character"))
      end
  | None => Throw (JsError (lit "SyntaxError") (lit "Unexpected token"))
  end.

(** *** The host *)

Definition is_cont (b : N) : bool := (0x80 <=? b) && (b <=? 0xBF).

(** UTF-8 decoding: exact on well-formed input; a byte that starts no
    well-formed sequence becomes U+FFFD. *)
Fixpoint utf8_decode (bs : list N) : jsstring :=
  match bs with
  | [] => []
  | b :: bs' =>
      if b <? 0x80 then b :: utf8_decode bs'
      else
        match bs' with
        | c1 :: bs1 =>
            if (0xC2 <=? b) && (b <=? 0xDF) && is_cont c1 then
              (N.shiftl (N.land b 0x1F) 6 + N.land c1 0x3F) :: utf8_decode bs1
            else
              match bs1 with
              | c2 :: bs2 =>
                  if (0xE0 <=? b) && (b <=? 0xEF) && is_cont c1 && is_cont c2 then
                    (N.shiftl (N.land b 0x0F) 12 + N.shiftl (N.land c1 0x3F) 6
                     + N.land c2 0x3F) :: utf8_decode bs2
                  else
                    match bs2 with
                    | c3 :: bs3 =>
                        if (0xF0 <=? b) && (b <=? 0xF4)
                           && is_cont c1 && is_cont c2 && is_cont c3 then
                          let cp := N.shiftl (N.land b 0x07) 18
                                    + N.shiftl (N.land c1 0x3F) 12
                                    + N.shiftl (N.land c2 0x3F) 6 + N.land c3 0x3F in
                          (0xD800 + N.shiftr (cp - 0x10000) 10)
                            :: (0xDC00 + N.land (cp - 0x10000) 0x3FF) :: utf8_decode bs3
                        else 0xFFFD :: utf8_decode bs'
                    | [] => 0xFFFD :: utf8_decode bs'
                    end
              | [] => 0xFFFD :: utf8_decode bs'
              end
        | [] => [0xFFFD]
        end
  end.

(** A host that reads the whole request, decodes UTF-8 and serves
    uncompressed responses. *)
#[export] Instance host : Graphql.Host := {
  Graphql.rawBody r := Ok (List.concat (Graphql.raw_stream r));
  Graphql.Buffer_toString := utf8_decode;
  Graphql.streamToBuffer s := Ok (List.concat s);
  Graphql.decompressBuffer buf enc :=
    if truthy enc then Throw (Error (lit "unsupported content-encoding")) else Ok buf;
  Graphql.decodeBufferToText := utf8_decode
}.

End Models.

(* ===================================================================== *)
(** * Properties *)
(* ===================================================================== *)

(** ** The digest *)

Example sha256_of_empty :
  Sha256.sha256_base64url [] = lit "47DEQpj8HBSa-_TImW-5JCeuQeRkm5NMpJWZG3hSuFU".
Proof. vm_compute. reflexivity. Qed.

Example sha256_of_abc :
  Sha256.sha256_base64url (lit "abc") = lit "ungWv48Bz-pBQUDeXa4iI7ADYaOWF3qctBD_YfIAFa0".
Proof. vm_compute. reflexivity. Qed.

Example sha256_first_round_constant :
  List.nth 0 Sha256.K 0 = 0x428a2f98 /\ List.nth 63 Sha256.K 0 = 0xc67178f2
  /\ List.nth 0 Sha256.H0 0 = 0x6a09e667.
Proof. vm_compute. auto. Qed.

(** ** Strings and objects *)

Module StringFacts.

Lemma eqb_eq (s t : jsstring) : JsString.eqb s t = true <-> s = t.
Proof.
  revert t; induction s as [|a s IH]; intros [|b t]; simpl; split; intros E;
    try discriminate; try reflexivity.
  - apply andb_prop in E as [E1 E2].
    apply N.eqb_eq in E1. apply IH in E2. congruence.
  - injection E as -> ->. unfold jschar_eqb. rewrite N.eqb_refl; simpl.
    now apply IH.
Qed.

Lemma eqb_refl (s : jsstring) : JsString.eqb s s = true.
Proof. now apply eqb_eq. Qed.

Lemma eqb_neq (s t : jsstring) : JsString.eqb s t = false <-> s <> t.
Proof.
  split.
  - intros E ->. now rewrite eqb_refl in E.
  - intros E. destruct (JsString.eqb s t) eqn:B; [|reflexivity].
    now apply eqb_eq in B.
Qed.

End StringFacts.

(** ** The REST key *)

Module KeyFacts.
Import Key.

(** The three headers that enter the key. *)
Definition tracked : list jsstring :=
  [ lit "accept-language"; lit "accept"; lit "user-agent" ].

(** The headers object built by [generateCacheKey]. *)
Lemma relevantHeaders_eq (c : Context) :
  relevantHeaders c =
    [ (lit "accept-language", obj_get (headers (request c)) (lit "accept-language"));
      (lit "accept", obj_get (headers (request c)) (lit "accept"));
      (lit "user-agent", obj_get (headers (request c)) (lit "user-agent")) ].
Proof. reflexivity. Qed.

(** The key is a function of the method, the url, the query object as
    enumerated, and the three tracked headers. *)
Lemma key_determined (c1 c2 : Context) :
  method (request c1) = method (request c2) ->
  url (request c1) = url (request c2) ->
  query (request c1) = query (request c2) ->
  (forall name, In name tracked ->
     obj_get (headers (request c1)) name = obj_get (headers (request c2)) name) ->
  keyData c1 = keyData c2.
Proof.
  intros Hm Hu Hq Hh.
  unfold keyData, queryString, headersString.
  rewrite !relevantHeaders_eq, Hm, Hu, Hq.
  rewrite !(Hh _) by (unfold tracked; simpl; tauto).
  reflexivity.
Qed.

(** Two objects hold the same mapping: the same names are present, with
    the same values. *)
Definition same_mapping (q1 q2 : jsobj) : Prop :=
  forall k, has_key k q1 = has_key k q2 /\ obj_get q1 k = obj_get q2 k.

(** Objects have no repeated property name. *)
Definition well_formed (q : jsobj) : Prop := List.NoDup (obj_keys q).

Lemma has_key_In (k : jsstring) (q : jsobj) :
  has_key k q = true <-> In k (obj_keys q).
Proof.
  induction q as [|[k' v] q IH]; simpl; [split; [discriminate|tauto]|].
  rewrite orb_true_iff, IH, StringFacts.eqb_eq. tauto.
Qed.

Lemma get_absent (k : jsstring) (q : jsobj) :
  ~ In k (obj_keys q) -> obj_get q k = JUndefined /\ has_key k q = false.
Proof.
  induction q as [|[a b] q IH]; simpl; [tauto|].
  intros Hn. destruct (JsString.eqb a k) eqn:E.
  - apply StringFacts.eqb_eq in E. tauto.
  - simpl. apply IH. tauto.
Qed.

(** The same mapping enumerated in the same order is the same object. *)
Lemma same_enumeration (q1 q2 : jsobj) :
  well_formed q1 -> well_formed q2 ->
  obj_keys q1 = obj_keys q2 -> same_mapping q1 q2 -> q1 = q2.
Proof.
  unfold well_formed, same_mapping.
  revert q2; induction q1 as [|[k v] q1 IH]; intros [|[k' v'] q2]; simpl;
    intros W1 W2 Hk Hm; try discriminate; [reflexivity|].
  injection Hk as <- Hk.
  apply List.NoDup_cons_iff in W1 as [Hn1 W1], W2 as [Hn2 W2].
  destruct (Hm k) as [_ Hv]. rewrite StringFacts.eqb_refl in Hv. subst v'.
  f_equal. apply IH; trivial.
  intros j. destruct (Hm j) as [Hh Hg].
  destruct (JsString.eqb k j) eqn:E; [|now split].
  apply StringFacts.eqb_eq in E as <-.
  destruct (get_absent k q1 Hn1) as [-> ->], (get_absent k q2 Hn2) as [-> ->].
  now split.
Qed.

(** The members [JSON.stringify] writes for the properties of an
    object: a property whose value is [undefined] is left out. *)
Fixpoint members (ps : jsobj) : list jsstring :=
  match ps with
  | [] => []
  | (k, x) :: ps' =>
      match JSON_stringify x with
      | Some t => (quote k ++ lit ":" ++ t) :: members ps'
      | None => members ps'
      end
  end.

Lemma JSON_stringify_obj (ps : jsobj) :
  JSON_stringify (JObj ps) = Some (lit "{" ++ join (lit ",") (members ps) ++ lit "}").
Proof.
  reflexivity.
Qed.

(** The request of the test script, with the given query and headers. *)
Definition articles (q h : jsobj) : Context :=
  mkContext (mkRequest (lit "GET") (lit "/api/articles") q h).

Definition browser_headers (authorization : jsstring) : jsobj :=
  obj_of_insertions
    [ (lit "accept-language", JStr (lit "en-US,en;q=0.9"));
      (lit "accept", JStr (lit "application/json"));
      (lit "user-agent", JStr (lit "Mozilla/5.0 (Test Browser)"));
      (lit "authorization", JStr authorization) ].

Definition page_then_limit : jsobj :=
  obj_of_insertions [ (lit "page", JNum 1); (lit "limit", JNum 10) ].
Definition limit_then_page : jsobj :=
  obj_of_insertions [ (lit "limit", JNum 10); (lit "page", JNum 1) ].

(** The key the test script reports for its mock request. *)
Example key_of_mock_context :
  generateCacheKey (articles page_then_limit (browser_headers (lit "Bearer test-token")))
  = lit "cache:P3rxvEzSw4SKXAS5sx1JnsxVAuiOYchTLQK54JJcPxs".
Proof. vm_compute. reflexivity. Qed.

Example key_of_reordered_query :
  generateCacheKey (articles limit_then_page (browser_headers (lit "Bearer test-token")))
  = lit "cache:2dKkR0_85DUEn3FimtxmttNsSkquqP1zDwMMR3fdhiE".
Proof. vm_compute. reflexivity. Qed.

(** *** C3 *)

(** C3.  Two requests that agree on the method, the url, the query and
    the three tracked headers (accept-language, accept, user-agent) get
    the same key, however their other headers differ, the authorization
    header included. *)
Theorem untracked_headers_do_not_reach_key (c1 c2 : Context) :
  method (request c1) = method (request c2) ->
  url (request c1) = url (request c2) ->
  query (request c1) = query (request c2) ->
  (forall name, In name tracked ->
     obj_get (headers (request c1)) name = obj_get (headers (request c2)) name) ->
  generateCacheKey c1 = generateCacheKey c2.
Proof.
  intros Hm Hu Hq Hh. unfold generateCacheKey.
  now rewrite (key_determined c1 c2 Hm Hu Hq Hh).
Qed.

Definition with_token : Context :=
  articles page_then_limit (browser_headers (lit "Bearer test-token")).
Definition with_other_token : Context :=
  articles page_then_limit
    (obj_set (lit "x-request-id") (JStr (lit "42")) (browser_headers (lit "Bearer another"))).

Lemma untracked_headers_witness :
  obj_get (headers (request with_token)) (lit "authorization")
    <> obj_get (headers (request with_other_token)) (lit "authorization")
  /\ generateCacheKey with_token = generateCacheKey with_other_token.
Proof.
  split.
  - vm_compute. discriminate.
  - apply (untracked_headers_do_not_reach_key with_token with_other_token);
      try reflexivity.
    intros name [<-|[<-|[<-|[]]]]; reflexivity.
Defined.

(** *** C1 *)

(** C1 as the specification states it: equal method, url and tracked
    headers and value-equal query mappings give the same key, whatever
    the insertion order of the query's keys. *)
Definition key_ignores_insertion_order : Prop :=
  forall c1 c2 : Context,
    method (request c1) = method (request c2) ->
    url (request c1) = url (request c2) ->
    same_mapping (query (request c1)) (query (request c2)) ->
    (forall name, In name tracked ->
       obj_get (headers (request c1)) name = obj_get (headers (request c2)) name) ->
    generateCacheKey c1 = generateCacheKey c2.

Lemma page_limit_same_mapping : same_mapping page_then_limit limit_then_page.
Proof.
  intros k. change page_then_limit with [(lit "page", JNum 1); (lit "limit", JNum 10)].
  change limit_then_page with [(lit "limit", JNum 10); (lit "page", JNum 1)].
  unfold has_key; cbn [List.existsb obj_get fst].
  destruct (JsString.eqb (lit "page") k) eqn:E1, (JsString.eqb (lit "limit") k) eqn:E2;
    split; try reflexivity.
  apply StringFacts.eqb_eq in E1, E2. subst k. discriminate.
Qed.

(** Against C1 as stated: the query [{page: 1, limit: 10}] and the query
    [{limit: 10, page: 1}] hold the same mapping and give different keys. *)
Lemma insertion_order_changes_key : ~ key_ignores_insertion_order.
Proof.
  intros claim.
  specialize (claim (articles page_then_limit (browser_headers (lit "Bearer test-token")))
                    (articles limit_then_page (browser_headers (lit "Bearer test-token")))
                    eq_refl eq_refl page_limit_same_mapping (fun _ _ => eq_refl)).
  rewrite key_of_mock_context, key_of_reordered_query in claim.
  vm_compute in claim. discriminate.
Qed.

(** C1, amended.  Requests with equal method, url and tracked headers
    whose query objects hold the same mapping and enumerate their keys in
    the same order (the order of [Object.keys]: array indices ascending,
    then the other names as inserted) get the same key. *)
Theorem same_enumeration_same_key (c1 c2 : Context) :
  well_formed (query (request c1)) ->
  well_formed (query (request c2)) ->
  method (request c1) = method (request c2) ->
  url (request c1) = url (request c2) ->
  same_mapping (query (request c1)) (query (request c2)) ->
  obj_keys (query (request c1)) = obj_keys (query (request c2)) ->
  (forall name, In name tracked ->
     obj_get (headers (request c1)) name = obj_get (headers (request c2)) name) ->
  generateCacheKey c1 = generateCacheKey c2.
Proof.
  intros W1 W2 Hm Hu Hs Hk Hh. unfold generateCacheKey.
  now rewrite (key_determined c1 c2 Hm Hu (same_enumeration _ _ W1 W2 Hk Hs) Hh).
Qed.

(** Array indices are enumerated in ascending order whatever the order
    of insertion. *)
Definition ids_ascending : jsobj :=
  obj_of_insertions [ (lit "1", JStr (lit "a")); (lit "2", JStr (lit "b")) ].
Definition ids_descending : jsobj :=
  obj_of_insertions [ (lit "2", JStr (lit "b")); (lit "1", JStr (lit "a")) ].

Lemma same_enumeration_witness :
  generateCacheKey (articles ids_ascending (browser_headers (lit "t")))
  = generateCacheKey (articles ids_descending (browser_headers (lit "t"))).
Proof.
  apply (same_enumeration_same_key (articles ids_ascending (browser_headers (lit "t")))
                                   (articles ids_descending (browser_headers (lit "t"))));
    try reflexivity.
  - unfold well_formed. vm_compute. repeat constructor; simpl; intuition discriminate.
  - unfold well_formed. vm_compute. repeat constructor; simpl; intuition discriminate.
  - intros k. split; reflexivity.
Defined.

(** *** C5 *)

(** The request [c] with the header [name] set to [v]. *)
Definition with_header (name : jsstring) (v : jsval) (c : Context) : Context :=
  mkContext (mkRequest (method (request c)) (url (request c)) (query (request c))
                       (obj_set name v (headers (request c)))).

(** C5 as the specification states it: an absent tracked header is
    serialized like an empty string, so adding it with an empty value
    changes neither the serialized headers nor the key. *)
Definition absent_header_reads_as_empty : Prop :=
  forall (c : Context) (name : jsstring),
    In name tracked ->
    has_key name (headers (request c)) = false ->
    headersString c = headersString (with_header name (JStr []) c)
    /\ generateCacheKey c = generateCacheKey (with_header name (JStr []) c).

(** A request without an accept header. *)
Definition no_accept : Context :=
  articles page_then_limit
    (obj_of_insertions
       [ (lit "accept-language", JStr (lit "en-US,en;q=0.9"));
         (lit "user-agent", JStr (lit "Mozilla/5.0 (Test Browser)")) ]).

Example headers_without_accept :
  headersString no_accept
  = lit "{" ++ quoted "accept-language" ++ lit ":" ++ quoted "en-US,en;q=0.9" ++ lit ","
      ++ quoted "user-agent" ++ lit ":" ++ quoted "Mozilla/5.0 (Test Browser)" ++ lit "}".
Proof. vm_compute. reflexivity. Qed.

Example headers_with_empty_accept :
  headersString (with_header (lit "accept") (JStr []) no_accept)
  = lit "{" ++ quoted "accept-language" ++ lit ":" ++ quoted "en-US,en;q=0.9" ++ lit ","
      ++ quoted "accept" ++ lit ":" ++ quoted "" ++ lit ","
      ++ quoted "user-agent" ++ lit ":" ++ quoted "Mozilla/5.0 (Test Browser)" ++ lit "}".
Proof. vm_compute. reflexivity. Qed.

(** Against C5 as stated: without an accept header the key differs from
    the key of the same request with an empty accept header. *)
Lemma absent_header_is_not_empty : ~ absent_header_reads_as_empty.
Proof.
  intros claim.
  destruct (claim no_accept (lit "accept")) as [_ E].
  - unfold tracked; simpl; tauto.
  - reflexivity.
  - vm_compute in E. discriminate.
Qed.

(** C5, amended.  A tracked header that is absent is left out of the
    serialized headers: the text is the one of the object without that
    property.  The request then has the key of any request that differs
    only in carrying the header with the value [undefined], and its key
    material differs from that of a request carrying the header with the
    empty string. *)
Theorem absent_tracked_header_is_omitted (c : Context) (name : jsstring) :
  In name tracked ->
  obj_get (headers (request c)) name = JUndefined ->
  headersString c
    = template (JSON_stringify
                  (JObj (List.filter (fun p => negb (JsString.eqb (fst p) name))
                                     (relevantHeaders c))))
  /\ forall c' : Context,
       method (request c') = method (request c) ->
       url (request c') = url (request c) ->
       query (request c') = query (request c) ->
       (forall n, In n tracked -> n <> name ->
          obj_get (headers (request c')) n = obj_get (headers (request c)) n) ->
       (obj_get (headers (request c')) name = JUndefined ->
          generateCacheKey c' = generateCacheKey c)
       /\ (obj_get (headers (request c')) name = JStr [] ->
             keyData c' <> keyData c).
Proof.
  intros Hin Hu. split.
  - unfold headersString. rewrite relevantHeaders_eq.
    destruct Hin as [<-|[<-|[<-|[]]]]; rewrite Hu; reflexivity.
  - intros c' Hm Hurl Hq Hrest. split.
    + intros Hu'. unfold generateCacheKey. do 2 f_equal.
      apply key_determined; trivial.
      intros n Hn. destruct (JsString.eqb n name) eqn:E.
      * apply StringFacts.eqb_eq in E as ->. congruence.
      * apply StringFacts.eqb_neq in E. now apply Hrest.
    + intros He. unfold keyData, headersString.
      rewrite Hm, Hurl, !relevantHeaders_eq, !JSON_stringify_obj.
      unfold queryString. rewrite Hq.
      intros E. do 6 apply List.app_inv_head in E. revert E. cbn [template].
      destruct Hin as [<-|[<-|[<-|[]]]]; rewrite He, Hu;
        rewrite !Hrest by (unfold tracked; simpl; (tauto || discriminate));
        cbn [members];
        repeat match goal with
               | |- context [JSON_stringify (obj_get ?h ?k)] =>
                   destruct (JSON_stringify (obj_get h k))
               end;
        cbn [JSON_stringify join];
        intros E; apply (f_equal (@List.length _)) in E;
        rewrite ?List.length_app in E; simpl in E; lia.
Qed.

Lemma absent_tracked_header_witness :
  headersString no_accept
    = template (JSON_stringify
                  (JObj (List.filter (fun p => negb (JsString.eqb (fst p) (lit "accept")))
                                     (relevantHeaders no_accept))))
  /\ keyData (with_header (lit "accept") (JStr []) no_accept) <> keyData no_accept.
Proof.
  destruct (absent_tracked_header_is_omitted no_accept (lit "accept")) as [H1 H2].
  - unfold tracked; simpl; tauto.
  - reflexivity.
  - split; [exact H1|].
    apply (H2 (with_header (lit "accept") (JStr []) no_accept)); try reflexivity.
    intros n [<-|[<-|[<-|[]]]] Hne; try reflexivity. now contradiction Hne.
Defined.

End KeyFacts.

(** ** The GraphQL key: redaction *)

Module RedactionFacts.
Import Regex Key.

(** The literal part of the pattern: [password] between double quotes,
    followed by a colon. *)
Definition prefix : jsstring := [34] ++ lit "password" ++ [34] ++ lit ":".

(** What follows the literal part. *)
Definition tail_re : regex :=
  [ Star is_space; Chr is_quote; Star not_quote; Chr is_quote ].

Definition body_re : regex := [ Star not_quote; Chr is_quote ].

Lemma password_re_eq : password_re = literal prefix ++ tail_re.
Proof. reflexivity. Qed.

Lemma password_mask_eq : password_mask = prefix ++ [34] ++ lit "***" ++ [34].
Proof. reflexivity. Qed.

(** *** The matcher, one step at a time *)

Lemma matchLen_chr_cons (p : jschar -> bool) (r : regex) (c : jschar) (s : jsstring) :
  matchLen (Chr p :: r) (c :: s) = if p c then S <$> matchLen r s else None.
Proof. reflexivity. Qed.

Lemma matchLen_star_cons (p : jschar -> bool) (r : regex) (c : jschar) (s : jsstring) :
  matchLen (Star p :: r) (c :: s) =
    if p c then
      match matchLen (Star p :: r) s with
      | Some n => Some (S n)
      | None => matchLen r (c :: s)
      end
    else matchLen r (c :: s).
Proof. reflexivity. Qed.

Lemma matchLen_star_nil (p : jschar -> bool) (r : regex) :
  matchLen (Star p :: r) [] = matchLen r [].
Proof. reflexivity. Qed.

(** When the test after a star excludes the starred one, giving back a
    repetition never helps: the star takes every character it can. *)
Lemma matchLen_star_chr (p q : jschar -> bool) (r : regex) (c : jschar) (s : jsstring) :
  (forall x, p x = true -> q x = false) ->
  matchLen (Star p :: Chr q :: r) (c :: s) =
    if p c then S <$> matchLen (Star p :: Chr q :: r) s
    else matchLen (Chr q :: r) (c :: s).
Proof.
  intros D. rewrite matchLen_star_cons. destruct (p c) eqn:E; [|reflexivity].
  destruct (matchLen (Star p :: Chr q :: r) s); [reflexivity|].
  rewrite matchLen_chr_cons, (D c E). reflexivity.
Qed.

Lemma space_not_quote (x : jschar) : is_space x = true -> is_quote x = false.
Proof.
  unfold is_quote. destruct (N.eqb_spec x 34) as [->|]; [|reflexivity].
  vm_compute. discriminate.
Qed.

Lemma not_quote_not_quote (x : jschar) : not_quote x = true -> is_quote x = false.
Proof. unfold not_quote, is_quote. now destruct (x =? 34). Qed.

Lemma matchLen_literal (p : jsstring) (r : regex) (s : jsstring) :
  matchLen (literal p ++ r) s =
    if startsWith p s
    then (fun n => (List.length p + n)%nat) <$> matchLen r (List.skipn (List.length p) s)
    else None.
Proof.
  revert s; induction p as [|a p IH]; intros s.
  - change (matchLen r s = (fun n => n) <$> matchLen r s).
    destruct (matchLen r s); reflexivity.
  - destruct s as [|b s]; [reflexivity|].
    change (literal (a :: p) ++ r) with (Chr (jschar_eqb a) :: (literal p ++ r)).
    rewrite matchLen_chr_cons. cbn [startsWith List.length List.skipn].
    destruct (jschar_eqb a b); [|reflexivity]. rewrite IH. cbn [andb].
    destruct (startsWith p s); [|reflexivity].
    destruct (matchLen r (List.skipn (List.length p) s)); reflexivity.
Qed.

(** *** A match is decided by the text up to its second double quote *)

Definition quotes (a : jsstring) : nat := List.length (List.filter is_quote a).

Lemma body_local (a y1 y2 : jsstring) :
  (1 <= quotes a)%nat -> matchLen body_re (a ++ y1) = matchLen body_re (a ++ y2).
Proof.
  unfold body_re, quotes. induction a as [|c a IH]; cbn [List.filter]; [simpl; lia|].
  intros Q. cbn [app]. rewrite !(matchLen_star_chr _ _ _ _ _ not_quote_not_quote).
  unfold not_quote at 1 3. change (c =? 34) with (is_quote c) in *.
  destruct (is_quote c) eqn:E; cbn [negb].
  - rewrite !matchLen_chr_cons, E. reflexivity.
  - now rewrite IH.
Qed.

Lemma tail_local (a y1 y2 : jsstring) :
  (2 <= quotes a)%nat -> matchLen tail_re (a ++ y1) = matchLen tail_re (a ++ y2).
Proof.
  unfold tail_re, quotes. induction a as [|c a IH]; cbn [List.filter]; [simpl; lia|].
  intros Q. cbn [app]. rewrite !(matchLen_star_chr _ _ _ _ _ space_not_quote).
  destruct (is_space c) eqn:E.
  - rewrite (space_not_quote c E) in Q. now rewrite IH.
  - rewrite !matchLen_chr_cons. destruct (is_quote c); [|reflexivity].
    cbn [List.length] in Q. fold body_re.
    rewrite (body_local a y1 y2); [reflexivity|]. unfold quotes. lia.
Qed.

(** *** The literal part does not overlap itself *)

Lemma startsWith_true (p s : jsstring) :
  startsWith p s = true -> s = p ++ List.skipn (List.length p) s.
Proof.
  revert s; induction p as [|a p IH]; intros [|b s]; simpl; try discriminate; trivial.
  intros E. apply andb_prop in E as [E1 E2].
  apply N.eqb_eq in E1 as ->. f_equal. now apply IH.
Qed.

Lemma startsWith_app (p s z : jsstring) :
  (List.length p <= List.length s)%nat -> startsWith p (s ++ z) = startsWith p s.
Proof.
  revert s; induction p as [|a p IH]; intros [|b s]; simpl; trivial; [lia|].
  intros L. rewrite IH by lia. reflexivity.
Qed.

Lemma no_overlap (x y r : jsstring) :
  x <> [] -> (List.length x < 11)%nat -> x ++ prefix ++ y <> prefix ++ r.
Proof.
  intros Hx L E. destruct x as [|c x]; [contradiction|].
  unfold prefix, lit in E; simpl in E, L. injection E as _ E.
  do 10 (destruct x as [|? x];
         [ discriminate E
         | simpl in E; injection E as _ E; simpl in L ]).
  lia.
Qed.

Lemma quotes_app (a b : jsstring) : quotes (a ++ b) = (quotes a + quotes b)%nat.
Proof. unfold quotes. now rewrite List.filter_app, List.length_app. Qed.

(** Whether the pattern matches at a position before an occurrence of the
    literal part does not depend on what follows that occurrence. *)
Lemma match_before_prefix (x y1 y2 : jsstring) :
  x <> [] ->
  matchLen password_re (x ++ prefix ++ y1) = matchLen password_re (x ++ prefix ++ y2).
Proof.
  intros Hx. rewrite password_re_eq, !matchLen_literal.
  destruct (Nat.lt_ge_cases (List.length x) 11) as [L|L].
  - destruct (startsWith prefix (x ++ prefix ++ y1)) eqn:E1.
    { apply startsWith_true in E1. now apply no_overlap in E1. }
    destruct (startsWith prefix (x ++ prefix ++ y2)) eqn:E2; [|reflexivity].
    apply startsWith_true in E2. now apply no_overlap in E2.
  - change (List.length prefix) with 11%nat.
    assert (List.length prefix <= List.length x)%nat as L' by exact L.
    rewrite (startsWith_app prefix x (prefix ++ y1) L'), (startsWith_app prefix x (prefix ++ y2) L').
    destruct (startsWith prefix x); [|reflexivity].
    rewrite !List.skipn_app.
    replace (11 - List.length x)%nat with 0%nat by lia. rewrite !List.skipn_O.
    rewrite !List.app_assoc. f_equal. apply tail_local.
    rewrite quotes_app. change (quotes prefix) with 2%nat. lia.
Qed.

(** *** The equations of the replacement *)

Lemma replace_go_skip (r : regex) (m : jsstring) (k : nat) (s : jsstring) :
  matchLen r [] = None ->
  replace_go r m k s = replace_go r m O (List.skipn k s).
Proof.
  intros E. revert s; induction k as [|k IH]; intros s; [reflexivity|].
  destruct s as [|c s]; cbn [replace_go List.skipn]; [now rewrite E|apply IH].
Qed.

Lemma sanitize_nil : sanitize [] = [].
Proof. reflexivity. Qed.

Lemma sanitize_miss (c : jschar) (s : jsstring) :
  matchLen password_re (c :: s) = None -> sanitize (c :: s) = c :: sanitize s.
Proof.
  intros E. unfold sanitize, replace_global. cbn [replace_go]. now rewrite E.
Qed.

Lemma hit_starts_with_prefix (s : jsstring) (n : nat) :
  matchLen password_re s = Some n ->
  s = prefix ++ List.skipn 11 s /\ (11 <= n)%nat.
Proof.
  rewrite password_re_eq, matchLen_literal.
  destruct (startsWith prefix s) eqn:E; [|discriminate].
  apply startsWith_true in E. split; [exact E|].
  destruct (matchLen tail_re _); [|discriminate].
  injection H as <-. change (List.length prefix) with 11%nat. lia.
Qed.

Lemma sanitize_hit (s : jsstring) (n : nat) :
  matchLen password_re s = Some n ->
  sanitize s = password_mask ++ sanitize (List.skipn n s).
Proof.
  intros E. destruct (hit_starts_with_prefix s n E) as [_ L].
  destruct s as [|c s]; [discriminate E|].
  unfold sanitize, replace_global. cbn [replace_go]. rewrite E.
  destruct n as [|k]; [lia|]. f_equal.
  now rewrite replace_go_skip.
Qed.

(** The replacement text matches the pattern, whatever follows it. *)
Lemma mask_matches (z : jsstring) :
  matchLen password_re (password_mask ++ z) = Some 16%nat.
Proof. reflexivity. Qed.

(** Replacing to the right of a position does not change whether the
    pattern matches at that position. *)
Lemma sanitize_keeps_matches (s x : jsstring) :
  x <> [] ->
  matchLen password_re (x ++ sanitize s) = matchLen password_re (x ++ s).
Proof.
  revert x; induction s as [|c s IH]; intros x Hx; [reflexivity|].
  destruct (matchLen password_re (c :: s)) as [n|] eqn:E.
  - rewrite (sanitize_hit _ _ E), password_mask_eq.
    destruct (hit_starts_with_prefix _ _ E) as [-> _].
    rewrite <- !List.app_assoc. now apply match_before_prefix.
  - rewrite (sanitize_miss _ _ E).
    change (x ++ c :: sanitize s) with (x ++ [c] ++ sanitize s).
    change (x ++ c :: s) with (x ++ [c] ++ s).
    rewrite !List.app_assoc. apply IH. now destruct x.
Qed.

Lemma sanitize_idempotent (payload : jsstring) :
  sanitize (sanitize payload) = sanitize payload.
Proof.
  remember (List.length payload) as n eqn:Hn. revert payload Hn.
  induction n as [n IH] using lt_wf_ind. intros [|c s] Hn; [reflexivity|].
  destruct (matchLen password_re (c :: s)) as [k|] eqn:E.
  - rewrite (sanitize_hit _ _ E).
    rewrite (sanitize_hit _ _ (mask_matches _)).
    change 16%nat with (List.length password_mask).
    rewrite List.skipn_app, List.skipn_all, Nat.sub_diag. cbn [app List.skipn].
    f_equal. destruct (hit_starts_with_prefix _ _ E) as [_ L].
    apply (IH (List.length (List.skipn k (c :: s)))); [|reflexivity].
    rewrite List.length_skipn. simpl in Hn |- *. lia.
  - rewrite (sanitize_miss _ _ E).
    assert (matchLen password_re (c :: sanitize s) = None) as E'.
    { rewrite <- E. apply (sanitize_keeps_matches s [c]). discriminate. }
    rewrite (sanitize_miss _ _ E'). f_equal.
    apply (IH (List.length s)); [simpl in Hn; lia|reflexivity].
Qed.

(** *** C6 *)

(** C6.  Redacting a payload twice gives the text redacting it once gives,
    so a once-redacted payload has the key of the original payload. *)
Theorem redaction_is_idempotent (payload : jsstring) :
  sanitize (sanitize payload) = sanitize payload
  /\ generateGraphqlCacheKey (sanitize payload) = generateGraphqlCacheKey payload.
Proof.
  split; [apply sanitize_idempotent|].
  unfold generateGraphqlCacheKey. now rewrite sanitize_idempotent.
Qed.

(** The login mutation of the test script, its password written as a
    JSON member. *)
Definition login_payload : jsstring :=
  lit "{" ++ [34] ++ lit "password" ++ [34] ++ lit ":  " ++ [34] ++ lit "secret123" ++ [34]
    ++ lit "," ++ [34] ++ lit "email" ++ [34] ++ lit ":" ++ [34] ++ lit "a@b.c" ++ [34] ++ lit "}".

Example login_payload_redacted :
  sanitize login_payload
  = lit "{" ++ [34] ++ lit "password" ++ [34] ++ lit ":" ++ [34] ++ lit "***" ++ [34]
      ++ lit "," ++ [34] ++ lit "email" ++ [34] ++ lit ":" ++ [34] ++ lit "a@b.c" ++ [34] ++ lit "}".
Proof. vm_compute. reflexivity. Qed.

End RedactionFacts.

(** ** The providers *)

Module ProviderFacts.

(** The null outcome of a data operation: it resolves with [null] (it
    does not throw), leaves the provider and its store as they were, and
    writes one warning to the log. *)
Definition null_noop {P A : Type} (m : Eff (Store P) A) (null : A) (st : Store P) : Prop :=
  exists msg, m st = (Ok null, mkStore (this st) (log st ++ [(Warn, msg)])).

(** A key that is null, empty or not a string. *)
Definition bad_key (key : jsval) : Prop :=
  key = JNull \/ key = JStr [] \/ typeof key <> TString.

Lemma bad_key_invalid (key : jsval) : bad_key key -> invalid_key key = true.
Proof.
  unfold invalid_key. intros [->|[->|T]]; try reflexivity.
  destruct key; try (now destruct T); apply orb_true_r.
Qed.

(** Every data operation of the provider has the null outcome. *)
Definition all_null_noop {P : Type} `{CacheProvider P} (st : Store P) : Prop :=
  (forall key, null_noop (cp_get key) JNull st)
  /\ (forall key val, null_noop (cp_set key val) RNull st)
  /\ (forall key, null_noop (cp_del key) RNull st)
  /\ null_noop cp_keys None st
  /\ null_noop cp_reset RNull st
  /\ (forall regExps, null_noop (cp_clearByRegexp regExps) tt st).

(** [get], [set] and [del] have the null outcome on a bad key. *)
Definition bad_keys_null_noop {P : Type} `{CacheProvider P} (st : Store P) : Prop :=
  forall key, bad_key key ->
    null_noop (cp_get key) JNull st
    /\ (forall val, null_noop (cp_set key val) RNull st)
    /\ null_noop (cp_del key) RNull st.

(** Runs a guard of a provider method. *)
Ltac run_guard :=
  unfold null_noop, mbind, eff_bind, bind, gets, loggy, modify, ret; cbn [fst snd this log];
  repeat match goal with
         | H : _ = _ |- _ => rewrite H
         end;
  cbn [negb orb andb]; eexists; reflexivity.

Section MemoryGuards.
Context {S : Type} `{Memory.LRUCache S}.

#[local] Existing Instance Memory.memory_provider.

Lemma memory_not_ready (st : Store (Memory.InMemoryCacheProvider S)) :
  cp_ready (this st) = false -> all_null_noop st.
Proof.
  intros R; cbn [cp_ready Memory.memory_provider] in R.
  repeat split; intros;
    cbn [cp_get cp_set cp_del cp_keys cp_reset cp_clearByRegexp Memory.memory_provider];
    unfold Memory.get, Memory.set, Memory.del, Memory.keys, Memory.reset, Memory.clearByRegexp;
    run_guard.
Qed.

Lemma memory_bad_keys (st : Store (Memory.InMemoryCacheProvider S)) :
  bad_keys_null_noop st.
Proof.
  intros key B. apply bad_key_invalid in B.
  destruct (Memory.ready (this st)) eqn:R;
    repeat split; intros; cbn [cp_get cp_set cp_del Memory.memory_provider];
    unfold Memory.get, Memory.set, Memory.del; run_guard.
Qed.

Lemma memory_new_not_ready (strapi : PluginConfig) :
  cp_ready (Memory.new (S := S) strapi) = false.
Proof. reflexivity. Qed.

Lemma memory_failed_init (st st' : Store (Memory.InMemoryCacheProvider S)) (e : jserror) :
  cp_init st = (Throw e, st') -> cp_ready (this st') = false.
Proof.
  cbn [cp_init cp_ready Memory.memory_provider].
  unfold Memory.init, Memory.ready, mbind, eff_bind, bind, gets, try_catch, loggy, set_this,
    modify, throw, lift_outcome.
  destruct (Memory.initialized (this st)) eqn:I; [discriminate|].
  repeat match goal with
         | |- context [if ?b then _ else _] => destruct b
         | |- context [match Memory.lru_new ?o with _ => _ end] => destruct (Memory.lru_new o)
         end;
    intros E; try discriminate E; injection E as _ <-; cbn [this]; now rewrite I.
Qed.

(** A lookup always resolves: errors of the cache and the deadline are
    turned into [null]. *)
Lemma memory_get_resolves (key : jsval) (st : Store (Memory.InMemoryCacheProvider S)) :
  exists v st', Memory.get key st = (Ok v, st').
Proof.
  unfold Memory.get, Memory.on_provider, mbind, eff_bind, bind, gets, try_catch, loggy,
    modify, lift_outcome, ret, withTimeout.
  cbn [this log].
  destruct (negb (Memory.ready (this st))); [eauto|].
  destruct (invalid_key key); [eauto|].
  destruct (Memory.provider (this st)) as [c|]; cbn [this log].
  - destruct (Memory.lru_get (key_text key) c) as [[v|e] c']; cbn [this log];
      match goal with
      | |- context [if ?b then _ else _] => destruct b
      end; eauto.
  - match goal with
    | |- context [if ?b then _ else _] => destruct b
    end; eauto.
Qed.

End MemoryGuards.

Section RedisGuards.
Context {R : Type} `{Redis.RedisClient R} (JSON_parse : jsstring -> Outcome jsval).

#[local] Existing Instance Redis.redis_provider.

Lemma redis_not_ready (st : Store (Redis.RedisCacheProvider R)) :
  Redis.ready (this st) = false -> all_null_noop (H := Redis.redis_provider JSON_parse) st.
Proof.
  intros Rd.
  repeat split; intros;
    cbn [cp_get cp_set cp_del cp_keys cp_reset cp_clearByRegexp Redis.redis_provider];
    unfold Redis.get, Redis.set, Redis.del, Redis.keys, Redis.reset, Redis.clearByRegexp;
    run_guard.
Qed.

Lemma redis_bad_keys (st : Store (Redis.RedisCacheProvider R)) :
  bad_keys_null_noop (H := Redis.redis_provider JSON_parse) st.
Proof.
  intros key B. apply bad_key_invalid in B.
  destruct (Redis.ready (this st)) eqn:Rd;
    repeat split; intros; cbn [cp_get cp_set cp_del Redis.redis_provider];
    unfold Redis.get, Redis.set, Redis.del; run_guard.
Qed.

Lemma redis_new_not_ready (strapi : PluginConfig) :
  Redis.ready (Redis.new (R := R) strapi) = false.
Proof. reflexivity. Qed.

Lemma redis_failed_init (st st' : Store (Redis.RedisCacheProvider R)) (e : jserror) :
  Redis.init st = (Throw e, st') -> Redis.ready (this st') = false.
Proof.
  unfold Redis.init, Redis.ready, mbind, eff_bind, bind, gets, try_catch, loggy, set_this,
    modify, throw, lift_outcome.
  destruct (Redis.initialized (this st)) eqn:I; [discriminate|].
  cbn [this log].
  match goal with
  | |- context [match ?o with Ok _ => _ | Throw _ => _ end] => destruct o
  end;
    intros E; try discriminate E; injection E as _ <-; reflexivity.
Qed.

Lemma redis_get_resolves (key : jsval) (st : Store (Redis.RedisCacheProvider R)) :
  exists v st', Redis.get JSON_parse key st = (Ok v, st').
Proof.
  unfold Redis.get, Redis.on_client_timed, Redis.on_client, mbind, eff_bind, bind, gets,
    try_catch, loggy, modify, lift_outcome, ret.
  cbn [this log].
  destruct (negb (Redis.ready (this st))); [eauto|].
  destruct (invalid_key key); [eauto|].
  destruct (Redis.client (this st)) as [c|]; cbn [this log]; [|eauto].
  destruct (Redis.redis_get (key_text key) c) as [t c'].
  destruct (withTimeout t _) as [[[|x text]|]|e]; cbn [this log]; eauto.
  destruct (JSON_parse (x :: text)); eauto.
Qed.

End RedisGuards.

(** *** C4 *)

(** C4.  On either provider, every data operation ([get], [set], [del],
    [keys], [reset], [clearByRegexp]) of a provider that is not ready
    resolves with the null outcome and does not throw; [get], [set] and
    [del] called with a key that is null, empty or not a string resolve
    with null, without throwing and without touching the store.  A
    provider is not ready before [init] and after an [init] that threw. *)
Theorem providers_degrade_to_null :
  (forall (S : Type) (L : Memory.LRUCache S) (st : Store (Memory.InMemoryCacheProvider S)),
     (Memory.ready (this st) = false -> all_null_noop (H := Memory.memory_provider) st)
     /\ bad_keys_null_noop (H := Memory.memory_provider) st
     /\ (forall strapi, Memory.ready (Memory.new (S := S) strapi) = false)
     /\ (forall e st', Memory.init st = (Throw e, st') -> Memory.ready (this st') = false))
  /\ (forall (R : Type) (C : Redis.RedisClient R) (JSON_parse : jsstring -> Outcome jsval)
             (st : Store (Redis.RedisCacheProvider R)),
        (Redis.ready (this st) = false ->
           all_null_noop (H := Redis.redis_provider JSON_parse) st)
        /\ bad_keys_null_noop (H := Redis.redis_provider JSON_parse) st
        /\ (forall strapi, Redis.ready (Redis.new (R := R) strapi) = false)
        /\ (forall e st', Redis.init st = (Throw e, st') -> Redis.ready (this st') = false)).
Proof.
  split.
  - intros S L st. split; [|split; [|split]].
    + apply memory_not_ready.
    + apply memory_bad_keys.
    + apply memory_new_not_ready.
    + intros e st'. apply memory_failed_init.
  - intros R C JSON_parse st. split; [|split; [|split]].
    + apply redis_not_ready.
    + apply redis_bad_keys.
    + apply redis_new_not_ready.
    + intros e st'. apply redis_failed_init.
Qed.

(** A plugin configuration with the recommended values. *)
Definition plugin_config : PluginConfig :=
  Provider.mkConfig (Some 1000%Z) (Some 3600000%Z) (Some 10485760%Z) (Some false)
                    (Some 1000%Z) JUndefined [] None.

#[local] Existing Instance Models.list_lru.

(** A memory provider before [init], and after it. *)
Definition fresh_memory : Store (Memory.InMemoryCacheProvider Models.LruState) :=
  mkStore (Memory.new plugin_config) [].
Definition ready_memory : Store (Memory.InMemoryCacheProvider Models.LruState) :=
  snd (Memory.init fresh_memory).

Example ready_memory_is_ready : Memory.ready (this ready_memory) = true.
Proof. reflexivity. Qed.

(** An empty Redis server that answers reads in 2 ms, and a provider
    connected to it. *)
Definition empty_server : Models.RedisState := Models.mkRedisState ∅ 2.
Definition ready_redis : Store (Redis.RedisCacheProvider Models.RedisState) :=
  snd (Redis.init (H := Models.map_redis empty_server) (mkStore (Redis.new plugin_config) [])).

Example ready_redis_is_ready : Redis.ready (this ready_redis) = true.
Proof. reflexivity. Qed.

Lemma providers_degrade_witness :
  null_noop (Memory.get (JStr (lit "cache:abc"))) JNull fresh_memory
  /\ null_noop (Memory.get JNull) JNull ready_memory
  /\ null_noop (Redis.del (H := Models.map_redis empty_server) (JNum 7)) RNull ready_redis.
Proof.
  destruct providers_degrade_to_null as [Hm Hr].
  split; [|split].
  - destruct (Hm _ _ fresh_memory) as [N _].
    apply (N eq_refl).
  - destruct (Hm _ _ ready_memory) as (_ & B & _).
    apply (B JNull). left. reflexivity.
  - destruct (Hr _ (Models.map_redis empty_server) Models.JSON_parse ready_redis) as (_ & B & _).
    apply (B (JNum 7)). right. right. discriminate.
Defined.

(** The bounds the test script calls invalid make [init] throw at the
    first check. *)
Example init_rejects_negative_max :
  fst (Memory.init (S := Models.LruState)
         (mkStore (Memory.new (Provider.mkConfig (Some (-1)%Z) (Some (-1000)%Z) (Some 0%Z) None
                                                 None JUndefined [] None)) []))
  = Throw (Error (lit "max must be greater than 0")).
Proof. reflexivity. Qed.

(** *** C9 *)

Section RedisKeys.
Import Models.

(** A key written by this cache. *)
Definition namespaced (k : jsstring) : bool :=
  startsWith (lit "cache:") k || startsWith (lit "graphql:") k.

Lemma glob_star (s : jsstring) : glob (lit "*") s = true.
Proof. induction s as [|c s IH]; [reflexivity|]. exact IH. Qed.

Lemma filter_all {A : Type} (f : A -> bool) (l : list A) :
  (forall x, f x = true) -> List.filter f l = l.
Proof. intros F. induction l as [|x l IH]; simpl; [reflexivity|]. now rewrite F, IH. Qed.

(** C9 as the specification states it: [keys()] lists the namespaced keys
    of the database and nothing else. *)
Definition keys_only_in_namespace : Prop :=
  forall (server r : RedisState) (p : Redis.RedisCacheProvider RedisState)
         (lg : list logline) (ks : list jsstring) (st' : Store _),
    Redis.initialized p = true ->
    Redis.client p = Some r ->
    Redis.keys (H := map_redis server) (mkStore p lg) = (Ok (Some ks), st') ->
    forall k, In k ks <-> (is_Some (db r !! k) /\ namespaced k = true).

(** A database shared with a session store. *)
Definition shared_server : RedisState :=
  mkRedisState (<[lit "session:42" := (lit "{}", None)]>
                  (<[lit "cache:abc" := (lit "{}", Some 3600%Z)]> ∅)) 2.

Definition shared_redis : Store (Redis.RedisCacheProvider RedisState) :=
  snd (Redis.init (H := map_redis shared_server) (mkStore (Redis.new plugin_config) [])).

Example keys_of_shared_redis :
  fst (Redis.keys (H := map_redis shared_server) shared_redis)
  = Ok (Some [lit "session:42"; lit "cache:abc"]).
Proof. vm_compute. reflexivity. Qed.

(** Against C9 as stated: [keys()] reports the key of the session store. *)
Lemma keys_reports_foreign_keys : ~ keys_only_in_namespace.
Proof.
  intros claim.
  destruct (claim shared_server shared_server (this shared_redis) (log shared_redis)
                  [lit "session:42"; lit "cache:abc"]
                  (snd (Redis.keys (H := map_redis shared_server) shared_redis))
                  eq_refl eq_refl) with (k := lit "session:42") as [F _].
  - vm_compute. reflexivity.
  - destruct F as [_ F]; [left; reflexivity|]. vm_compute in F. discriminate.
Qed.

(** C9, amended.  On a ready provider whose store answers, [keys()]
    enumerates exactly the keys of the connected database (it asks for the
    pattern [*]): the keys this cache wrote and any other key the database
    holds; the provider and the database are left as they were. *)
Theorem redis_keys_lists_whole_database
    (server r : RedisState) (p : Redis.RedisCacheProvider RedisState) (lg : list logline) :
  Redis.initialized p = true ->
  Redis.client p = Some r ->
  exists ks,
    Redis.keys (H := map_redis server) (mkStore p lg) = (Ok (Some ks), mkStore p lg)
    /\ forall k, In k ks <-> is_Some (db r !! k).
Proof.
  intros I C. exists (map_to_list (db r)).*1. split.
  - unfold Redis.keys, Redis.ready, mbind, eff_bind, bind, gets, try_catch, Redis.on_client, ret.
    cbn [this log]. rewrite I, C. cbn [andb negb Redis.redis_keys map_redis this log].
    rewrite C, (filter_all _ _ glob_star). do 2 f_equal.
    unfold Redis.with_client. destruct p; cbn in *. now subst.
  - intros k. rewrite <- list_elem_of_In, list_elem_of_fmap. split.
    + intros [[k' v] [-> E]]. apply elem_of_map_to_list in E. now exists v.
    + intros [v E]. exists (k, v). split; [reflexivity|]. now apply elem_of_map_to_list.
Qed.

Lemma redis_keys_witness :
  exists ks,
    Redis.keys (H := map_redis shared_server) shared_redis = (Ok (Some ks), shared_redis)
    /\ forall k, In k ks <-> is_Some (db shared_server !! k).
Proof.
  apply (redis_keys_lists_whole_database shared_server shared_server
           (this shared_redis) (log shared_redis)); reflexivity.
Defined.

End RedisKeys.

(** *** The validation of the test script *)

(** [validateConfig] applied to the configuration with max -1,
    ttl -1000, size 0 and provider [invalid] reports one error for each
    of the four rules, in the order max, ttl, size, provider. *)
Lemma script_validation_has_four_errors :
  TestScript.validateConfig TestScript.invalidConfig
  = [ lit "max must be a positive number";
      lit "ttl must be a non-negative number";
      lit "size must be a positive number";
      lit "provider must be " ++ [34] ++ lit "memory" ++ [34] ++ lit " or "
        ++ [34] ++ lit "redis" ++ [34] ]
  /\ List.length (TestScript.validateConfig TestScript.invalidConfig) = 4%nat
  /\ TestScript.validateConfig TestScript.validConfig = [].
Proof. repeat split. Qed.

End ProviderFacts.

(** ** The GraphQL middleware *)

Module MiddlewareFacts.
Import Graphql.

(** The calls to the cache service in a trace. *)
Definition cache_calls (t : list Event) : list Event :=
  List.filter (fun e => match e with Next => false | _ => true end) t.

Section Runs.
Context {P : Type} `{CacheProvider P} `{Host}.
Context (config : CacheHeaderConfig) (next : Ctx -> Outcome unit * Ctx).

(** The context once the request body [buf] has been read and the
    request replaced by its clone. *)
Definition cloned (c : Ctx) (buf : list N) : Ctx :=
  set_req (mkRaw (raw_headers (ctx_req c)) (raw_method (ctx_req c)) (raw_url (ctx_req c))
                 (raw_httpVersion (ctx_req c)) (raw_socket (ctx_req c))
                 (raw_connection (ctx_req c)) [buf]) c.

Definition key_of (buf : list N) : jsstring :=
  Key.generateGraphqlCacheKey (Buffer_toString buf).

Definition logged (st : Store P) (l : level) (msg : jsstring) : Store P :=
  mkStore (this st) (log st ++ [(l, msg)]).

Definition cache_control (c : Ctx) : jsval :=
  obj_get (request_headers (ctx_request c)) (lit "cache-control").

Definition authorization (c : Ctx) : jsval :=
  obj_get (request_headers (ctx_request c)) (lit "authorization").

(** [cacheControlHeader && cacheControlHeader.includes('no-cache')] *)
Definition no_cache (c : Ctx) : Outcome bool :=
  if truthy (cache_control c) then includes_method (cache_control c) (lit "no-cache")
  else Ok false.

(** [authorizationHeader && !cacheAuthorizedRequests] *)
Definition authorized_bypass (c : Ctx) : bool :=
  truthy (authorization c) && negb (cacheAuthorizedRequests config).

(** The response qualifies for the cache. *)
Definition storable (url : jsstring) (c : Ctx) : bool :=
  JsString.eqb (ctx_method c) (lit "POST")
  && (200 <=? ctx_status c)%Z && (ctx_status c <? 300)%Z
  && JsString.startsWith (lit "/graphql") url.

(** The context a hit on [entry] leaves. *)
Definition replayed (entry : jsval) (c : Ctx) : Ctx :=
  let c' := set_body (Materialized (prop_get entry (lit "body"))) (set_status 200 c) in
  if cacheHeaders config then ctx_set (prop_get entry (lit "headers")) c' else c'.

Ltac run_middleware :=
  cbv beta iota zeta delta
    [middleware cacheStore_get cacheStore_set call_next run_next emit in_cache update_ctx
     mbind eff_bind bind gets modify lift_outcome ret mret eff_ret loggy];
  cbn [ctx cache trace this log fst snd].

Ltac tidy := cbn [ctx cache trace this log fst snd andb negb orb].

(** *** C10 *)

(** C10.  When the text of the request body contains [IntrospectionQuery]
    anywhere, the middleware only invokes the rest of the pipeline: it
    issues no lookup and no store, and leaves the provider as it was. *)
Theorem introspection_bypasses_cache (w : World P) (buf : list N) :
  rawBody (ctx_req (ctx w)) = Ok buf ->
  JsString.includes (lit "IntrospectionQuery") (Buffer_toString buf) = true ->
  middleware config next w =
    (fst (next (cloned (ctx w) buf)),
     mkWorld (snd (next (cloned (ctx w) buf)))
             (logged (cache w) Info (lit "Skipping cache for introspection query"))
             (trace w ++ [Next])).
Proof.
  intros B I. run_middleware. rewrite B. tidy. rewrite I. tidy.
  fold (cloned (ctx w) buf). now destruct (next (cloned (ctx w) buf)).
Qed.

Lemma authorization_of_clone (r : RawRequest) (c : Ctx) :
  authorization (set_req r c) = authorization c.
Proof. reflexivity. Qed.

Lemma cache_control_of_clone (r : RawRequest) (c : Ctx) :
  cache_control (set_req r c) = cache_control c.
Proof. reflexivity. Qed.

Ltac read_headers :=
  change (obj_get (request_headers (ctx_request ?c)) (lit "cache-control"))
    with (cache_control c);
  change (obj_get (request_headers (ctx_request ?c)) (lit "authorization"))
    with (authorization c);
  rewrite ?authorization_of_clone, ?cache_control_of_clone.

Ltac step := cbv beta iota zeta; tidy; read_headers.

(** The run up to the lookup, for a request that is not an introspection
    query. *)
Ltac run_to_lookup B I G :=
  run_middleware; rewrite B; tidy; rewrite I; tidy;
  change (Key.generateGraphqlCacheKey (Buffer_toString ?b)) with (key_of b);
  rewrite G; tidy; read_headers.

(** *** C7 *)

(** An assignment to a property reads back under its name and leaves
    the other names as they were. *)
Lemma get_update_same (k : jsstring) (v : jsval) (o : jsobj) :
  has_key k o = true -> obj_get (obj_update k v o) k = v.
Proof.
  induction o as [|[k' v'] o IH]; [discriminate|].
  cbn [has_key List.existsb fst obj_update]. fold (has_key k o).
  destruct (JsString.eqb k' k) eqn:E; cbn [orb obj_get]; rewrite E; [reflexivity|exact IH].
Qed.

Lemma get_update_other (k k' : jsstring) (v : jsval) (o : jsobj) :
  k' <> k -> obj_get (obj_update k v o) k' = obj_get o k'.
Proof.
  intros N. induction o as [|[a b] o IH]; [reflexivity|]. cbn [obj_update].
  destruct (JsString.eqb a k) eqn:E; cbn [obj_get].
  - apply StringFacts.eqb_eq in E as ->.
    now destruct (JsString.eqb k k') eqn:E'; [apply StringFacts.eqb_eq in E'; congruence|].
  - now rewrite IH.
Qed.

Lemma get_insert_index_same (i : N) (k : jsstring) (v : jsval) (o : jsobj) :
  has_key k o = false -> obj_get (obj_insert_index i k v o) k = v.
Proof.
  induction o as [|[a b] o IH]; cbn [has_key List.existsb fst obj_insert_index].
  - intros _. cbn [obj_get]. now rewrite StringFacts.eqb_refl.
  - fold (has_key k o). intros A. apply orb_false_elim in A as [A1 A2].
    destruct (array_index a) as [j|]; [destruct (j <? i)|]; cbn [obj_get];
      rewrite ?StringFacts.eqb_refl, ?A1; auto.
Qed.

Lemma get_insert_index_other (i : N) (k k' : jsstring) (v : jsval) (o : jsobj) :
  k' <> k -> obj_get (obj_insert_index i k v o) k' = obj_get o k'.
Proof.
  intros N. assert (E : JsString.eqb k k' = false) by (apply StringFacts.eqb_neq; congruence).
  induction o as [|[a b] o IH]; cbn [obj_insert_index obj_get]; [now rewrite E|].
  destruct (array_index a) as [j|]; [destruct (j <? i)|]; cbn [obj_get]; rewrite ?E, ?IH;
    reflexivity.
Qed.

Lemma get_append_same (k : jsstring) (v : jsval) (o : jsobj) :
  has_key k o = false -> obj_get (o ++ [(k, v)]) k = v.
Proof.
  induction o as [|[a b] o IH]; cbn [has_key List.existsb fst app obj_get].
  - now rewrite StringFacts.eqb_refl.
  - fold (has_key k o). destruct (JsString.eqb a k); [discriminate|exact IH].
Qed.

Lemma get_append_other (k k' : jsstring) (v : jsval) (o : jsobj) :
  k' <> k -> obj_get (o ++ [(k, v)]) k' = obj_get o k'.
Proof.
  intros N. assert (E : JsString.eqb k k' = false) by (apply StringFacts.eqb_neq; congruence).
  induction o as [|[a b] o IH]; cbn [app obj_get]; [now rewrite E|now rewrite IH].
Qed.

Lemma get_set_same (k : jsstring) (v : jsval) (o : jsobj) : obj_get (obj_set k v o) k = v.
Proof.
  unfold obj_set. destruct (has_key k o) eqn:E; [now apply get_update_same|].
  destruct (array_index k); [now apply get_insert_index_same|now apply get_append_same].
Qed.

Lemma get_set_other (k k' : jsstring) (v : jsval) (o : jsobj) :
  k' <> k -> obj_get (obj_set k v o) k' = obj_get o k'.
Proof.
  intros N. unfold obj_set. destruct (has_key k o); [now apply get_update_other|].
  destruct (array_index k); [now apply get_insert_index_other|now apply get_append_other].
Qed.

Definition assign_all (props h : jsobj) : jsobj :=
  List.fold_left (fun h p => obj_set (fst p) (snd p) h) props h.

Lemma assign_all_other (props h : jsobj) (k : jsstring) :
  ~ In k (obj_keys props) -> obj_get (assign_all props h) k = obj_get h k.
Proof.
  revert h. induction props as [|[a b] props IH]; intros h Hn; [reflexivity|].
  cbn [assign_all List.fold_left fst snd]. fold (assign_all props (obj_set a b h)).
  cbn [obj_keys List.map fst In] in Hn.
  rewrite IH by (unfold obj_keys; tauto). apply get_set_other. intros ->. tauto.
Qed.

(** Every property of an object with distinct names is read back after
    the properties have been assigned one by one. *)
Lemma assign_all_same (props h : jsobj) (k : jsstring) (v : jsval) :
  List.NoDup (obj_keys props) -> In (k, v) props -> obj_get (assign_all props h) k = v.
Proof.
  revert h. induction props as [|[a b] props IH]; intros h D Hin; [destruct Hin|].
  cbn [assign_all List.fold_left fst snd]. fold (assign_all props (obj_set a b h)).
  cbn [obj_keys List.map fst] in D. apply List.NoDup_cons_iff in D as [Da D].
  destruct Hin as [E|Hin].
  - injection E as -> ->. rewrite assign_all_other by exact Da. apply get_set_same.
  - now apply IH.
Qed.

(** The run of a hit on the record that stands for the context. *)
Lemma hit_run (w : World P) (buf : list N) (entry : jsval) (st1 : Store P) :
  rawBody (ctx_req (ctx w)) = Ok buf ->
  JsString.includes (lit "IntrospectionQuery") (Buffer_toString buf) = false ->
  cp_get (JStr (key_of buf)) (cache w) = (Ok entry, st1) ->
  truthy entry = true ->
  no_cache (ctx w) = Ok false ->
  authorized_bypass (ctx w) = false ->
  middleware config next w =
    (Ok tt,
     mkWorld (replayed entry (cloned (ctx w) buf))
             (logged st1 Info (lit "HIT with key: " ++ key_of buf))
             (trace w ++ [CacheGet (key_of buf)])).
Proof.
  intros B I G T N A.
  run_to_lookup B I G. unfold no_cache in N. unfold authorized_bypass in A.
  destruct (truthy (cache_control (ctx w))); [rewrite N|]; step;
    rewrite A, T; step; unfold replayed, cloned, logged;
    destruct (cacheHeaders config); reflexivity.
Qed.

Lemma replayed_body (entry : jsval) (c : Ctx) :
  ctx_body (replayed entry c) = Materialized (prop_get entry (lit "body")).
Proof.
  unfold replayed.
  destruct (cacheHeaders config); [destruct (prop_get entry (lit "headers"))|]; reflexivity.
Qed.

Lemma replayed_status (entry : jsval) (c : Ctx) :
  ctx_status (replayed entry c)
  = if nullish (prop_get entry (lit "body")) then 204%Z else 200%Z.
Proof.
  unfold replayed.
  destruct (cacheHeaders config); [destruct (prop_get entry (lit "headers"))|];
    cbn [ctx_status set_body set_status ctx_set empty_status Z.eqb orb negb];
    rewrite ?andb_true_r; reflexivity.
Qed.

(** A header name in the form the response reports it: lower-case
    letters, digits and hyphens. *)
Definition header_name (k : jsstring) : bool :=
  match k with
  | [] => false
  | _ => List.forallb (fun c => ((97 <=? c) && (c <=? 122)) || ((48 <=? c) && (c <=? 57))
                                || (c =? 45)) k
  end.

(** A header value: a string of printable ASCII characters. *)
Definition header_value (v : jsval) : bool :=
  match v with
  | JStr s => List.forallb (fun c => (32 <=? c) && (c <=? 126)) s
  | _ => false
  end.

(** Stored headers that can be set on a response: an object of header
    values under distinct header names. *)
Definition replayable (headers : jsval) : Prop :=
  exists props,
    headers = JObj props
    /\ List.NoDup (obj_keys props)
    /\ List.forallb (fun p => header_name (fst p) && header_value (snd p)) props = true.

(** C7, amended.  On a hit (an entry is found, the request does not ask
    for [no-cache] and is not an authorized request that bypasses the
    cache; its stored headers can be set on a response when header
    caching is enabled) the middleware returns without invoking the rest
    of the pipeline: the only call it makes is the lookup.  It assigns
    200 to the status and the stored body to the body, so the response
    has the stored body, with status 200 when that body is neither null
    nor undefined, and with status 204 when it is and the response
    carries no content type at that point.  When header caching is
    enabled, every stored header is then set on the response.  The
    entry holds no status. *)
Theorem hit_replays_entry (w : World P) (buf : list N) (entry : jsval) (st1 : Store P) :
  rawBody (ctx_req (ctx w)) = Ok buf ->
  JsString.includes (lit "IntrospectionQuery") (Buffer_toString buf) = false ->
  cp_get (JStr (key_of buf)) (cache w) = (Ok entry, st1) ->
  truthy entry = true ->
  no_cache (ctx w) = Ok false ->
  authorized_bypass (ctx w) = false ->
  (cacheHeaders config = true -> replayable (prop_get entry (lit "headers"))) ->
  let run := middleware config next w in
  let stored := prop_get entry (lit "body") in
  fst run = Ok tt
  /\ trace (snd run) = trace w ++ [CacheGet (key_of buf)]
  /\ cache (snd run) = logged st1 Info (lit "HIT with key: " ++ key_of buf)
  /\ (nullish stored = false ->
      ctx_body (ctx (snd run)) = Materialized stored /\ ctx_status (ctx (snd run)) = 200%Z)
  /\ (nullish stored = true ->
      obj_get (ctx_response_headers (ctx w)) (lit "content-type") = JUndefined ->
      ctx_body (ctx (snd run)) = Materialized stored /\ ctx_status (ctx (snd run)) = 204%Z)
  /\ (cacheHeaders config = true ->
      forall props name value,
        prop_get entry (lit "headers") = JObj props ->
        In (name, value) props ->
        obj_get (ctx_response_headers (ctx (snd run))) name = value).
Proof.
  intros B I G T N A Hh run stored. subst run stored.
  rewrite (hit_run w buf entry st1 B I G T N A).
  cbn [fst snd ctx cache trace].
  split; [reflexivity|]. split; [reflexivity|]. split; [reflexivity|].
  rewrite replayed_body, replayed_status.
  split; [now intros ->|]. split; [now intros ->|].
  intros Hc props name value Hp Hin.
  destruct (Hh Hc) as (props' & Hp' & D & _). rewrite Hp in Hp'. injection Hp' as <-.
  unfold replayed. rewrite Hc, Hp.
  cbn [ctx_set ctx_response_headers]. now apply (assign_all_same props).
Qed.

(** *** C2 *)

(** C2, amended.  For a request that is not an introspection query the
    lookup is issued before the bypass rules are examined.  An authorized
    request that bypasses the cache then goes to the rest of the pipeline,
    the entry is ignored and nothing is stored.  A request with a
    [no-cache] directive (and no authorized bypass) also goes to the rest
    of the pipeline with the entry ignored, and its response is stored
    like that of a miss when it qualifies: nothing is stored when it does
    not qualify, one [set] is issued when it does and its body is
    materialized. *)
Theorem bypass_reads_then_passes_through
    (w : World P) (buf : list N) (entry : jsval) (st1 : Store P) :
  rawBody (ctx_req (ctx w)) = Ok buf ->
  JsString.includes (lit "IntrospectionQuery") (Buffer_toString buf) = false ->
  cp_get (JStr (key_of buf)) (cache w) = (Ok entry, st1) ->
  (forall nc, no_cache (ctx w) = Ok nc ->
     authorized_bypass (ctx w) = true ->
     middleware config next w =
       (fst (next (cloned (ctx w) buf)),
        mkWorld (snd (next (cloned (ctx w) buf)))
                (logged st1 Info (lit "Authorized request bypassing cache: " ++ key_of buf))
                (trace w ++ [CacheGet (key_of buf); Next])))
  /\ (forall c',
        no_cache (ctx w) = Ok true ->
        authorized_bypass (ctx w) = false ->
        next (cloned (ctx w) buf) = (Ok tt, c') ->
        (storable (request_url (ctx_request (ctx w))) c' = false ->
           middleware config next w =
             (Ok tt, mkWorld c' st1 (trace w ++ [CacheGet (key_of buf); Next])))
        /\ (forall v r st2,
              storable (request_url (ctx_request (ctx w))) c' = true ->
              authorized_bypass c' = false ->
              ctx_body c' = Materialized v ->
              let stored :=
                entry_of v (getHeadersToStore c' (cacheHeaders config)
                              (cacheHeadersAllowList config) (cacheHeadersDenyList config)) in
              cp_set (JStr (key_of buf)) stored
                     (logged st1 Info (lit "MISS with key: " ++ key_of buf)) = (r, st2) ->
              middleware config next w =
                (match r with Ok _ => Ok tt | Throw e => Throw e end,
                 mkWorld c' st2
                         (trace w ++ [CacheGet (key_of buf); Next; CacheSet (key_of buf) stored])))).
Proof.
  intros B I G. split.
  - intros nc N A. run_to_lookup B I G. unfold no_cache in N. unfold authorized_bypass in A.
    destruct (truthy (cache_control (ctx w))); [rewrite N|]; step;
      rewrite A; step; fold (cloned (ctx w) buf);
      destruct (next (cloned (ctx w) buf)); unfold logged;
      rewrite <- List.app_assoc; reflexivity.
  - intros c' N A X. unfold no_cache in N. unfold authorized_bypass in A.
    destruct (truthy (cache_control (ctx w))) eqn:TC; [|discriminate N].
    split.
    + intros S. run_to_lookup B I G. rewrite TC, N. step. rewrite A. step.
      rewrite andb_false_r. step. fold (cloned (ctx w) buf). rewrite X. step.
      unfold storable in S. rewrite S. step.
      rewrite <- List.app_assoc; reflexivity.
    + intros v r st2 S A' Bd stored St. run_to_lookup B I G. rewrite TC, N. step. rewrite A. step.
      rewrite andb_false_r. step. fold (cloned (ctx w) buf). rewrite X. step.
      unfold storable in S. rewrite S. step.
      unfold authorized_bypass in A'. rewrite A'. step.
      rewrite Bd. step. unfold logged in St. fold stored. rewrite St. step.
      destruct r; rewrite <- !List.app_assoc; reflexivity.
Qed.

End Runs.

(** *** Runs on the memory provider *)

#[local] Existing Instance Memory.memory_provider.
#[local] Existing Instance Models.list_lru.
#[local] Existing Instance Models.host.

(** A query for the articles. *)
Definition articles_query : jsstring :=
  lit "{" ++ quoted "query" ++ lit ":" ++ quoted "{ articles { id } }" ++ lit "}".

(** An ordinary query that mentions [IntrospectionQuery] in a string
    literal. *)
Definition literal_query : jsstring :=
  lit "{" ++ quoted "query" ++ lit ":" ++ [34]
    ++ lit "{ articles(filters: { title: { eq: " ++ [92; 34] ++ lit "IntrospectionQuery"
    ++ [92; 34] ++ lit " } }) { id } }" ++ [34] ++ lit "}".

(** A POST to [/graphql] with the given headers and body, before any
    stage has answered. *)
Definition graphql_request (headers : jsobj) (body : jsstring) : Ctx :=
  let raw := mkRaw headers (lit "POST") (lit "/graphql") (lit "1.1") JNull JNull
                   [utf8_encode body] in
  mkCtx raw (mkKoaRequest (lit "/graphql") headers raw) (lit "POST") 404
        (Materialized JUndefined) [].

(** The rest of the pipeline answers with the given status and a JSON
    text. *)
Definition respond (status : Z) (data : jsstring) (c : Ctx) : Outcome unit * Ctx :=
  (Ok tt,
   ctx_set (JObj [(lit "content-type", JStr (lit "application/json"))])
           (set_body (Materialized (JStr data)) (set_status status c))).

Definition articles_data : jsstring :=
  lit "{" ++ quoted "data" ++ lit ":{" ++ quoted "articles" ++ lit ":[]}}".

(** Header caching on, no lists, authorized requests not cached. *)
Definition header_config : CacheHeaderConfig := mkHeaderConfig true [] [] false.

Definition world (c : Ctx) (st : Store (Memory.InMemoryCacheProvider Models.LruState)) :
    World (Memory.InMemoryCacheProvider Models.LruState) :=
  mkWorld c st [].

Definition articles_key : jsstring := Key.generateGraphqlCacheKey articles_query.

Definition articles_entry : jsval :=
  entry_of (JStr articles_data) [(lit "content-type", JStr (lit "application/json"))].

(** The provider after a first, plain request for the articles that was
    answered with [status]. *)
Definition warm_cache (status : Z) : Store (Memory.InMemoryCacheProvider Models.LruState) :=
  cache (snd (middleware header_config (respond status articles_data)
                (world (graphql_request [] articles_query) ProviderFacts.ready_memory))).

Example first_request_is_stored :
  trace (snd (middleware header_config (respond 200 articles_data)
                (world (graphql_request [] articles_query) ProviderFacts.ready_memory)))
  = [CacheGet articles_key; Next; CacheSet articles_key articles_entry].
Proof. vm_compute. reflexivity. Qed.

Lemma introspection_witness :
  middleware header_config (respond 200 articles_data)
    (world (graphql_request [] literal_query) ProviderFacts.ready_memory)
  = (Ok tt,
     mkWorld (snd (respond 200 articles_data
                     (cloned (graphql_request [] literal_query) (utf8_encode literal_query))))
             (logged ProviderFacts.ready_memory Info
                     (lit "Skipping cache for introspection query"))
             [Next]).
Proof.
  apply (introspection_bypasses_cache header_config (respond 200 articles_data)
           (world (graphql_request [] literal_query) ProviderFacts.ready_memory)
           (utf8_encode literal_query));
    vm_compute; reflexivity.
Defined.

(** *** C2: the claim as stated, and two requests that refute it *)

Definition bypass_requested (config : CacheHeaderConfig) (c : Ctx) : Prop :=
  no_cache c = Ok true \/ authorized_bypass config c = true.

(** C2 as the specification states it: a request that asks for a bypass
    causes no call to the cache service. *)
Definition bypass_skips_cache {P : Type} `{CacheProvider P} `{Host}
    (config : CacheHeaderConfig) (next : Ctx -> Outcome unit * Ctx) (w : World P) : Prop :=
  bypass_requested config (ctx w) ->
  cache_calls (trace (snd (middleware config next w))) = cache_calls (trace w).

Definition authorized_world : World (Memory.InMemoryCacheProvider Models.LruState) :=
  world (graphql_request [(lit "authorization", JStr (lit "Bearer test-token"))] articles_query)
        ProviderFacts.ready_memory.

Definition no_cache_world : World (Memory.InMemoryCacheProvider Models.LruState) :=
  world (graphql_request [(lit "cache-control", JStr (lit "no-cache"))] articles_query)
        (warm_cache 200).

Example authorized_request_is_looked_up :
  trace (snd (middleware header_config (respond 200 articles_data) authorized_world))
  = [CacheGet articles_key; Next].
Proof. vm_compute. reflexivity. Qed.

Example no_cache_request_is_stored :
  trace (snd (middleware header_config (respond 200 articles_data) no_cache_world))
  = [CacheGet articles_key; Next; CacheSet articles_key articles_entry].
Proof. vm_compute. reflexivity. Qed.

(** Against C2 as stated: the authorized request causes a lookup; the
    [no-cache] request causes a lookup and a store. *)
Lemma bypass_does_not_skip_cache :
  ~ bypass_skips_cache header_config (respond 200 articles_data) authorized_world
  /\ ~ bypass_skips_cache header_config (respond 200 articles_data) no_cache_world.
Proof.
  split; intros claim.
  - specialize (claim (or_intror eq_refl)).
    rewrite authorized_request_is_looked_up in claim. discriminate claim.
  - specialize (claim (or_introl eq_refl)).
    rewrite no_cache_request_is_stored in claim. discriminate claim.
Qed.

Lemma bypass_witness :
  middleware header_config (respond 200 articles_data) authorized_world
  = (Ok tt,
     mkWorld (snd (respond 200 articles_data
                     (cloned (ctx authorized_world) (utf8_encode articles_query))))
             (logged ProviderFacts.ready_memory Info
                     (lit "Authorized request bypassing cache: " ++ articles_key))
             [CacheGet articles_key; Next])
  /\ trace (snd (middleware header_config (respond 200 articles_data) no_cache_world))
     = [CacheGet articles_key; Next; CacheSet articles_key articles_entry].
Proof.
  split.
  - destruct (bypass_reads_then_passes_through header_config (respond 200 articles_data)
                authorized_world (utf8_encode articles_query) JUndefined
                ProviderFacts.ready_memory) as [Ha _];
      [vm_compute; reflexivity ..|].
    apply (Ha false); vm_compute; reflexivity.
  - destruct (bypass_reads_then_passes_through header_config (respond 200 articles_data)
                no_cache_world (utf8_encode articles_query) articles_entry
                (snd (cp_get (JStr articles_key) (warm_cache 200)))) as [_ Hb];
      [vm_compute; reflexivity ..|].
    destruct (Hb (snd (respond 200 articles_data
                         (cloned (ctx no_cache_world) (utf8_encode articles_query)))))
      as [_ Hs]; [vm_compute; reflexivity ..|].
    rewrite (Hs (JStr articles_data) (Ok RCache)
                (snd (cp_set (JStr articles_key) articles_entry
                        (logged (snd (cp_get (JStr articles_key) (warm_cache 200))) Info
                                (lit "MISS with key: " ++ articles_key)))));
      [cbn [snd trace app]; reflexivity | vm_compute; reflexivity ..].
Defined.

(** *** C7: the claim as stated, and a run that refutes it *)

Definition stores (t : list Event) : bool :=
  List.existsb (fun e => match e with CacheSet _ _ => true | _ => false end) t.

Definition invokes_next (t : list Event) : bool :=
  List.existsb (fun e => match e with Next => true | _ => false end) t.

(** C7 as the specification states it, for its last part: when a first
    request is answered by the pipeline and stored, and the same request
    then hits the cache, the hit has the status of the first answer. *)
Definition hit_replays_original_status {P : Type} `{CacheProvider P} `{Host}
    (config : CacheHeaderConfig) (next : Ctx -> Outcome unit * Ctx) (w : World P) : Prop :=
  let first := snd (middleware config next w) in
  let second := snd (middleware config next (mkWorld (ctx w) (cache first) [])) in
  stores (trace first) = true ->
  invokes_next (trace second) = false ->
  ctx_status (ctx second) = ctx_status (ctx first).

Definition plain_world : World (Memory.InMemoryCacheProvider Models.LruState) :=
  world (graphql_request [] articles_query) ProviderFacts.ready_memory.

Definition warm_world (status : Z) : World (Memory.InMemoryCacheProvider Models.LruState) :=
  world (graphql_request [] articles_query) (warm_cache status).

Example created_then_hit :
  ctx_status (ctx (snd (middleware header_config (respond 201 articles_data) plain_world)))
    = 201%Z
  /\ trace (snd (middleware header_config (respond 201 articles_data) (warm_world 201)))
     = [CacheGet articles_key]
  /\ ctx_status (ctx (snd (middleware header_config (respond 201 articles_data)
                             (warm_world 201)))) = 200%Z.
Proof. vm_compute. repeat split. Qed.

(** Against C7 as stated: a response with status 201 is stored and
    replayed with status 200. *)
Lemma hit_status_is_not_the_original :
  ~ hit_replays_original_status header_config (respond 201 articles_data) plain_world.
Proof.
  intros claim.
  assert (ctx_status
            (ctx (snd (middleware header_config (respond 201 articles_data) (warm_world 201))))
          = 201%Z) as E.
  { destruct created_then_hit as (E1 & E2 & _).
    rewrite <- E1. apply claim.
    - vm_compute. reflexivity.
    - change (mkWorld (ctx plain_world)
                (cache (snd (middleware header_config (respond 201 articles_data) plain_world)))
                []) with (warm_world 201).
      now rewrite E2. }
  destruct created_then_hit as (_ & _ & E3). rewrite E3 in E. discriminate E.
Qed.

(** The rest of the pipeline answers with a null body and then assigns
    the status 200. *)
Definition respond_null (c : Ctx) : Outcome unit * Ctx :=
  (Ok tt, set_status 200 (set_body (Materialized JNull) c)).

Definition null_entry : jsval := entry_of JNull [].

Definition null_world : World (Memory.InMemoryCacheProvider Models.LruState) :=
  world (graphql_request [] articles_query)
        (cache (snd (middleware header_config respond_null plain_world))).

Example null_body_is_stored :
  ctx_status (ctx (snd (middleware header_config respond_null plain_world))) = 200%Z
  /\ trace (snd (middleware header_config respond_null plain_world))
     = [CacheGet articles_key; Next; CacheSet articles_key null_entry].
Proof. vm_compute. split; reflexivity. Qed.

Lemma hit_witness :
  (trace (snd (middleware header_config (respond 201 articles_data) (warm_world 201)))
   = [CacheGet articles_key]
   /\ ctx_status (ctx (snd (middleware header_config (respond 201 articles_data)
                              (warm_world 201)))) = 200%Z
   /\ obj_get (ctx_response_headers
                 (ctx (snd (middleware header_config (respond 201 articles_data)
                              (warm_world 201)))))
              (lit "content-type") = JStr (lit "application/json"))
  /\ ctx_status (ctx (snd (middleware header_config respond_null null_world))) = 204%Z.
Proof.
  split.
  - destruct (hit_replays_entry header_config (respond 201 articles_data) (warm_world 201)
                (utf8_encode articles_query) articles_entry
                (snd (cp_get (JStr articles_key) (warm_cache 201))))
      as (_ & Tr & _ & St & _ & Hd);
      [vm_compute; reflexivity ..| |].
    + intros _. exists [(lit "content-type", JStr (lit "application/json"))].
      split; [reflexivity|]. split; [|reflexivity]. repeat constructor. intros [].
    + split; [exact Tr|]. split; [apply St; reflexivity|].
      apply (Hd eq_refl [(lit "content-type", JStr (lit "application/json"))]);
        [reflexivity|left; reflexivity].
  - destruct (hit_replays_entry header_config respond_null null_world
                (utf8_encode articles_query) null_entry
                (snd (cp_get (JStr articles_key) (cache null_world))))
      as (_ & _ & _ & _ & St & _);
      [vm_compute; reflexivity ..| |].
    + intros _. exists []. split; [reflexivity|]. split; [constructor|reflexivity].
    + apply St; reflexivity.
Defined.

End MiddlewareFacts.

(* ===================================================================== *)
(** * Further properties of the code *)
(* ===================================================================== *)

(** ** The shape of the keys *)

Module KeyShape.
Import Key.

(** The characters of base64url: letters, digits, [-] and [_]. *)
Definition url_safe (c : jschar) : bool :=
  ((65 <=? c) && (c <=? 90)) || ((97 <=? c) && (c <=? 122))
  || ((48 <=? c) && (c <=? 57)) || (c =? 45) || (c =? 95).

Lemma b64url_char_safe (i : N) : url_safe (Sha256.b64url_char i) = true.
Proof.
  unfold url_safe, Sha256.b64url_char.
  destruct (i <? 26) eqn:E1; [apply N.ltb_lt in E1|apply N.ltb_ge in E1].
  { replace ((65 <=? 65 + i) && (65 + i <=? 90)) with true; [reflexivity|].
    symmetry. apply andb_true_intro. split; apply N.leb_le; lia. }
  destruct (i <? 52) eqn:E2; [apply N.ltb_lt in E2|apply N.ltb_ge in E2].
  { replace ((97 <=? 97 + (i - 26)) && (97 + (i - 26) <=? 122)) with true;
      [now rewrite orb_true_r|].
    symmetry. apply andb_true_intro. split; apply N.leb_le; lia. }
  destruct (i <? 62) eqn:E3; [apply N.ltb_lt in E3|apply N.ltb_ge in E3].
  { replace ((48 <=? 48 + (i - 52)) && (48 + (i - 52) <=? 57)) with true;
      [now rewrite !orb_true_r|].
    symmetry. apply andb_true_intro. split; apply N.leb_le; lia. }
  destruct (i =? 62); reflexivity.
Qed.

(** Induction over a list three elements at a time. *)
Lemma list_ind3 {A : Type} (P : list A -> Prop) :
  P [] -> (forall a, P [a]) -> (forall a b, P [a; b]) ->
  (forall a b c l, P l -> P (a :: b :: c :: l)) ->
  forall l, P l.
Proof.
  intros P0 P1 P2 P3.
  fix IH 1. intros [|a [|b [|c l]]]; [exact P0|apply P1|apply P2|apply P3, IH].
Qed.

Lemma base64url_safe (bs : list N) :
  List.forallb url_safe (Sha256.base64url bs) = true.
Proof.
  induction bs as [|a|a b|a b c l IH] using list_ind3;
    cbn [Sha256.base64url app List.forallb]; rewrite ?b64url_char_safe; trivial.
Qed.

Lemma base64url_length (bs : list N) :
  List.length (Sha256.base64url bs) = ((4 * List.length bs + 2) / 3)%nat.
Proof.
  induction bs as [|a|a b|a b c l IH] using list_ind3; try reflexivity.
  cbn [Sha256.base64url app List.length]. rewrite IH.
  replace (4 * S (S (S (List.length l))) + 2)%nat
    with ((4 * List.length l + 2) + 4 * 3)%nat by lia.
  rewrite Nat.div_add by lia. lia.
Qed.

Lemma be_bytes_length (n : nat) (x : N) : List.length (Sha256.be_bytes n x) = n.
Proof. induction n as [|n IH]; simpl; [reflexivity|now rewrite IH]. Qed.

Lemma blocks_length (n : nat) (h bs : list N) :
  List.length h = 8%nat -> List.length (Sha256.blocks n h bs) = 8%nat.
Proof.
  revert h bs; induction n as [|n IH]; intros h bs L; [exact L|].
  destruct bs as [|b bs]; [exact L|].
  cbn [Sha256.blocks]. apply IH. reflexivity.
Qed.

(** The digest has 32 bytes. *)
Lemma digest_length (msg : list N) : List.length (Sha256.digest msg) = 32%nat.
Proof.
  unfold Sha256.digest.
  pose proof (blocks_length (List.length (Sha256.pad msg)) Sha256.H0 (Sha256.pad msg) eq_refl)
    as L.
  destruct (Sha256.blocks _ _ _) as [|a [|b [|c [|d [|e [|f [|g [|h [|]]]]]]]]];
    try discriminate L.
  cbn [List.map List.concat]. rewrite !List.length_app, !be_bytes_length. reflexivity.
Qed.

Lemma hash_shape (s : jsstring) :
  List.length (Sha256.sha256_base64url s) = 43%nat
  /\ List.forallb url_safe (Sha256.sha256_base64url s) = true.
Proof.
  unfold Sha256.sha256_base64url. split; [|apply base64url_safe].
  now rewrite base64url_length, digest_length.
Qed.

(** Every REST key is [cache:] followed by 43 URL-safe characters, every
    GraphQL key is [graphql:] followed by 43 URL-safe characters, and no
    REST key is a GraphQL key. *)
Theorem keys_have_fixed_shape (context : Context) (payload : jsstring) :
  (exists h, generateCacheKey context = lit "cache:" ++ h
             /\ List.length h = 43%nat /\ List.forallb url_safe h = true)
  /\ (exists h, generateGraphqlCacheKey payload = lit "graphql:" ++ h
                /\ List.length h = 43%nat /\ List.forallb url_safe h = true)
  /\ List.length (generateCacheKey context) = 49%nat
  /\ generateCacheKey context <> generateGraphqlCacheKey payload.
Proof.
  unfold generateCacheKey, generateGraphqlCacheKey.
  destruct (hash_shape (keyData context)) as [L1 S1].
  destruct (hash_shape (sanitize payload)) as [L2 S2].
  repeat split.
  - eexists. repeat split; eassumption.
  - eexists. repeat split; eassumption.
  - rewrite List.length_app, L1. reflexivity.
  - change (lit "cache:") with (99 :: lit "ache:").
    change (lit "graphql:") with (103 :: lit "raphql:").
    cbn [app]. intros E. injection E as E _. discriminate E.
Qed.

End KeyShape.

(** ** What the redaction masks and what it leaves *)

Module RedactionMore.
Import Regex Key RedactionFacts.

Lemma miss_without_quote (c : jschar) (s : jsstring) :
  is_quote c = false -> matchLen password_re (c :: s) = None.
Proof.
  intros Q. rewrite password_re_eq, matchLen_literal.
  change prefix with (34 :: lit "password" ++ [34] ++ lit ":").
  cbn [startsWith]. unfold jschar_eqb. unfold is_quote in Q.
  rewrite N.eqb_sym, Q. reflexivity.
Qed.

(** Text without a double quote is copied. *)
Lemma sanitize_quote_free (u s : jsstring) :
  List.forallb not_quote u = true -> sanitize (u ++ s) = u ++ sanitize s.
Proof.
  induction u as [|c u IH]; cbn [List.forallb app]; [reflexivity|].
  intros F. apply andb_prop in F as [F1 F2].
  rewrite sanitize_miss, IH; trivial.
  apply miss_without_quote. now apply not_quote_not_quote.
Qed.

Lemma body_match (v post : jsstring) :
  List.forallb not_quote v = true ->
  matchLen body_re (v ++ [34] ++ post) = Some (List.length v + 1)%nat.
Proof.
  unfold body_re. induction v as [|c v IH]; cbn [List.forallb app List.length].
  - intros _. rewrite (matchLen_star_chr _ _ _ _ _ not_quote_not_quote). reflexivity.
  - intros F. apply andb_prop in F as [F1 F2].
    rewrite (matchLen_star_chr _ _ _ _ _ not_quote_not_quote), F1.
    cbn [app] in IH. now rewrite IH.
Qed.

Lemma tail_match (ws v post : jsstring) :
  List.forallb is_space ws = true ->
  List.forallb not_quote v = true ->
  matchLen tail_re (ws ++ [34] ++ v ++ [34] ++ post)
  = Some (List.length ws + (1 + (List.length v + 1)))%nat.
Proof.
  intros W V. unfold tail_re.
  induction ws as [|c ws IH]; cbn [List.forallb app List.length] in *.
  - rewrite (matchLen_star_chr _ _ _ _ _ space_not_quote).
    change (is_space 34) with false. cbv iota.
    rewrite matchLen_chr_cons. change (is_quote 34) with true. cbv iota.
    fold body_re. change (v ++ 34 :: post) with (v ++ [34] ++ post).
    now rewrite body_match.
  - apply andb_prop in W as [W1 W2].
    rewrite (matchLen_star_chr _ _ _ _ _ space_not_quote), W1.
    now rewrite (IH W2).
Qed.

Lemma startsWith_self (p s : jsstring) : startsWith p (p ++ s) = true.
Proof.
  induction p as [|a p IH]; [reflexivity|].
  cbn [startsWith app]. unfold jschar_eqb. now rewrite N.eqb_refl, IH.
Qed.

(** A member named [password] whose value holds no double quote. *)
Definition member (ws v : jsstring) : jsstring := prefix ++ ws ++ [34] ++ v ++ [34].

Lemma member_match (ws v post : jsstring) :
  List.forallb is_space ws = true ->
  List.forallb not_quote v = true ->
  matchLen password_re (member ws v ++ post) = Some (List.length (member ws v)).
Proof.
  intros W V. unfold member. rewrite password_re_eq, matchLen_literal.
  rewrite <- !List.app_assoc, startsWith_self.
  rewrite List.skipn_app, List.skipn_all, Nat.sub_diag, List.skipn_O. cbn [app].
  change (ws ++ 34 :: v ++ 34 :: post) with (ws ++ [34] ++ v ++ [34] ++ post).
  rewrite (tail_match ws v post W V). cbn [fmap option_fmap option_map].
  f_equal. repeat (rewrite ?List.length_app; cbn [List.length]). lia.
Qed.

Lemma sanitize_member (ws v post : jsstring) :
  List.forallb is_space ws = true ->
  List.forallb not_quote v = true ->
  sanitize (member ws v ++ post) = password_mask ++ sanitize post.
Proof.
  intros W V. rewrite (sanitize_hit _ _ (member_match ws v post W V)).
  now rewrite List.skipn_app, List.skipn_all, Nat.sub_diag.
Qed.

(** Where the text before it holds no double quote, a [password] member
    is replaced by the mask whatever its value and the white space before
    it, so the payload has the key of the payload with the mask in place
    of the member. *)
Theorem password_member_is_masked (pre ws v post : jsstring) :
  List.forallb not_quote pre = true ->
  List.forallb is_space ws = true ->
  List.forallb not_quote v = true ->
  sanitize (pre ++ member ws v ++ post) = pre ++ password_mask ++ sanitize post
  /\ generateGraphqlCacheKey (pre ++ member ws v ++ post)
     = generateGraphqlCacheKey (pre ++ password_mask ++ post).
Proof.
  intros P W V.
  assert (sanitize (pre ++ member ws v ++ post) = pre ++ password_mask ++ sanitize post) as E1.
  { now rewrite (sanitize_quote_free _ _ P), (sanitize_member ws v post W V). }
  assert (sanitize (pre ++ password_mask ++ post) = pre ++ password_mask ++ sanitize post) as E2.
  { rewrite (sanitize_quote_free _ _ P).
    change password_mask with (member [] (lit "***")) at 1.
    now rewrite sanitize_member. }
  split; [exact E1|]. unfold generateGraphqlCacheKey. now rewrite E1, E2.
Qed.

Lemma password_member_witness :
  generateGraphqlCacheKey (lit "{" ++ member (lit "  ") (lit "secret123") ++ lit "}")
  = generateGraphqlCacheKey (lit "{" ++ password_mask ++ lit "}").
Proof.
  apply (password_member_is_masked (lit "{") (lit "  ") (lit "secret123") (lit "}"));
    reflexivity.
Defined.

(** The value of a [password] member ends at its first double quote, also
    when that quote is escaped: what follows an escaped quote stays in the
    text that is hashed. *)
Theorem escaped_quote_ends_the_mask (pre ws v1 v2 post : jsstring) :
  List.forallb not_quote pre = true ->
  List.forallb is_space ws = true ->
  List.forallb not_quote v1 = true ->
  List.forallb not_quote v2 = true ->
  sanitize (pre ++ prefix ++ ws ++ [34] ++ v1 ++ [92; 34] ++ v2 ++ [34] ++ post)
  = pre ++ password_mask ++ v2 ++ sanitize ([34] ++ post).
Proof.
  intros P W V1 V2.
  assert (List.forallb not_quote (v1 ++ [92]) = true) as V.
  { rewrite List.forallb_app, V1. reflexivity. }
  replace (prefix ++ ws ++ [34] ++ v1 ++ [92; 34] ++ v2 ++ [34] ++ post)
    with (member ws (v1 ++ [92]) ++ v2 ++ [34] ++ post)
    by (unfold member; now rewrite <- !List.app_assoc).
  rewrite (sanitize_quote_free _ _ P), (sanitize_member _ _ _ W V).
  now rewrite (sanitize_quote_free _ _ V2).
Qed.

Lemma escaped_quote_witness :
  sanitize (lit "{" ++ prefix ++ [34] ++ lit "ab" ++ [92; 34] ++ lit "cd" ++ [34] ++ lit "}")
  = lit "{" ++ password_mask ++ lit "cd" ++ [34] ++ lit "}".
Proof.
  exact (escaped_quote_ends_the_mask (lit "{") [] (lit "ab") (lit "cd") (lit "}")
           eq_refl eq_refl eq_refl eq_refl).
Defined.

(** A payload in which the quoted name [password] followed by a colon
    does not occur is hashed as it is. *)
Theorem payload_without_password_is_kept (payload : jsstring) :
  JsString.includes prefix payload = false -> sanitize payload = payload.
Proof.
  induction payload as [|c s IH]; [reflexivity|].
  cbn [JsString.includes]. intros E. apply orb_false_elim in E as [E1 E2].
  rewrite sanitize_miss, (IH E2); [reflexivity|].
  rewrite password_re_eq, matchLen_literal. now rewrite E1.
Qed.

(** [queryWithPassword] of the test script: the name [password] is not
    between double quotes there. *)
Definition queryWithPassword : jsstring :=
  lit "{" ++ quoted "query" ++ lit ":" ++ [34]
    ++ lit "mutation { login(email: " ++ quoted "test@example.com"
    ++ lit ", password: " ++ quoted "secret123" ++ lit ") { token } }" ++ [34] ++ lit "}".

Lemma payload_without_password_witness : sanitize queryWithPassword = queryWithPassword.
Proof. apply (payload_without_password_is_kept queryWithPassword). reflexivity. Defined.

End RedactionMore.

(** ** The providers: what they never do, and what [init] accepts *)

Module ProviderMore.

(** A computation that never throws. *)
Definition resolves {W A : Type} (m : Eff W A) : Prop :=
  forall w, exists a w', m w = (Ok a, w').

Section Resolves.
Context {W : Type}.

Lemma resolves_ret {A : Type} (a : A) : resolves (W := W) (ret a).
Proof. intros w. now exists a, w. Qed.

Lemma resolves_gets {A : Type} (f : W -> A) : resolves (gets f).
Proof. intros w. now exists (f w), w. Qed.

Lemma resolves_modify (f : W -> W) : resolves (modify f).
Proof. intros w. now exists tt, (f w). Qed.

Lemma resolves_bind {A B : Type} (m : Eff W A) (k : A -> Eff W B) :
  resolves m -> (forall a, resolves (k a)) -> resolves (m ≫= k).
Proof.
  intros Hm Hk w. unfold mbind, eff_bind, bind.
  destruct (Hm w) as (a & w1 & ->). apply Hk.
Qed.

(** A [try] whose handler never throws never throws. *)
Lemma resolves_try_catch {A : Type} (m : Eff W A) (h : jserror -> Eff W A) :
  (forall e, resolves (h e)) -> resolves (try_catch m h).
Proof.
  intros Hh w. unfold try_catch. destruct (m w) as [[a|e] w1]; [now exists a, w1|apply Hh].
Qed.

End Resolves.

Lemma resolves_loggy {P : Type} (l : level) (msg : jsstring) : resolves (loggy (P := P) l msg).
Proof. apply resolves_modify. Qed.

Ltac resolve :=
  repeat first
    [ apply resolves_ret | apply resolves_gets | apply resolves_loggy
    | apply resolves_try_catch; intros ?
    | apply resolves_bind; [|intros ?]
    | match goal with
      | |- resolves (if ?b then _ else _) => destruct b
      | |- resolves (match ?x with _ => _ end) => destruct x
      end ].

Section MemoryResolves.
Context {S : Type} `{Memory.LRUCache S}.

Lemma memory_del_resolves (key : jsval) : resolves (Memory.del key).
Proof. unfold Memory.del. resolve. Qed.

Lemma memory_del_all_resolves (ks : list jsstring) : resolves (Memory.del_all ks).
Proof.
  induction ks as [|k ks IH]; cbn [Memory.del_all]; [apply resolves_ret|].
  apply resolves_bind; [apply memory_del_resolves|intros _; exact IH].
Qed.

Lemma memory_keys_resolves : resolves Memory.keys.
Proof. unfold Memory.keys. resolve. Qed.

(** No data operation of the memory provider throws, in any state and
    whatever the LRU cache does: its errors are logged and turned into
    [null]. *)
Theorem memory_operations_never_throw :
  (forall key, resolves (Memory.get key))
  /\ (forall key val, resolves (Memory.set key val))
  /\ (forall key, resolves (Memory.del key))
  /\ resolves Memory.keys
  /\ resolves Memory.reset
  /\ (forall regExps, resolves (Memory.clearByRegexp regExps)).
Proof.
  repeat split; intros.
  - intros st. destruct (ProviderFacts.memory_get_resolves key st) as (v & st' & E).
    now exists v, st'.
  - unfold Memory.set. resolve.
  - apply memory_del_resolves.
  - apply memory_keys_resolves.
  - unfold Memory.reset. resolve.
  - unfold Memory.clearByRegexp. resolve.
Qed.

End MemoryResolves.

Section RedisResolves.
Context {R : Type} `{Redis.RedisClient R} (JSON_parse : jsstring -> Outcome jsval).

Lemma redis_del_resolves (key : jsval) : resolves (Redis.del key).
Proof. unfold Redis.del. resolve. Qed.

(** No data operation of the Redis provider throws, in any state and
    whatever the client answers: a rejected command, a missed deadline
    and text that does not parse are logged and turned into [null]. *)
Theorem redis_operations_never_throw :
  (forall key, resolves (Redis.get JSON_parse key))
  /\ (forall key val, resolves (Redis.set key val))
  /\ (forall key, resolves (Redis.del key))
  /\ resolves Redis.keys
  /\ resolves Redis.reset
  /\ (forall regExps, resolves (Redis.clearByRegexp regExps)).
Proof.
  repeat split; intros.
  - unfold Redis.get. resolve.
  - unfold Redis.set. resolve.
  - apply redis_del_resolves.
  - unfold Redis.keys. resolve.
  - unfold Redis.reset. resolve.
  - unfold Redis.clearByRegexp. resolve.
Qed.

End RedisResolves.

(** *** What [init] accepts *)

(** A configured value below zero. *)
Definition negative (v : option Z) : bool :=
  match v with
  | Some z => (z <? 0)%Z
  | None => false
  end.

Lemma Number_or_sign (v : option Z) (d : Z) :
  (0 < d)%Z ->
  (Number_or v d <=? 0)%Z = negative v /\ (Number_or v d <? 0)%Z = negative v.
Proof.
  intros D. destruct v as [z|]; cbn [Number_or negative].
  - destruct (z =? 0)%Z eqn:E.
    + apply Z.eqb_eq in E as ->. split; [apply Z.leb_gt|apply Z.ltb_ge]; lia.
    + apply Z.eqb_neq in E. split; [|reflexivity].
      destruct (z <? 0)%Z eqn:L; [apply Z.leb_le; apply Z.ltb_lt in L|
                                   apply Z.leb_gt; apply Z.ltb_ge in L]; lia.
  - split; [apply Z.leb_gt|apply Z.ltb_ge]; lia.
Qed.

Lemma timeout_positive (v : option Z) :
  (0 < (if (Number_or v 1000 <=? 0)%Z then 1000 else Number_or v 1000))%Z.
Proof. destruct (Number_or v 1000 <=? 0)%Z eqn:E; [lia|now apply Z.leb_gt in E]. Qed.

Section MemoryInit.
Context {S : Type} `{Memory.LRUCache S}.

(** The options [init] builds: a configured 0, like an absent value, is
    replaced by the default. *)
Definition effective_options (cfg : PluginConfig) : Memory.LRUOptions :=
  Memory.mkLRUOptions (Number_or (cfg_max cfg) 1000) (Number_or (cfg_ttl cfg) (1000 * 60 * 60))
                      (Number_or (cfg_size cfg) (1024 * 1024 * 10))
                      (default false (cfg_allowStale cfg) || false) true true.

Definition init_failed (st : Store (Memory.InMemoryCacheProvider S)) (e : jserror) :
    Store (Memory.InMemoryCacheProvider S) :=
  mkStore (this st)
          (log st ++ [(Err, lit "Failed to initialize provider: " ++ error_to_string e)]).

Lemma memory_init_cases (st : Store (Memory.InMemoryCacheProvider S)) :
  Memory.initialized (this st) = false ->
  let cfg := Memory.strapi (this st) in
  Memory.init st =
    if negative (cfg_max cfg) then
      (Throw (Error (lit "max must be greater than 0")),
       init_failed st (Error (lit "max must be greater than 0")))
    else if negative (cfg_ttl cfg) then
      (Throw (Error (lit "ttl must be non-negative")),
       init_failed st (Error (lit "ttl must be non-negative")))
    else if negative (cfg_size cfg) then
      (Throw (Error (lit "size must be greater than 0")),
       init_failed st (Error (lit "size must be greater than 0")))
    else
      match Memory.lru_new (effective_options cfg) with
      | Ok c =>
          (Ok tt,
           mkStore (Memory.mkMemory cfg true (Some c)
                      (Some (if (Number_or (cfg_cacheGetTimeoutInMs cfg) 1000 <=? 0)%Z
                             then 1000%Z
                             else Number_or (cfg_cacheGetTimeoutInMs cfg) 1000)))
                   (log st ++ [(Info, lit "Provider initialized")]))
      | Throw e => (Throw e, init_failed st e)
      end.
Proof.
  intros I cfg.
  unfold Memory.init, mbind, eff_bind, bind, gets, try_catch, loggy, set_this, modify, throw,
    lift_outcome, init_failed.
  rewrite I. fold cfg.
  destruct (Number_or_sign (cfg_max cfg) 1000 ltac:(lia)) as [-> _].
  destruct (Number_or_sign (cfg_ttl cfg) (1000 * 60 * 60) ltac:(lia)) as [_ ->].
  destruct (Number_or_sign (cfg_size cfg) (1024 * 1024 * 10) ltac:(lia)) as [-> _].
  fold (effective_options cfg).
  destruct (negative (cfg_max cfg)); [reflexivity|].
  destruct (negative (cfg_ttl cfg)); [reflexivity|].
  destruct (negative (cfg_size cfg)); [reflexivity|].
  destruct (Memory.lru_new (effective_options cfg)); reflexivity.
Qed.

Lemma memory_init_again (st : Store (Memory.InMemoryCacheProvider S)) :
  Memory.initialized (this st) = true ->
  Memory.init st
  = (Ok tt, mkStore (this st) (log st ++ [(Err, lit "Provider already initialized")])).
Proof.
  intros I. unfold Memory.init, mbind, eff_bind, bind, gets, loggy, modify.
  now rewrite I.
Qed.

(** [init] of a provider that is not initialized fails exactly when the
    configured max, ttl or size is negative (the first such rule names the
    error) or when the constructor of the cache throws; a failure leaves
    the provider as it was.  When it succeeds the provider is ready, holds
    the cache built from the effective options and has a positive read
    timeout, and a further [init] only logs an error. *)
Theorem memory_init_outcome (st : Store (Memory.InMemoryCacheProvider S)) :
  Memory.initialized (this st) = false ->
  let cfg := Memory.strapi (this st) in
  (fst (Memory.init st) = Ok tt ->
     negative (cfg_max cfg) = false /\ negative (cfg_ttl cfg) = false
     /\ negative (cfg_size cfg) = false
     /\ (exists c t,
           Memory.lru_new (effective_options cfg) = Ok c
           /\ this (snd (Memory.init st)) = Memory.mkMemory cfg true (Some c) (Some t)
           /\ (0 < t)%Z)
     /\ Memory.ready (this (snd (Memory.init st))) = true
     /\ Memory.init (snd (Memory.init st))
        = (Ok tt, mkStore (this (snd (Memory.init st)))
                          (log (snd (Memory.init st))
                             ++ [(Err, lit "Provider already initialized")])))
  /\ (forall e, fst (Memory.init st) = Throw e ->
        this (snd (Memory.init st)) = this st
        /\ ((negative (cfg_max cfg) = true /\ e = Error (lit "max must be greater than 0"))
            \/ (negative (cfg_max cfg) = false /\ negative (cfg_ttl cfg) = true
                /\ e = Error (lit "ttl must be non-negative"))
            \/ (negative (cfg_max cfg) = false /\ negative (cfg_ttl cfg) = false
                /\ negative (cfg_size cfg) = true
                /\ e = Error (lit "size must be greater than 0"))
            \/ (negative (cfg_max cfg) = false /\ negative (cfg_ttl cfg) = false
                /\ negative (cfg_size cfg) = false
                /\ Memory.lru_new (effective_options cfg) = Throw e))).
Proof.
  intros I cfg. rewrite (memory_init_cases st I). fold cfg.
  destruct (negative (cfg_max cfg));
    [split; [discriminate|intros e E; injection E as <-; auto]|].
  destruct (negative (cfg_ttl cfg));
    [split; [discriminate|intros e E; injection E as <-; auto 6]|].
  destruct (negative (cfg_size cfg));
    [split; [discriminate|intros e E; injection E as <-; auto 8]|].
  destruct (Memory.lru_new (effective_options cfg)) as [c|e0]; cbn [fst snd this log].
  - split; [|discriminate]. intros _.
    split; [reflexivity|]. split; [reflexivity|]. split; [reflexivity|].
    split; [|split; [reflexivity|now rewrite memory_init_again]].
    eexists c, _. split; [reflexivity|]. split; [reflexivity|]. apply timeout_positive.
  - split; [discriminate|]. intros e E; injection E as <-. split; [reflexivity|]. auto 10.
Qed.

End MemoryInit.

#[local] Existing Instance Models.list_lru.

(** Zero for every bound and a negative read timeout. *)
Definition zero_bounds : PluginConfig :=
  Provider.mkConfig (Some 0%Z) (Some 0%Z) (Some 0%Z) None (Some (-5)%Z) JUndefined [] None.

Lemma memory_init_witness :
  Memory.ready
    (this (snd (Memory.init (S := Models.LruState) (mkStore (Memory.new zero_bounds) []))))
  = true
  /\ Memory.cacheGetTimeoutInMs
       (this (snd (Memory.init (S := Models.LruState) (mkStore (Memory.new zero_bounds) []))))
     = Some 1000%Z.
Proof.
  destruct (memory_init_outcome (S := Models.LruState) (mkStore (Memory.new zero_bounds) [])
              eq_refl) as [Hok _].
  destruct (Hok eq_refl) as (_ & _ & _ & _ & R & _).
  split; [exact R|reflexivity].
Defined.

(** *** Purging the memory provider *)

(** *** Patterns with and without flags *)

(** A pattern without the [g] and the [y] flag. *)
Definition flagless (re : Regex.RegExp) : bool :=
  negb (Regex.global re || Regex.sticky re).

(** One of the patterns matches somewhere in the key. *)
Definition matched (regExps : list Regex.RegExp) (key : jsstring) : bool :=
  List.existsb (fun re => Regex.matches (Regex.source re) key) regExps.

Lemma matches_skipn (r : Regex.regex) (j : nat) (s : jsstring) :
  Regex.matches r (List.skipn j s) = true -> Regex.matches r s = true.
Proof.
  revert s. induction j as [|j IH]; intros s; [now rewrite List.skipn_O|].
  destruct s as [|c s]; [now rewrite List.skipn_nil|].
  change (List.skipn (S j) (c :: s)) with (List.skipn j s). intros M.
  specialize (IH s M). unfold Regex.matches in *. cbn [Regex.search].
  destruct (Regex.matchLen r (c :: s)); [reflexivity|].
  now destruct (Regex.search r s) as [[i n]|].
Qed.

Lemma matchLen_matches (r : Regex.regex) (s : jsstring) (n : nat) :
  Regex.matchLen r s = Some n -> Regex.matches r s = true.
Proof.
  intros M. unfold Regex.matches. destruct s; cbn [Regex.search]; now rewrite M.
Qed.

(** [test] answers true only for a key the pattern matches somewhere,
    and changes nothing but [lastIndex]. *)
Lemma test_sound (re : Regex.RegExp) (key : jsstring) :
  Regex.source (snd (Regex.test re key)) = Regex.source re
  /\ (fst (Regex.test re key) = true -> Regex.matches (Regex.source re) key = true).
Proof.
  unfold Regex.test.
  destruct (Regex.global re || Regex.sticky re); [|split; [reflexivity|auto]].
  destruct (Nat.ltb (List.length key) (Regex.lastIndex re));
    [split; [reflexivity|discriminate]|].
  destruct (Regex.sticky re).
  - destruct (Regex.matchLen (Regex.source re) (List.skipn (Regex.lastIndex re) key))
      as [n|] eqn:M; cbn [fmap option_fmap option_map fst snd Regex.source Regex.set_lastIndex];
      (split; [reflexivity|]); [|discriminate].
    intros _. apply (matches_skipn _ (Regex.lastIndex re)).
    now apply (matchLen_matches _ _ n).
  - destruct (Regex.search (Regex.source re) (List.skipn (Regex.lastIndex re) key))
      as [[i n]|] eqn:M; cbn [fst snd Regex.source Regex.set_lastIndex];
      (split; [reflexivity|]); [|discriminate].
    intros _. apply (matches_skipn _ (Regex.lastIndex re)). unfold Regex.matches.
    now rewrite M.
Qed.

Lemma test_flagless (re : Regex.RegExp) (key : jsstring) :
  flagless re = true -> Regex.test re key = (Regex.matches (Regex.source re) key, re).
Proof.
  unfold flagless, Regex.test. now destruct (Regex.global re || Regex.sticky re).
Qed.

Lemma some_test_sound (regExps : list Regex.RegExp) (key : jsstring) :
  List.map Regex.source (snd (Regex.some_test regExps key)) = List.map Regex.source regExps
  /\ (fst (Regex.some_test regExps key) = true -> matched regExps key = true).
Proof.
  induction regExps as [|re rest [IH1 IH2]]; [split; [reflexivity|discriminate]|].
  cbn [Regex.some_test matched List.existsb]. fold (matched rest key).
  destruct (test_sound re key) as [S1 S2].
  destruct (Regex.test re key) as [found re']. cbn [fst snd] in S1, S2.
  destruct found.
  - cbn [fst snd List.map]. rewrite S1. split; [reflexivity|].
    intros _. now rewrite S2.
  - destruct (Regex.some_test rest key) as [found' rest']. cbn [fst snd List.map] in *.
    rewrite S1, IH1. split; [reflexivity|]. intros F. rewrite (IH2 F). apply orb_true_r.
Qed.

Lemma matched_sources (l1 l2 : list Regex.RegExp) (key : jsstring) :
  List.map Regex.source l1 = List.map Regex.source l2 -> matched l1 key = matched l2 key.
Proof.
  revert l2. induction l1 as [|a l1 IH]; intros [|b l2] E; try discriminate E; [reflexivity|].
  cbn [List.map] in E. injection E as E1 E2. cbn [matched List.existsb].
  fold (matched l1 key). fold (matched l2 key). now rewrite E1, (IH l2 E2).
Qed.

(** The filter keeps only keys that one of the patterns matches. *)
Lemma filter_some_test_sound (keys : list jsstring) :
  forall regExps key,
    In key (Regex.filter_some_test regExps keys) -> In key keys /\ matched regExps key = true.
Proof.
  induction keys as [|k keys IH]; intros regExps key; [intros []|].
  cbn [Regex.filter_some_test].
  destruct (some_test_sound regExps k) as [S1 S2].
  destruct (Regex.some_test regExps k) as [found regExps']. cbn [fst snd] in S1, S2.
  assert (Rest : In key (Regex.filter_some_test regExps' keys)
                 -> In key (k :: keys) /\ matched regExps key = true).
  { intros Hin. destruct (IH regExps' key Hin) as [H1 H2]. split; [now right|].
    now rewrite <- (matched_sources _ _ key S1). }
  destruct found; [|exact Rest].
  intros [<-|Hin]; [split; [now left|now apply S2]|now apply Rest].
Qed.

Lemma some_test_flagless (regExps : list Regex.RegExp) (key : jsstring) :
  List.forallb flagless regExps = true ->
  Regex.some_test regExps key = (matched regExps key, regExps).
Proof.
  induction regExps as [|re rest IH]; [reflexivity|].
  cbn [List.forallb]. intros F. apply andb_prop in F as [F1 F2].
  cbn [Regex.some_test matched List.existsb]. fold (matched rest key).
  rewrite (test_flagless re key F1), (IH F2).
  now destruct (Regex.matches (Regex.source re) key).
Qed.

(** Without flags the filter keeps exactly the keys that one of the
    patterns matches. *)
Lemma filter_some_test_flagless (regExps : list Regex.RegExp) (keys : list jsstring) :
  List.forallb flagless regExps = true ->
  Regex.filter_some_test regExps keys = List.filter (matched regExps) keys.
Proof.
  intros F. induction keys as [|k keys IH]; [reflexivity|].
  cbn [Regex.filter_some_test List.filter]. rewrite (some_test_flagless regExps k F), IH.
  reflexivity.
Qed.

Section MemoryPurge.
Context {S : Type} `{Memory.LRUCache S}.

(** The keys the cache reports. *)
Definition cached_keys (c : S) : list jsstring :=
  match fst (Memory.lru_keys c) with
  | Ok ks => ks
  | Throw _ => []
  end.

(** What the provider relies on: listing the keys succeeds and changes
    nothing; deleting a key succeeds and removes that key only. *)
Hypothesis keys_law : forall c, Memory.lru_keys c = (Ok (cached_keys c), c).
Hypothesis delete_law :
  forall k c, exists b c',
    Memory.lru_delete k c = (Ok b, c')
    /\ cached_keys c' = List.filter (fun k' => negb (JsString.eqb k' k)) (cached_keys c).

Definition with_provider (p : Memory.InMemoryCacheProvider S) (c : S) :
    Memory.InMemoryCacheProvider S :=
  Memory.mkMemory (Memory.strapi p) (Memory.initialized p) (Some c)
                  (Memory.cacheGetTimeoutInMs p).

Definition nonempty (k : jsstring) : bool := match k with [] => false | _ => true end.

Definition mem (k : jsstring) (ks : list jsstring) : bool := List.existsb (JsString.eqb k) ks.

Lemma filter_twice {A : Type} (f g : A -> bool) (l : list A) :
  List.filter g (List.filter f l) = List.filter (fun x => f x && g x) l.
Proof.
  induction l as [|a l IH]; [reflexivity|]. cbn [List.filter].
  destruct (f a); cbn [andb List.filter]; [destruct (g a)|]; now rewrite IH.
Qed.

Lemma filter_true {A : Type} (f : A -> bool) (l : list A) :
  (forall x, f x = true) -> List.filter f l = l.
Proof. intros F. induction l as [|a l IH]; cbn [List.filter]; [|rewrite F, IH]; reflexivity. Qed.

Lemma store_eta (st : Store (Memory.InMemoryCacheProvider S)) (c : S) :
  Memory.provider (this st) = Some c -> mkStore (with_provider (this st) c) (log st) = st.
Proof.
  intros Pc. destruct st as [p lg]; cbn in *. f_equal.
  unfold with_provider. destruct p; cbn in *. now subst.
Qed.

(** One [del]: an empty key is refused, any other key is deleted. *)
Lemma del_removes (k : jsstring) (st : Store (Memory.InMemoryCacheProvider S)) (c : S) :
  Memory.initialized (this st) = true ->
  Memory.provider (this st) = Some c ->
  exists r c' lg',
    Memory.del (JStr k) st = (Ok r, mkStore (with_provider (this st) c') lg')
    /\ cached_keys c'
       = List.filter (fun k' => negb (nonempty k && JsString.eqb k' k)) (cached_keys c).
Proof.
  intros I Pc.
  unfold Memory.del, Memory.ready, Memory.on_provider, mbind, eff_bind, bind, gets, try_catch,
    loggy, modify, ret.
  cbn [this log]. rewrite I, Pc. cbn [andb negb].
  destruct k as [|x k].
  - exists RNull, c, (log st ++ [(Warn, lit "Invalid key provided for delete operation")]).
    cbn [invalid_key truthy negb orb nonempty andb].
    split; [|now rewrite filter_true].
    do 2 f_equal. unfold with_provider. destruct (this st); cbn in *. now subst.
  - cbn [invalid_key truthy typeof jstype_eqb negb orb key_text this log nonempty andb].
    rewrite Pc. destruct (delete_law (x :: k) c) as (b & c' & -> & E).
    now exists (RBool b), c', (log st ++ [(Info, lit "PURGING KEY: " ++ x :: k)]).
Qed.

(** The deletions of [reset] and [clearByRegexp]. *)
Lemma del_all_removes (ks : list jsstring) :
  forall (st : Store (Memory.InMemoryCacheProvider S)) (c : S),
    Memory.initialized (this st) = true ->
    Memory.provider (this st) = Some c ->
    exists c' lg',
      Memory.del_all ks st = (Ok tt, mkStore (with_provider (this st) c') lg')
      /\ cached_keys c'
         = List.filter (fun k' => negb (nonempty k' && mem k' ks)) (cached_keys c).
Proof.
  induction ks as [|k ks IH]; intros st c I Pc.
  - exists c, (log st). split.
    + cbn [Memory.del_all]. unfold ret. now rewrite store_eta.
    + rewrite filter_true; [reflexivity|]. intros x. cbn [mem List.existsb].
      now rewrite andb_false_r.
  - destruct (del_removes k st c I Pc) as (r & c1 & lg1 & D & E1).
    destruct (IH (mkStore (with_provider (this st) c1) lg1) c1 I eq_refl)
      as (c2 & lg2 & D2 & E2).
    exists c2, lg2. split.
    + cbn [Memory.del_all]. unfold mbind, eff_bind, bind. rewrite D. exact D2.
    + rewrite E2, E1, filter_twice. apply List.filter_ext. intros a.
      cbn [mem List.existsb]. fold (mem a ks).
      destruct (JsString.eqb a k) eqn:A; cbn [orb].
      * apply StringFacts.eqb_eq in A as ->. rewrite !andb_true_r.
        now destruct (nonempty k).
      * now rewrite andb_false_r.
Qed.

Lemma mem_filter (f : jsstring -> bool) (k : jsstring) (l : list jsstring) :
  mem k (List.filter f l) = mem k l && f k.
Proof.
  induction l as [|a l IH]; [reflexivity|]. cbn [List.filter].
  destruct (JsString.eqb k a) eqn:A.
  - apply StringFacts.eqb_eq in A as <-.
    destruct (f k) eqn:F; cbn [mem List.existsb]; rewrite ?StringFacts.eqb_refl.
    + reflexivity.
    + fold (mem k (List.filter f l)). rewrite IH. now rewrite !andb_false_r.
  - destruct (f a); cbn [mem List.existsb]; rewrite ?A; exact IH.
Qed.

Lemma mem_self (k : jsstring) (l : list jsstring) : In k l -> mem k l = true.
Proof.
  intros Hin. apply List.existsb_exists. exists k. split; [exact Hin|apply StringFacts.eqb_refl].
Qed.

Lemma keys_ready (st : Store (Memory.InMemoryCacheProvider S)) (c : S) :
  Memory.initialized (this st) = true ->
  Memory.provider (this st) = Some c ->
  Memory.keys st = (Ok (Some (cached_keys c)), st).
Proof.
  intros I Pc.
  unfold Memory.keys, Memory.ready, Memory.on_provider, mbind, eff_bind, bind, gets, try_catch,
    ret.
  cbn [this log]. rewrite I, Pc. cbn [andb negb]. rewrite Pc, keys_law.
  f_equal. apply (store_eta st c Pc).
Qed.

(** On a ready provider [reset] resolves with [true] and leaves no key
    in the cache but the empty one, which [del] refuses. *)
Theorem memory_reset_evicts (st : Store (Memory.InMemoryCacheProvider S)) (c : S) :
  Memory.initialized (this st) = true ->
  Memory.provider (this st) = Some c ->
  exists c' lg',
    Memory.reset st = (Ok (RBool true), mkStore (with_provider (this st) c') lg')
    /\ cached_keys c' = List.filter (fun k => negb (nonempty k)) (cached_keys c).
Proof.
  intros I Pc.
  destruct (del_all_removes (cached_keys c)
              (mkStore (this st)
                 (log st ++ [(Info, lit "PURGING ALL KEYS: "
                                      ++ number_to_string
                                           (Z.of_nat (List.length (cached_keys c))))]))
              c I Pc) as (c' & lg' & D & E).
  exists c', lg'. split.
  - unfold Memory.reset, Memory.ready, mbind, eff_bind, bind, gets, try_catch.
    cbn [this log]. rewrite I, Pc. cbn [andb negb].
    rewrite (keys_ready st c I Pc).
    unfold loggy, modify, ret. cbn [this log].
    match goal with
    | |- context [Memory.del_all ?ks ?s] =>
        replace (Memory.del_all ks s)
          with (Ok tt, mkStore (with_provider (this st) c') lg')
          by (symmetry; exact D)
    end.
    reflexivity.
  - rewrite E. apply List.filter_ext_in. intros k Hin. now rewrite (mem_self k _ Hin), andb_true_r.
Qed.

Lemma mem_In (k : jsstring) (l : list jsstring) : mem k l = true -> In k l.
Proof.
  intros M. apply List.existsb_exists in M as (x & Hin & E).
  now apply StringFacts.eqb_eq in E as ->.
Qed.

(** On a ready provider [clearByRegexp] resolves and never deletes a
    key that none of the patterns matches.  When no pattern has the [g]
    or the [y] flag it deletes every non-empty key that one of the
    patterns matches, and no other key. *)
Theorem memory_clearByRegexp_deletes_the_matches
    (regExps : list Regex.RegExp) (st : Store (Memory.InMemoryCacheProvider S)) (c : S) :
  Memory.initialized (this st) = true ->
  Memory.provider (this st) = Some c ->
  exists c' lg',
    Memory.clearByRegexp regExps st = (Ok tt, mkStore (with_provider (this st) c') lg')
    /\ (forall k, In k (cached_keys c) -> matched regExps k = false -> In k (cached_keys c'))
    /\ (List.forallb flagless regExps = true ->
        cached_keys c'
        = List.filter (fun k => negb (nonempty k && matched regExps k)) (cached_keys c)).
Proof.
  intros I Pc.
  destruct (del_all_removes (Regex.filter_some_test regExps (cached_keys c)) st c I Pc)
    as (c' & lg' & D & E).
  exists c', (lg' ++ [(Info, lit "Cleared "
                               ++ number_to_string
                                    (Z.of_nat (List.length
                                                 (Regex.filter_some_test regExps
                                                    (cached_keys c))))
                               ++ lit " keys matching regex patterns")]).
  split; [|split].
  - unfold Memory.clearByRegexp, Memory.ready, mbind, eff_bind, bind, gets, try_catch.
    cbn [this log]. rewrite I, Pc. cbn [andb negb].
    rewrite (keys_ready st c I Pc). cbn [default].
    match goal with
    | |- context [Memory.del_all ?ks ?s] =>
        replace (Memory.del_all ks s)
          with (Ok tt, mkStore (with_provider (this st) c') lg')
          by (symmetry; exact D)
    end.
    unfold loggy, modify. cbn [this log]. reflexivity.
  - intros k Hin M. rewrite E. apply List.filter_In. split; [exact Hin|].
    destruct (mem k (Regex.filter_some_test regExps (cached_keys c))) eqn:Mk;
      [|now rewrite andb_false_r].
    apply mem_In, filter_some_test_sound in Mk as [_ Mk]. congruence.
  - intros F. rewrite E, (filter_some_test_flagless _ _ F).
    apply List.filter_ext_in. intros k Hin.
    now rewrite mem_filter, (mem_self k _ Hin).
Qed.

End MemoryPurge.

(** The list model of the cache obeys both laws. *)
Lemma list_lru_keys_law (c : Models.LruState) :
  Memory.lru_keys c = (Ok (cached_keys c), c).
Proof. reflexivity. Qed.

Lemma list_lru_delete_law (k : jsstring) (c : Models.LruState) :
  exists b c',
    Memory.lru_delete k c = (Ok b, c')
    /\ cached_keys c' = List.filter (fun k' => negb (JsString.eqb k' k)) (cached_keys c).
Proof.
  eexists _, _. split; [reflexivity|].
  unfold cached_keys. cbn [Memory.lru_keys Models.list_lru fst Models.lru_entries].
  unfold Models.lru_remove.
  induction (Models.lru_entries c) as [|[k' v] l IH]; [reflexivity|].
  cbn [List.filter List.map fst].
  destruct (negb (JsString.eqb k' k)); cbn [List.map fst]; now rewrite IH.
Qed.

(** A ready provider holding a REST entry and a GraphQL entry. *)
Definition two_entries : Models.LruState :=
  Models.mkLru (Memory.mkLRUOptions 1000 3600000 10485760 false true true)
               [(lit "graphql:b", JNum 2); (lit "cache:a", JNum 1)].

Definition two_entries_store : Store (Memory.InMemoryCacheProvider Models.LruState) :=
  mkStore (Memory.mkMemory zero_bounds true (Some two_entries) (Some 1000%Z)) [].

Lemma memory_reset_witness :
  exists c' lg',
    Memory.reset two_entries_store
    = (Ok (RBool true), mkStore (with_provider (this two_entries_store) c') lg')
    /\ cached_keys c' = [].
Proof.
  exact (memory_reset_evicts list_lru_keys_law list_lru_delete_law
           two_entries_store two_entries eq_refl eq_refl).
Defined.

(** [/graphql:/] and [/:/g] *)
Definition graphql_pattern : Regex.RegExp :=
  Regex.mkRegExp (Regex.literal (lit "graphql:")) false false 0.

Definition colon_pattern_g : Regex.RegExp :=
  Regex.mkRegExp (Regex.literal (lit ":")) true false 0.

Lemma memory_clearByRegexp_witness :
  exists c' lg',
    Memory.clearByRegexp [graphql_pattern] two_entries_store
    = (Ok tt, mkStore (with_provider (this two_entries_store) c') lg')
    /\ cached_keys c' = [lit "cache:a"].
Proof.
  destruct (memory_clearByRegexp_deletes_the_matches list_lru_keys_law list_lru_delete_law
              [graphql_pattern] two_entries_store two_entries eq_refl eq_refl)
    as (c' & lg' & E & _ & F).
  exists c', lg'. split; [exact E|]. rewrite (F eq_refl). reflexivity.
Defined.

(** Under the [g] flag a key that the pattern matches can stay: the
    match in the first key moves [lastIndex] past the end of the
    second. *)
Example global_pattern_skips_a_key :
  matched [colon_pattern_g] (lit "cache:a") = true
  /\ cached_keys
       (default two_entries
          (Memory.provider
             (this (snd (Memory.clearByRegexp [colon_pattern_g] two_entries_store)))))
     = [lit "cache:a"].
Proof. split; reflexivity. Qed.

Section MemoryRoundTrip.
Context {S : Type} `{Memory.LRUCache S}.

(** A ready provider with a positive read timeout and a usable key:
    [set] hands the value to the cache as it is and answers with the
    cache's own answer, and a [get] of the key then resolves with what
    the cache returns for it, or with null when the cache throws; the
    read timeout does not fire. *)
Theorem memory_get_after_set (k : jsstring) (v : jsval)
    (st : Store (Memory.InMemoryCacheProvider S)) (c c1 c2 : S) (t : Z)
    (found : Outcome jsval) :
  Memory.initialized (this st) = true ->
  Memory.provider (this st) = Some c ->
  Memory.cacheGetTimeoutInMs (this st) = Some t ->
  (0 < t)%Z ->
  k <> [] ->
  Memory.lru_set k v c = (Ok tt, c1) ->
  Memory.lru_get k c1 = (found, c2) ->
  fst (Memory.set (JStr k) v st) = Ok RCache
  /\ fst (Memory.get (JStr k) (snd (Memory.set (JStr k) v st)))
     = Ok (match found with Ok v' => v' | Throw _ => JNull end).
Proof.
  intros I Pc Tm Pos K St Gt. destruct k as [|x k]; [contradiction|].
  assert (E : Memory.set (JStr (x :: k)) v st
              = (Ok RCache,
                 mkStore (Memory.mkMemory (Memory.strapi (this st)) true (Some c1) (Some t))
                         (log st))).
  { unfold Memory.set, Memory.ready, Memory.on_provider, mbind, eff_bind, bind, gets,
      try_catch, ret.
    cbn [this log]. rewrite I, Pc. cbn [andb negb].
    cbn [invalid_key truthy typeof jstype_eqb negb orb key_text].
    now rewrite Pc, St, I, Tm. }
  rewrite E. split; [reflexivity|]. cbn [snd].
  unfold Memory.get, Memory.ready, Memory.on_provider, mbind, eff_bind, bind, gets,
    try_catch, ret, loggy, modify, lift_outcome, withTimeout.
  cbn [this log Memory.initialized Memory.provider andb negb].
  cbn [invalid_key truthy typeof jstype_eqb negb orb key_text].
  cbn [this log Memory.initialized Memory.provider Memory.cacheGetTimeoutInMs Memory.strapi].
  rewrite Gt.
  destruct found as [v'|e];
    cbn [this log Memory.cacheGetTimeoutInMs default from_option id];
    (destruct (Z.ltb_spec 0 t); [reflexivity|lia]).
Qed.

End MemoryRoundTrip.

Lemma memory_get_after_set_witness :
  fst (Memory.get (JStr (lit "cache:c"))
         (snd (Memory.set (JStr (lit "cache:c")) JNull two_entries_store)))
  = Ok JNull.
Proof.
  destruct (memory_get_after_set (lit "cache:c") JNull two_entries_store two_entries
              (snd (Memory.lru_set (lit "cache:c") JNull two_entries))
              (snd (Memory.lru_get (lit "cache:c")
                      (snd (Memory.lru_set (lit "cache:c") JNull two_entries))))
              1000 (Ok JNull) eq_refl eq_refl eq_refl eq_refl ltac:(discriminate)
              eq_refl eq_refl) as [_ G].
  exact G.
Defined.

End ProviderMore.

Module RedisMore.
Import Provider Redis.

Section RedisWrites.
Context {R : Type} `{RedisClient R}.



End RedisWrites.

(** A time to live below one second. *)
Definition short_lived : PluginConfig :=
  Provider.mkConfig None (Some 999%Z) None None None JUndefined [] None.



Section RedisRoundTrip.
Context (server : Models.RedisState) (JSON_parse : jsstring -> Outcome jsval).



End RedisRoundTrip.



Section RedisPurge.
Context {R : Type} `{RedisClient R}.

(** The keys the server reports for the pattern [*]. *)
Definition stored_keys (c : R) : list jsstring :=
  match fst (redis_keys (lit "*") c) with
  | Ok ks => ks
  | Throw _ => []
  end.

(** What the provider relies on: KEYS succeeds and changes nothing; DEL
    succeeds and removes that key only. *)
Hypothesis keys_law : forall c, redis_keys (lit "*") c = (Ok (stored_keys c), c).
Hypothesis del_law :
  forall k c, exists c',
    redis_del k c = (Ok tt, c')
    /\ forall k', In k' (stored_keys c') <-> In k' (stored_keys c) /\ k' <> k.

Lemma redis_store_eta (st : Store (RedisCacheProvider R)) (c : R) :
  client (this st) = Some c -> mkStore (with_client (this st) c) (log st) = st.
Proof.
  intros C. destruct st as [p lg]; cbn in *. f_equal.
  unfold with_client. destruct p; cbn in *. now subst.
Qed.

Lemma redis_keys_ready (st : Store (RedisCacheProvider R)) (c : R) :
  initialized (this st) = true ->
  client (this st) = Some c ->
  Redis.keys st = (Ok (Some (stored_keys c)), st).
Proof.
  intros I C.
  unfold Redis.keys, ready, on_client, mbind, eff_bind, bind, gets, try_catch, ret.
  cbn [this log]. rewrite I, C. cbn [andb negb]. rewrite C, keys_law.
  f_equal. apply (redis_store_eta st c C).
Qed.

(** One [del]: an empty key is refused, any other key is deleted. *)
Lemma redis_del_removes (k : jsstring) (st : Store (RedisCacheProvider R)) (c : R) :
  initialized (this st) = true ->
  client (this st) = Some c ->
  exists r c' lg',
    Redis.del (JStr k) st = (Ok r, mkStore (with_client (this st) c') lg')
    /\ forall k', In k' (stored_keys c')
                  <-> In k' (stored_keys c)
                      /\ ProviderMore.nonempty k && JsString.eqb k' k = false.
Proof.
  intros I C.
  unfold Redis.del, ready, on_client, mbind, eff_bind, bind, gets, try_catch, loggy, modify,
    ret.
  cbn [this log]. rewrite I, C. cbn [andb negb].
  destruct k as [|x k].
  - exists RNull, c, (log st ++ [(Warn, lit "Invalid key provided for Redis delete operation")]).
    cbn [invalid_key truthy negb orb ProviderMore.nonempty andb].
    split; [|tauto].
    do 2 f_equal. unfold with_client. destruct (this st); cbn in *. now subst.
  - cbn [invalid_key truthy typeof jstype_eqb negb orb key_text this log
         ProviderMore.nonempty andb].
    rewrite C. destruct (del_law (x :: k) c) as (c' & -> & E).
    exists (RBool true), c', (log st ++ [(Info, lit "Redis PURGING KEY: " ++ x :: k)]).
    split; [reflexivity|]. intros k'. rewrite E.
    destruct (JsString.eqb k' (x :: k)) eqn:A.
    + apply StringFacts.eqb_eq in A. split; [tauto|]. intros [_ F]. discriminate F.
    + apply StringFacts.eqb_neq in A. tauto.
Qed.

(** The deletions of [clearByRegexp], one after the other. *)
Lemma redis_del_each_removes (ks : list jsstring) :
  forall (st : Store (RedisCacheProvider R)) (c : R),
    initialized (this st) = true ->
    client (this st) = Some c ->
    exists c' lg',
      Redis.del_each ks st = (Ok tt, mkStore (with_client (this st) c') lg')
      /\ forall k', In k' (stored_keys c')
                    <-> In k' (stored_keys c)
                        /\ ProviderMore.nonempty k' && ProviderMore.mem k' ks = false.
Proof.
  induction ks as [|k ks IH]; intros st c I C.
  - exists c, (log st). split.
    + cbn [Redis.del_each]. unfold ret. now rewrite redis_store_eta.
    + intros k'. cbn [ProviderMore.mem List.existsb]. rewrite andb_false_r. tauto.
  - destruct (redis_del_removes k st c I C) as (r & c1 & lg1 & D & E1).
    destruct (IH (mkStore (with_client (this st) c1) lg1) c1 I eq_refl)
      as (c2 & lg2 & D2 & E2).
    exists c2, lg2. split.
    + cbn [Redis.del_each]. unfold mbind, eff_bind, bind. rewrite D. exact D2.
    + intros k'. rewrite E2, E1.
      cbn [ProviderMore.mem List.existsb]. fold (ProviderMore.mem k' ks).
      destruct (JsString.eqb k' k) eqn:A; cbn [orb].
      * apply StringFacts.eqb_eq in A as ->. rewrite !andb_true_r.
        destruct (ProviderMore.nonempty k); cbn [andb]; intuition congruence.
      * rewrite andb_false_r. tauto.
Qed.

(** On a ready provider [clearByRegexp] resolves and never deletes a
    key that none of the patterns matches.  When no pattern has the [g]
    or the [y] flag it deletes from the database every non-empty key
    that one of the patterns matches, whoever wrote it, and no other
    key. *)
Theorem redis_clearByRegexp_deletes_the_matches
    (regExps : list Regex.RegExp) (st : Store (RedisCacheProvider R)) (c : R) :
  initialized (this st) = true ->
  client (this st) = Some c ->
  exists c' lg',
    Redis.clearByRegexp regExps st = (Ok tt, mkStore (with_client (this st) c') lg')
    /\ (forall k, In k (stored_keys c) -> ProviderMore.matched regExps k = false ->
                  In k (stored_keys c'))
    /\ (List.forallb ProviderMore.flagless regExps = true ->
        forall k, In k (stored_keys c')
                  <-> In k (stored_keys c)
                      /\ ProviderMore.nonempty k && ProviderMore.matched regExps k = false).
Proof.
  intros I C.
  destruct (redis_del_each_removes (Regex.filter_some_test regExps (stored_keys c)) st c I C)
    as (c' & lg' & D & E).
  exists c', (lg' ++ [(Info, lit "Cleared "
                               ++ number_to_string
                                    (Z.of_nat (List.length
                                                 (Regex.filter_some_test regExps
                                                    (stored_keys c))))
                               ++ lit " Redis keys matching regex patterns")]).
  split; [|split].
  - unfold Redis.clearByRegexp, ready, mbind, eff_bind, bind, gets, try_catch.
    cbn [this log]. rewrite I, C. cbn [andb negb].
    rewrite (redis_keys_ready st c I C).
    match goal with
    | |- context [Redis.del_each ?ks ?s] =>
        replace (Redis.del_each ks s)
          with (Ok tt, mkStore (with_client (this st) c') lg')
          by (symmetry; exact D)
    end.
    unfold loggy, modify. cbn [this log]. reflexivity.
  - intros k Hin M. apply E. split; [exact Hin|].
    destruct (ProviderMore.mem k (Regex.filter_some_test regExps (stored_keys c))) eqn:Mk;
      [|now rewrite andb_false_r].
    apply ProviderMore.mem_In, ProviderMore.filter_some_test_sound in Mk as [_ Mk].
    congruence.
  - intros F k. rewrite E, (ProviderMore.filter_some_test_flagless _ _ F).
    split; intros [Hin G]; (split; [exact Hin|]).
    + now rewrite ProviderMore.mem_filter, (ProviderMore.mem_self k _ Hin) in G.
    + now rewrite ProviderMore.mem_filter, (ProviderMore.mem_self k _ Hin).
Qed.

End RedisPurge.

(** The map model of the database obeys both laws. *)
Lemma in_keys (d : gmap (list N) (list N * option Z)) (k : jsstring) :
  In k (map_to_list d).*1 <-> is_Some (d !! k).
Proof.
  rewrite <- list_elem_of_In, list_elem_of_fmap. split.
  - intros [[k' x] [-> Hin]]. apply elem_of_map_to_list in Hin. now exists x.
  - intros [x Hx]. exists (k, x). split; [reflexivity|]. now apply elem_of_map_to_list.
Qed.

Lemma map_redis_stored (server c : Models.RedisState) :
  stored_keys (H := Models.map_redis server) c = (map_to_list (Models.db c)).*1.
Proof.
  unfold stored_keys. cbn [redis_keys Models.map_redis fst].
  apply ProviderMore.filter_true, ProviderFacts.glob_star.
Qed.

Lemma map_redis_keys_law (server c : Models.RedisState) :
  redis_keys (RedisClient := Models.map_redis server) (lit "*") c
  = (Ok (stored_keys (H := Models.map_redis server) c), c).
Proof. reflexivity. Qed.

Lemma map_redis_del_law (server : Models.RedisState) (k : jsstring) (c : Models.RedisState) :
  exists c',
    redis_del (RedisClient := Models.map_redis server) k c = (Ok tt, c')
    /\ forall k', In k' (stored_keys (H := Models.map_redis server) c')
                  <-> In k' (stored_keys (H := Models.map_redis server) c) /\ k' <> k.
Proof.
  eexists. split; [reflexivity|]. intros k'.
  rewrite !map_redis_stored, !in_keys. cbn [Models.db].
  destruct (decide (k = k')) as [->|N].
  - rewrite lookup_delete_eq. split; [intros [x Hx]; discriminate Hx|tauto].
  - rewrite lookup_delete_ne by exact N. split; [intros Hs; split; [exact Hs|congruence]|tauto].
Qed.

(** A database the plugin shares with a session store. *)
Definition shared_db : Models.RedisState :=
  Models.mkRedisState
    (<[lit "graphql:b" := (lit "1", None)]> (<[lit "session:42" := (lit "2", None)]> ∅)) 2.

Definition shared_db_redis : Store (RedisCacheProvider Models.RedisState) :=
  mkStore (mkRedis short_lived true (Some shared_db) (Some 1000%Z)) [].

(** [/session/] *)
Definition session_pattern : Regex.RegExp :=
  Regex.mkRegExp (Regex.literal (lit "session")) false false 0.

Lemma redis_clearByRegexp_witness :
  exists c' lg',
    Redis.clearByRegexp (H := Models.map_redis shared_db) [session_pattern] shared_db_redis
    = (Ok tt, mkStore (with_client (this shared_db_redis) c') lg')
    /\ In (lit "graphql:b") (stored_keys (H := Models.map_redis shared_db) c')
    /\ ~ In (lit "session:42") (stored_keys (H := Models.map_redis shared_db) c').
Proof.
  destruct (redis_clearByRegexp_deletes_the_matches (H := Models.map_redis shared_db)
              (map_redis_keys_law shared_db) (map_redis_del_law shared_db)
              [session_pattern] shared_db_redis shared_db eq_refl eq_refl)
    as (c' & lg' & E & Keep & F).
  exists c', lg'. split; [exact E|]. split.
  - apply Keep; [|vm_compute; reflexivity]. rewrite map_redis_stored.
    apply (proj2 (in_keys (Models.db shared_db) (lit "graphql:b"))).
    exists (lit "1", None). vm_compute. reflexivity.
  - intros Hin. apply (F eq_refl) in Hin as [_ Hin]. vm_compute in Hin. discriminate Hin.
Defined.

End RedisMore.

Module MiddlewareMore.
Import Graphql MiddlewareFacts.

Section MoreRuns.
Context {P : Type} `{CacheProvider P} `{Host}.
Context (config : CacheHeaderConfig) (next : Ctx -> Outcome unit * Ctx).

(** [getHeadersToStore(ctx, cacheHeaders, cacheHeadersAllowList,
    cacheHeadersDenyList)] *)
Definition headers_to_store (c : Ctx) : jsobj :=
  getHeadersToStore c (cacheHeaders config) (cacheHeadersAllowList config)
                    (cacheHeadersDenyList config).

(** The entry written for a streamed response whose decompressed bytes
    are [d]. *)
Definition streamed_entry (c : Ctx) (d : list N) : jsval :=
  entry_of (JStr (decodeBufferToText d)) (headers_to_store c).

(** The request goes to the rest of the pipeline after the lookup: it
    is not an authorized bypass, and no entry was found or the request
    asks for [no-cache]. *)
Definition passes_on (c : Ctx) (entry : jsval) : Prop :=
  authorized_bypass config c = false
  /\ exists nc, no_cache c = Ok nc /\ truthy entry && negb nc = false.

Ltac unfold_run :=
  cbv beta iota zeta delta
    [middleware cacheStore_get cacheStore_set call_next run_next emit in_cache update_ctx
     mbind eff_bind bind gets modify lift_outcome ret mret eff_ret loggy];
  cbn [ctx cache trace this log fst snd].

Ltac headers :=
  change (obj_get (request_headers (ctx_request ?c)) (lit "cache-control"))
    with (cache_control c);
  change (obj_get (request_headers (ctx_request ?c)) (lit "authorization"))
    with (authorization c);
  rewrite ?authorization_of_clone, ?cache_control_of_clone.

Ltac step := cbv beta iota zeta; cbn [ctx cache trace this log fst snd andb negb orb]; headers.

(** The run of a request up to the lookup. *)
Ltac run_to_lookup B I G :=
  unfold_run; rewrite B; step; rewrite I; step;
  change (Key.generateGraphqlCacheKey (Buffer_toString ?b)) with (key_of b);
  rewrite G; step.

(** The run of a request that passes on, up to the return of the rest
    of the pipeline. *)
Ltac run_to_next w buf entry B I G Pa X :=
  let A := fresh "A" in
  let nc := fresh "nc" in
  let N := fresh "N" in
  let T := fresh "T" in
  destruct Pa as (A & nc & N & T);
  run_to_lookup B I G; unfold no_cache in N; unfold authorized_bypass in A;
  destruct (truthy (cache_control (ctx w))); [rewrite N|injection N as <-];
  step; rewrite A; step;
  destruct (truthy entry); try destruct nc; try discriminate T; step;
  fold (cloned (ctx w) buf); rewrite X; step.

(** A streamed response to a request that passes on, when it qualifies
    for the cache: the stream is drained, the bytes are decompressed by
    the response's content encoding and decoded, one entry with that
    text as its body is written, and the body of the response becomes
    the drained bytes, still compressed.  When the write fails the body
    is left as the stream that was drained. *)
Theorem streamed_response_is_stored
    (w : World P) (buf : list N) (entry : jsval) (st1 : Store P) (c' : Ctx)
    (s : Stream) (b d : list N) (r : Outcome reply) (st2 : Store P) :
  rawBody (ctx_req (ctx w)) = Ok buf ->
  JsString.includes (lit "IntrospectionQuery") (Buffer_toString buf) = false ->
  cp_get (JStr (key_of buf)) (cache w) = (Ok entry, st1) ->
  passes_on (ctx w) entry ->
  next (cloned (ctx w) buf) = (Ok tt, c') ->
  storable (request_url (ctx_request (ctx w))) c' = true ->
  authorized_bypass config c' = false ->
  ctx_body c' = Streamed s ->
  streamToBuffer s = Ok b ->
  decompressBuffer b (obj_get (ctx_response_headers c') (lit "content-encoding")) = Ok d ->
  cp_set (JStr (key_of buf)) (streamed_entry c' d)
         (logged st1 Info (lit "MISS with key: " ++ key_of buf)) = (r, st2) ->
  middleware config next w =
    (match r with Ok _ => Ok tt | Throw e => Throw e end,
     mkWorld (match r with
              | Ok _ => set_body (Materialized (JBuffer b)) c'
              | Throw _ => c'
              end)
             st2
             (trace w ++ [CacheGet (key_of buf); Next;
                          CacheSet (key_of buf) (streamed_entry c' d)])).
Proof.
  intros B I G Pa X S A' Bd Sb Dc St.
  run_to_next w buf entry B I G Pa X;
    unfold storable in S; rewrite S; step;
    unfold authorized_bypass in A'; rewrite A'; step;
    rewrite Bd; step; rewrite Sb; step; rewrite Dc; step;
    unfold logged, streamed_entry, headers_to_store in St; rewrite St; step;
    destruct r; rewrite <- !List.app_assoc; reflexivity.
Qed.

(** A response to a request that passes on is not written to the cache
    when the rest of the pipeline throws (the error is rethrown), when
    the response does not qualify, when the request carries an
    authorization header by then and authorized requests are not cached,
    or when draining or decompressing the streamed body throws (the
    error is rethrown and the body stays the stream). *)
Theorem response_is_not_stored
    (w : World P) (buf : list N) (entry : jsval) (st1 : Store P)
    (r : Outcome unit) (c' : Ctx) :
  rawBody (ctx_req (ctx w)) = Ok buf ->
  JsString.includes (lit "IntrospectionQuery") (Buffer_toString buf) = false ->
  cp_get (JStr (key_of buf)) (cache w) = (Ok entry, st1) ->
  passes_on (ctx w) entry ->
  next (cloned (ctx w) buf) = (r, c') ->
  let called := trace w ++ [CacheGet (key_of buf); Next] in
  let missed := logged st1 Info (lit "MISS with key: " ++ key_of buf) in
  (forall e, r = Throw e -> middleware config next w = (Throw e, mkWorld c' st1 called))
  /\ (r = Ok tt ->
      storable (request_url (ctx_request (ctx w))) c' = false ->
      middleware config next w = (Ok tt, mkWorld c' st1 called))
  /\ (r = Ok tt ->
      storable (request_url (ctx_request (ctx w))) c' = true ->
      authorized_bypass config c' = true ->
      middleware config next w =
        (Ok tt,
         mkWorld c'
                 (logged missed Info (lit "Authorized request not caching: " ++ key_of buf))
                 called))
  /\ (forall s e,
        r = Ok tt ->
        storable (request_url (ctx_request (ctx w))) c' = true ->
        authorized_bypass config c' = false ->
        ctx_body c' = Streamed s ->
        match streamToBuffer s with
        | Ok b =>
            decompressBuffer b (obj_get (ctx_response_headers c') (lit "content-encoding"))
        | Throw e' => Throw e'
        end = Throw e ->
        middleware config next w = (Throw e, mkWorld c' missed called)).
Proof.
  intros B I G Pa X called missed. subst called missed. unfold logged.
  split; [|split; [|split]].
  - intros e ->. run_to_next w buf entry B I G Pa X;
      rewrite <- !List.app_assoc; reflexivity.
  - intros -> S. run_to_next w buf entry B I G Pa X;
      unfold storable in S; rewrite S; step;
      rewrite <- !List.app_assoc; reflexivity.
  - intros -> S A'. run_to_next w buf entry B I G Pa X;
      unfold storable in S; rewrite S; step;
      unfold authorized_bypass in A'; rewrite A'; step;
      rewrite <- !List.app_assoc; reflexivity.
  - intros s e -> S A' Bd F. run_to_next w buf entry B I G Pa X;
      unfold storable in S; rewrite S; step;
      unfold authorized_bypass in A'; rewrite A'; step;
      rewrite Bd; step;
      (destruct (streamToBuffer s) as [b|e']; [|injection F as ->]; step;
       [rewrite F; step|]);
      rewrite <- !List.app_assoc; reflexivity.
Qed.

(** Whatever the provider, the host, the configuration and the rest of
    the pipeline do, one run of the middleware adds to the trace nothing
    when the request body cannot be read, one call of the rest of the
    pipeline for an introspection query, and otherwise one lookup,
    followed by at most one call of the rest of the pipeline, followed
    by at most one write under the key of the lookup; a write occurs
    only after the rest of the pipeline returned a response that
    qualifies. *)
Theorem middleware_calls_in_order (w : World P) :
  exists t,
    trace (snd (middleware config next w)) = trace w ++ t
    /\ match rawBody (ctx_req (ctx w)) with
       | Throw _ => t = []
       | Ok buf =>
           if JsString.includes (lit "IntrospectionQuery") (Buffer_toString buf)
           then t = [Next]
           else t = [CacheGet (key_of buf)]
                \/ t = [CacheGet (key_of buf); Next]
                \/ exists e,
                     t = [CacheGet (key_of buf); Next; CacheSet (key_of buf) e]
                     /\ fst (next (cloned (ctx w) buf)) = Ok tt
                     /\ storable (request_url (ctx_request (ctx w)))
                                 (snd (next (cloned (ctx w) buf))) = true
       end.
Proof.
  unfold_run.
  destruct (rawBody (ctx_req (ctx w))) as [buf|e]; step;
    [|exists []; split; [symmetry; apply List.app_nil_r|reflexivity]].
  destruct (JsString.includes (lit "IntrospectionQuery") (Buffer_toString buf)); step.
  { exists [Next]. split; [|reflexivity].
    fold (cloned (ctx w) buf). now destruct (next (cloned (ctx w) buf)). }
  change (Key.generateGraphqlCacheKey (Buffer_toString buf)) with (key_of buf).
  unfold storable.
  destruct (cp_get (JStr (key_of buf)) (cache w)) as [[entry|e] st1]; step;
    [|exists [CacheGet (key_of buf)]; split; [reflexivity|now left]].
  destruct (truthy (cache_control (ctx w)));
    [destruct (includes_method (cache_control (ctx w)) (lit "no-cache")) as [nc|e]|]; step;
    try (exists [CacheGet (key_of buf)]; split; [reflexivity|now left]);
    (destruct (truthy (authorization (ctx w)) && negb (cacheAuthorizedRequests config)); step;
     [exists [CacheGet (key_of buf); Next]; split;
        [fold (cloned (ctx w) buf); destruct (next (cloned (ctx w) buf));
         cbn [snd trace]; now rewrite <- List.app_assoc
        |now right; left]|]);
    (match goal with
     | |- context [if truthy entry && ?x then _ else _] => destruct (truthy entry && x)
     end; step;
     [exists [CacheGet (key_of buf)]; split;
        [now destruct (cacheHeaders config)|now left]|]);
    fold (cloned (ctx w) buf);
    destruct (next (cloned (ctx w) buf)) as [[[]|e] c']; step;
    try (exists [CacheGet (key_of buf); Next]; split;
         [now rewrite <- List.app_assoc|now right; left]);
    (destruct (JsString.eqb (ctx_method c') (lit "POST") && (200 <=? ctx_status c')%Z
               && (ctx_status c' <? 300)%Z
               && JsString.startsWith (lit "/graphql")
                    (request_url (ctx_request (ctx w)))); step;
     [|exists [CacheGet (key_of buf); Next]; split;
         [now rewrite <- List.app_assoc|now right; left]]);
    (destruct (truthy (authorization c') && negb (cacheAuthorizedRequests config)); step;
     [exists [CacheGet (key_of buf); Next]; split;
        [now rewrite <- List.app_assoc|now right; left]|]);
    (destruct (ctx_body c') as [v|s];
     [|destruct (streamToBuffer s) as [b|e]; step;
       [destruct (decompressBuffer b _) as [d|e]; step|]]);
    try (exists [CacheGet (key_of buf); Next]; split;
         [now rewrite <- List.app_assoc|now right; left]);
    match goal with
    | |- context [cp_set ?k ?e ?st] =>
        exists [CacheGet (key_of buf); Next; CacheSet (key_of buf) e]; split;
        [destruct (cp_set k e st) as [[?|?] ?]; cbn [snd trace];
         now rewrite <- !List.app_assoc
        |right; right; exists e; cbn [fst snd]; now repeat split]
    end.
Qed.

End MoreRuns.

#[local] Existing Instance Memory.memory_provider.
#[local] Existing Instance Models.list_lru.
#[local] Existing Instance Models.host.

(** The rest of the pipeline answers with a stream of two chunks, under
    the given content encoding if any. *)
Definition answer_stream (encoding : jsobj) (c : Ctx) : Outcome unit * Ctx :=
  (Ok tt,
   ctx_set (JObj encoding)
           (set_body (Streamed [utf8_encode (lit "{" ++ quoted "data");
                                utf8_encode (lit ":{" ++ quoted "articles" ++ lit ":[]}}")])
                     (set_status 200 c))).

Definition gzip : jsobj := [(lit "content-encoding", JStr (lit "gzip"))].

Definition after_lookup : Store (Memory.InMemoryCacheProvider Models.LruState) :=
  snd (cp_get (JStr articles_key) ProviderFacts.ready_memory).

Definition answered (next : Ctx -> Outcome unit * Ctx) : Ctx :=
  snd (next (cloned (ctx plain_world) (utf8_encode articles_query))).

Lemma plain_world_passes_on : passes_on header_config (ctx plain_world) JUndefined.
Proof. split; [reflexivity|]. exists false. split; reflexivity. Qed.

Lemma streamed_response_witness :
  trace (snd (middleware header_config (answer_stream []) plain_world))
  = [CacheGet articles_key; Next;
     CacheSet articles_key (entry_of (JStr articles_data) [])]
  /\ ctx_body (ctx (snd (middleware header_config (answer_stream []) plain_world)))
     = Materialized (JBuffer (utf8_encode articles_data)).
Proof.
  rewrite (streamed_response_is_stored header_config (answer_stream []) plain_world
             (utf8_encode articles_query) JUndefined after_lookup
             (answered (answer_stream []))
             [utf8_encode (lit "{" ++ quoted "data");
              utf8_encode (lit ":{" ++ quoted "articles" ++ lit ":[]}}")]
             (utf8_encode articles_data) (utf8_encode articles_data)
             (Ok RCache)
             (snd (cp_set (JStr articles_key)
                     (streamed_entry header_config (answered (answer_stream []))
                                     (utf8_encode articles_data))
                     (logged after_lookup Info (lit "MISS with key: " ++ articles_key)))));
    [split; vm_compute; reflexivity
    | try exact plain_world_passes_on; vm_compute; reflexivity ..].
Defined.

Lemma response_is_not_stored_witness :
  middleware header_config (respond 500 articles_data) plain_world
  = (Ok tt,
     mkWorld (answered (respond 500 articles_data)) after_lookup [CacheGet articles_key; Next])
  /\ middleware header_config (answer_stream gzip) plain_world
     = (Throw (Error (lit "unsupported content-encoding")),
        mkWorld (answered (answer_stream gzip))
                (logged after_lookup Info (lit "MISS with key: " ++ articles_key))
                [CacheGet articles_key; Next]).
Proof.
  split.
  - destruct (response_is_not_stored header_config (respond 500 articles_data) plain_world
                (utf8_encode articles_query) JUndefined after_lookup
                (Ok tt) (answered (respond 500 articles_data)))
      as (_ & Hb & _);
      [try exact plain_world_passes_on; vm_compute; reflexivity ..|].
    rewrite Hb; [reflexivity | reflexivity | vm_compute; reflexivity].
  - destruct (response_is_not_stored header_config (answer_stream gzip) plain_world
                (utf8_encode articles_query) JUndefined after_lookup
                (Ok tt) (answered (answer_stream gzip)))
      as (_ & _ & _ & Hd);
      [try exact plain_world_passes_on; vm_compute; reflexivity ..|].
    rewrite (Hd [utf8_encode (lit "{" ++ quoted "data");
                 utf8_encode (lit ":{" ++ quoted "articles" ++ lit ":[]}}")]
                (Error (lit "unsupported content-encoding")));
      [reflexivity | reflexivity | vm_compute; reflexivity ..].
Defined.

End MiddlewareMore.

(** ** C8: the two validations of a configuration *)

Module ValidationFacts.

(** The bounds of a plugin configuration, nothing else configured. *)
Definition bounds (max ttl size : Z) : PluginConfig :=
  Provider.mkConfig (Some max) (Some ttl) (Some size) None None JUndefined [] None.

(** The messages logged as errors. *)
Definition error_lines {P : Type} (st : Store P) : list jsstring :=
  List.map snd (List.filter (fun l => match fst l with Err => true | _ => false end) (log st)).

Section InitValidation.
Context {S : Type} `{Memory.LRUCache S}.

Definition fresh (cfg : PluginConfig) : Store (Memory.InMemoryCacheProvider S) :=
  mkStore (Memory.new cfg) [].

(** C8, amended.  [validateConfig] of the test script applied to the
    configuration with max -1, ttl -1000, size 0 and provider [invalid]
    returns four errors, one for each rule.  [init] of the memory
    provider, the validation of the plugin, reports one error for the
    same bounds: it throws at the first rule that is broken, the one on
    max, and logs that error only; with max corrected it throws the
    error on ttl; with max and ttl corrected it accepts a size of 0,
    which it replaces by the default of 10 MiB, and its outcome is that
    of the constructor of the cache.  It reads no provider name. *)
Theorem invalid_config_errors :
  TestScript.validateConfig TestScript.invalidConfig
  = [ lit "max must be a positive number";
      lit "ttl must be a non-negative number";
      lit "size must be a positive number";
      lit "provider must be " ++ [34] ++ lit "memory" ++ [34] ++ lit " or "
        ++ [34] ++ lit "redis" ++ [34] ]
  /\ Memory.init (fresh (bounds (-1) (-1000) 0))
     = (Throw (Error (lit "max must be greater than 0")),
        mkStore (Memory.new (bounds (-1) (-1000) 0))
                [(Err, lit "Failed to initialize provider: Error: max must be greater than 0")])
  /\ Memory.init (fresh (bounds 1000 (-1000) 0))
     = (Throw (Error (lit "ttl must be non-negative")),
        mkStore (Memory.new (bounds 1000 (-1000) 0))
                [(Err, lit "Failed to initialize provider: Error: ttl must be non-negative")])
  /\ Memory.init (fresh (bounds 1000 3600000 0))
     = match Memory.lru_new (Memory.mkLRUOptions 1000 3600000 (1024 * 1024 * 10)
                                                 false true true) with
       | Ok c =>
           (Ok tt,
            mkStore (Memory.mkMemory (bounds 1000 3600000 0) true (Some c) (Some 1000%Z))
                    [(Info, lit "Provider initialized")])
       | Throw e =>
           (Throw e,
            mkStore (Memory.new (bounds 1000 3600000 0))
                    [(Err, lit "Failed to initialize provider: " ++ error_to_string e)])
       end.
Proof.
  split; [apply ProviderFacts.script_validation_has_four_errors|].
  split; [reflexivity|]. split; [reflexivity|].
  rewrite (ProviderMore.memory_init_cases (fresh (bounds 1000 3600000 0)) eq_refl).
  cbn [fresh this log Memory.new Memory.strapi bounds cfg_max cfg_ttl cfg_size
       ProviderMore.negative Z.ltb Z.compare].
  unfold ProviderMore.effective_options, ProviderMore.init_failed.
  cbn [bounds cfg_max cfg_ttl cfg_size cfg_allowStale cfg_cacheGetTimeoutInMs Number_or
       Z.eqb default from_option orb this log fresh Memory.new Z.leb Z.compare app].
  reflexivity.
Qed.

End InitValidation.

#[local] Existing Instance Models.list_lru.

(** C8 as the specification states it, for the validation of the plugin
    as for that of the test script: the configuration is rejected with
    four errors, one for each rule. *)
Definition four_errors_reported : Prop :=
  List.length (TestScript.validateConfig TestScript.invalidConfig) = 4%nat
  /\ exists e,
       fst (Memory.init (fresh (S := Models.LruState) (bounds (-1) (-1000) 0))) = Throw e
       /\ List.length
            (error_lines (snd (Memory.init (fresh (S := Models.LruState)
                                              (bounds (-1) (-1000) 0))))) = 4%nat.

(** Against C8 as stated: [init] rejects the configuration with one
    error. *)
Lemma init_reports_one_error : ~ four_errors_reported.
Proof. intros (_ & e & _ & L). vm_compute in L. discriminate L. Qed.

End ValidationFacts.

(** ** The test script: [validateConfig] and [MockCacheProvider] *)

Module ScriptFacts.
Import TestScript.

(** [x <= 0] is false: the number is above zero, or it is [NaN]. *)
Definition above_zero_or_nan (x : jsnumber) : Prop :=
  match x with
  | Finite m _ => (0 < m)%Z
  | NaN | PosInfinity => True
  | NegInfinity => False
  end.

(** [x < 0] is false: the number is zero or above, or it is [NaN]. *)
Definition not_below_zero_or_nan (x : jsnumber) : Prop :=
  match x with
  | Finite m _ => (0 <= m)%Z
  | NaN | PosInfinity => True
  | NegInfinity => False
  end.

(** What [validateConfig] accepts. *)
Definition acceptable (config : Config) : Prop :=
  (exists x, max config = Num x /\ above_zero_or_nan x)
  /\ (exists x, ttl config = Num x /\ not_below_zero_or_nan x)
  /\ (exists x, size config = Num x /\ above_zero_or_nan x)
  /\ (provider config = Str (lit "memory") \/ provider config = Str (lit "redis")).

Lemma positive_number (v : value) :
  not_positive_number v = false <-> exists x, v = Num x /\ above_zero_or_nan x.
Proof.
  split.
  - destruct v as [x| | | | |]; try discriminate. cbn [not_positive_number]. intros L.
    exists x. split; [reflexivity|].
    destruct x; cbn [le_zero above_zero_or_nan] in *;
      [now apply Z.leb_gt in L|exact Logic.I|exact Logic.I|discriminate L].
  - intros (x & -> & L).
    destruct x; cbn [not_positive_number le_zero above_zero_or_nan] in *;
      [now apply Z.leb_gt|reflexivity|reflexivity|destruct L].
Qed.

Lemma nonnegative_number (v : value) :
  not_nonnegative_number v = false <-> exists x, v = Num x /\ not_below_zero_or_nan x.
Proof.
  split.
  - destruct v as [x| | | | |]; try discriminate. cbn [not_nonnegative_number]. intros L.
    exists x. split; [reflexivity|].
    destruct x; cbn [lt_zero not_below_zero_or_nan] in *;
      [now apply Z.ltb_ge in L|exact Logic.I|exact Logic.I|discriminate L].
  - intros (x & -> & L).
    destruct x; cbn [not_nonnegative_number lt_zero not_below_zero_or_nan] in *;
      [now apply Z.ltb_ge|reflexivity|reflexivity|destruct L].
Qed.

Lemma a_provider (v : value) :
  not_a_provider v = false <-> v = Str (lit "memory") \/ v = Str (lit "redis").
Proof.
  split.
  - destruct v; try discriminate. cbn [not_a_provider List.existsb]. intros E.
    apply negb_false_iff in E. rewrite orb_false_r in E. apply orb_true_iff in E.
    destruct E as [E|E]; apply StringFacts.eqb_eq in E; subst; auto.
  - intros [->| ->]; reflexivity.
Qed.

(** [validateConfig] returns no error exactly for a configuration in
    which max and size are numbers for which [<= 0] is false, ttl is a
    number for which [< 0] is false, and provider is the string [memory]
    or [redis].  A comparison with [NaN] is false, so [NaN] passes each
    of the three numeric rules.  The errors are one for each rule that
    is broken, never more than four. *)
Theorem validateConfig_accepts (config : Config) :
  (validateConfig config = [] <-> acceptable config)
  /\ validateConfig (mkConfig (Num NaN) (Num NaN) (Num NaN) (provider config))
     = validateConfig (mkConfig (int 1) (int 0) (int 1) (provider config))
  /\ List.length (validateConfig config)
     = (Nat.b2n (not_positive_number (max config))
        + Nat.b2n (not_nonnegative_number (ttl config))
        + Nat.b2n (not_positive_number (size config))
        + Nat.b2n (not_a_provider (provider config)))%nat.
Proof.
  split; [|split; [reflexivity|]].
  - unfold acceptable.
    rewrite <- !positive_number, <- nonnegative_number, <- a_provider.
    unfold validateConfig.
    destruct (not_positive_number (max config)), (not_nonnegative_number (ttl config)),
      (not_positive_number (size config)), (not_a_provider (provider config));
      cbn [app];
      (split; [discriminate || tauto|intros (? & ? & ? & ?); congruence]).
  - unfold validateConfig.
    destruct (not_positive_number (max config)), (not_nonnegative_number (ttl config)),
      (not_positive_number (size config)), (not_a_provider (provider config));
      reflexivity.
Qed.

Import Mock.

(** The guards of the mock provider throw, where the providers of the
    plugin answer null: [init] on an initialized provider, any data
    operation before [init], and any data operation with a key that is
    not a non-empty string.  The provider is left as it was. *)
Theorem mock_provider_throws (p : MockCacheProvider) (key value : jsval) :
  (initialized p = true ->
     Mock.init p = (Throw (Error (lit "Provider already initialized")), p))
  /\ (initialized p = false ->
        Mock.get key p = (Throw (Error (lit "Provider not initialized")), p)
        /\ Mock.set key value p = (Throw (Error (lit "Provider not initialized")), p)
        /\ Mock.del key p = (Throw (Error (lit "Provider not initialized")), p))
  /\ (initialized p = true ->
      invalid_key key = true ->
        Mock.get key p = (Throw (Error (lit "Invalid key")), p)
        /\ Mock.set key value p = (Throw (Error (lit "Invalid key")), p)
        /\ Mock.del key p = (Throw (Error (lit "Invalid key")), p)).
Proof.
  unfold Mock.init, Mock.get, Mock.set, Mock.del, mbind, eff_bind, bind, gets, throw, id.
  split; [|split].
  - now intros ->.
  - intros ->. now repeat split.
  - intros -> ->. now repeat split.
Qed.

(** On an initialized mock provider a value written under a non-empty
    key is returned by the write and read back under that key, unless it
    is falsy: then it reads back as null.  The write leaves the reads of
    other keys as they were; a delete of the key then reports that the
    key was present, and the key reads as null afterwards. *)
Theorem mock_set_then_get (p : MockCacheProvider) (k k' : jsstring) (v : jsval) :
  initialized p = true ->
  k <> [] ->
  let written := snd (Mock.set (JStr k) v p) in
  fst (Mock.set (JStr k) v p) = Ok v
  /\ fst (Mock.get (JStr k) written) = Ok (if truthy v then v else JNull)
  /\ (k' <> k -> fst (Mock.get (JStr k') written) = fst (Mock.get (JStr k') p))
  /\ fst (Mock.del (JStr k) written) = Ok true
  /\ fst (Mock.get (JStr k) (snd (Mock.del (JStr k) written))) = Ok JNull.
Proof.
  intros I K. destruct k as [|x k]; [contradiction|].
  unfold Mock.init, Mock.get, Mock.set, Mock.del, mbind, eff_bind, bind, gets, throw, modify,
    ret, id.
  rewrite I.
  cbn [negb invalid_key truthy typeof jstype_eqb orb key_text fst snd initialized data].
  rewrite I. cbn [negb]. rewrite !lookup_insert_eq.
  cbn [fst snd initialized data negb from_option]. rewrite lookup_delete_eq.
  cbn [from_option truthy fst].
  split; [reflexivity|]. split; [reflexivity|]. split; [|split; [|reflexivity]].
  - intros N. destruct k' as [|y k'']; [reflexivity|].
    cbn [invalid_key truthy typeof jstype_eqb negb orb key_text].
    now rewrite lookup_insert_ne by congruence.
  - rewrite bool_decide_eq_true_2; [reflexivity|eauto].
Qed.

(** The valid operations of the test script. *)
Definition ready_mock : MockCacheProvider := snd (Mock.init Mock.new).

Lemma mock_set_then_get_witness :
  fst (Mock.get (JStr (lit "test-key"))
         (snd (Mock.set (JStr (lit "test-key")) (JStr (lit "test-value")) ready_mock)))
  = Ok (JStr (lit "test-value")).
Proof.
  destruct (mock_set_then_get ready_mock (lit "test-key") [] (JStr (lit "test-value"))
              eq_refl ltac:(discriminate)) as (_ & G & _).
  exact G.
Defined.

(** The rejected operations of the test script: a second [init], a null
    key and an empty key. *)
Lemma mock_provider_throws_witness :
  fst (Mock.init ready_mock) = Throw (Error (lit "Provider already initialized"))
  /\ fst (Mock.get JNull ready_mock) = Throw (Error (lit "Invalid key"))
  /\ fst (Mock.set (JStr []) (JStr (lit "value")) ready_mock)
     = Throw (Error (lit "Invalid key")).
Proof.
  destruct (mock_provider_throws ready_mock JNull JNull) as (Hi & _ & Hk).
  destruct (mock_provider_throws ready_mock (JStr []) (JStr (lit "value"))) as (_ & _ & He).
  rewrite (Hi eq_refl).
  destruct (Hk eq_refl eq_refl) as (-> & _).
  destruct (He eq_refl eq_refl) as (_ & -> & _).
  now repeat split.
Defined.

End ScriptFacts.

(** ** What [init] of the Redis provider connects to *)

Module RedisInit.
Import Provider Redis.

Lemma obj_get_update (k : jsstring) (v : jsval) (o : jsobj) :
  has_key k o = true -> obj_get (obj_update k v o) k = v.
Proof.
  induction o as [|[k' v'] o IH]; [discriminate|].
  cbn [has_key List.existsb fst obj_update]. fold (has_key k o).
  destruct (JsString.eqb k' k) eqn:E; cbn [orb obj_get]; rewrite E; [reflexivity|exact IH].
Qed.

Lemma obj_get_append (k : jsstring) (v : jsval) (o : jsobj) :
  has_key k o = false -> obj_get (o ++ [(k, v)]) k = v.
Proof.
  induction o as [|[k' v'] o IH]; cbn [has_key List.existsb fst app obj_get].
  - now rewrite StringFacts.eqb_refl.
  - fold (has_key k o). destruct (JsString.eqb k' k); [discriminate|exact IH].
Qed.

(** A property that is not an array index reads back what was assigned. *)
Lemma obj_get_set (k : jsstring) (v : jsval) (o : jsobj) :
  array_index k = None -> obj_get (obj_set k v o) k = v.
Proof.
  intros A. unfold obj_set. rewrite A.
  destruct (has_key k o) eqn:E; [now apply obj_get_update|now apply obj_get_append].
Qed.

Section Init.
Context {R : Type} `{RedisClient R}.

(** [init] of a provider that is not initialized opens one connection:
    to the cluster when cluster nodes are configured, with options whose
    [redisOptions] is set, and otherwise to the configured server, or to
    [redis://localhost:6379] when none is configured.  The read timeout
    is positive whatever is configured.  When the constructor returns,
    the provider is ready and a further [init] only logs an error; when
    it throws, the error is logged and rethrown, and the provider stays
    uninitialized with the client it had. *)
Theorem redis_init_outcome (st : Store (RedisCacheProvider R)) :
  initialized (this st) = false ->
  let cfg := strapi (this st) in
  exists (target : RedisTarget) (t : Z),
    (0 < t)%Z
    /\ match cfg_redisClusterNodes cfg with
       | [] =>
           exists server,
             target = Single server /\ truthy server = true
             /\ (truthy (cfg_redisConfig cfg) = true -> server = cfg_redisConfig cfg)
             /\ (truthy (cfg_redisConfig cfg) = false
                 -> server = JStr (lit "redis://localhost:6379"))
       | nodes =>
           exists options,
             target = Cluster nodes options
             /\ truthy (obj_get options (lit "redisOptions")) = true
       end
    /\ match redis_new target with
       | Ok c =>
           let ready_store :=
             mkStore (mkRedis cfg true (Some c) (Some t))
                     (log st ++ [(Info, lit "Redis provider initialized")]) in
           Redis.init st = (Ok tt, ready_store)
           /\ ready (this ready_store) = true
           /\ Redis.init ready_store
              = (Ok tt,
                 mkStore (this ready_store)
                         (log ready_store
                            ++ [(Err, lit "Redis provider already initialized")]))
       | Throw e =>
           Redis.init st
           = (Throw e,
              mkStore (mkRedis cfg false (client (this st)) (Some t))
                      (log st ++ [(Err, lit "Failed to initialize Redis provider: "
                                          ++ error_to_string e)]))
       end.
Proof.
  intros I cfg.
  set (server := if truthy (cfg_redisConfig cfg) then cfg_redisConfig cfg
                 else JStr (lit "redis://localhost:6379")).
  assert (Ts : truthy server = true).
  { unfold server. destruct (truthy (cfg_redisConfig cfg)) eqn:T; [exact T|reflexivity]. }
  set (t := if (Number_or (cfg_cacheGetTimeoutInMs cfg) 1000 <=? 0)%Z then 1000%Z
            else Number_or (cfg_cacheGetTimeoutInMs cfg) 1000).
  set (options := default [] (cfg_redisClusterOptions cfg)).
  exists (if Nat.ltb 0 (List.length (cfg_redisClusterNodes cfg))
          then Cluster (cfg_redisClusterNodes cfg)
                       (if negb (truthy (obj_get options (lit "redisOptions")))
                        then obj_set (lit "redisOptions") server options
                        else options)
          else Single server), t.
  split; [apply ProviderMore.timeout_positive|]. split.
  - destruct (cfg_redisClusterNodes cfg) as [|n nodes]; cbn [List.length Nat.ltb Nat.leb].
    + exists server. split; [reflexivity|]. split; [exact Ts|].
      unfold server. split; intros ->; [reflexivity|reflexivity].
    + eexists. split; [reflexivity|].
      destruct (truthy (obj_get options (lit "redisOptions"))) eqn:T; cbn [negb];
        [exact T|].
      now rewrite obj_get_set.
  - unfold Redis.init, mbind, eff_bind, bind, gets, try_catch, loggy, set_this, modify, throw,
      lift_outcome, ready.
    rewrite I. fold cfg. fold server. fold t. fold options.
    cbn [this log initialized client fst snd].
    destruct (Nat.ltb 0 (List.length (cfg_redisClusterNodes cfg)));
      match goal with |- context [redis_new ?x] => destruct (redis_new x) as [c|e] end;
      cbn [this log initialized client andb fst snd];
      try reflexivity; (split; [reflexivity|]; split; reflexivity).
Qed.

End Init.

(** Cluster nodes and no address of a single server. *)
Definition cluster_config : PluginConfig :=
  Provider.mkConfig None None None None (Some 0%Z) JUndefined
                    [JStr (lit "redis://node-a:6379")] None.

Lemma redis_init_witness :
  fst (Redis.init (H := Models.map_redis ProviderFacts.empty_server)
         (mkStore (Redis.new cluster_config) [])) = Ok tt
  /\ ready (this (snd (Redis.init (H := Models.map_redis ProviderFacts.empty_server)
                         (mkStore (Redis.new cluster_config) [])))) = true.
Proof.
  destruct (redis_init_outcome (H := Models.map_redis ProviderFacts.empty_server)
              (mkStore (Redis.new cluster_config) []) eq_refl)
    as (target & t & _ & _ & O).
  cbn [redis_new Models.map_redis] in O. destruct O as (O & Rd & _).
  rewrite O. split; [reflexivity|exact Rd].
Defined.

End RedisInit.
